(** * ClientDatabase: a client / client_phone store over PostgreSQL

    Shallow embedding of [client.py].  The Python class [ClientDatabase]
    wraps one psycopg2 connection; every method opens a cursor, executes
    one or a few SQL statements and commits or rolls back.

    The embedding has three layers:
    - text values and the two CHECK regular expressions of the schema;
    - the storage backend: the two tables, their sequences, the statements
      the methods execute, and the connection's transaction (the committed
      database, the database seen inside the open transaction, and the
      aborted-transaction flag);
    - the methods of [ClientDatabase], written in a small state-and-exception
      monad, one definition per method, under the method's name.

    What the backend does is PostgreSQL's: a statement that raises aborts
    the open transaction; [rollback] discards everything since the last
    commit, not only the failed statement; a SERIAL sequence is not rewound
    by a rollback; a CHECK passes on NULL; a value too long for its
    [varchar(n)] column is an error of its own, raised before the CHECK is
    looked at; a number too large for an [integer] column is another one,
    raised before that.  The order of the rows of the listing, which the
    query leaves open, is a parameter of the call.

    Three things are fixed by the model and said where they matter.  The
    sequences do not run out.  The database has the C locale; the two
    regular expressions are defined for every locale, and what they accept
    is proved for every locale.  Text is text the driver can send (see
    [sendable]): a string with a NUL character never reaches the backend,
    the driver refuses it with an error of its own. *)

From Stdlib Require Import String Ascii List NArith ZArith Bool Lia.
From Stdlib Require Import Permutation.
Import ListNotations.


(** ** Text *)

(** A Python [str] is a sequence of Unicode code points. *)
Definition pystr := list N.

(** Literals are written as Rocq strings (UTF-8 bytes) and decoded. *)
Fixpoint utf8_go (pending : nat) (acc : N) (s : string) : pystr :=
  match s with
  | EmptyString => []
  | String a rest =>
      let b := N_of_ascii a in
      match pending with
      | O =>
          if (b <? 128)%N then b :: utf8_go 0 0 rest
          else if (b <? 224)%N then utf8_go 1 (b - 192) rest
          else if (b <? 240)%N then utf8_go 2 (b - 224) rest
          else utf8_go 3 (b - 240) rest
      | S O => (acc * 64 + (b - 128))%N :: utf8_go 0 0 rest
      | S k => utf8_go k (acc * 64 + (b - 128))%N rest
      end
  end.

Definition u (s : string) : pystr := utf8_go 0 0 s.

Definition pystr_eq_dec : forall a b : pystr, {a = b} + {a <> b} :=
  list_eq_dec N.eq_dec.

Definition pystr_eqb (a b : pystr) : bool :=
  if pystr_eq_dec a b then true else false.

(** [str.lower()], code point by code point: basic Latin capitals and the
    Cyrillic capitals U+0400..U+042F (the alphabets of the search keys);
    every other code point is left as it is. *)
Definition lower_cp (c : N) : N :=
  if ((65 <=? c) && (c <=? 90))%N then (c + 32)%N
  else if ((1040 <=? c) && (c <=? 1071))%N then (c + 32)%N
  else if ((1024 <=? c) && (c <=? 1039))%N then (c + 80)%N
  else c.

Definition lower (s : pystr) : pystr := map lower_cp s.

(** A value bound to a query parameter, or stored in a text column:
    [None] is Python's [None] and SQL's NULL. *)
Definition sqltext := option pystr.

Definition sqltext_eq_dec : forall a b : sqltext, {a = b} + {a <> b}.
Proof. decide equality; apply pystr_eq_dec. Defined.

(** ** Regular expressions of the CHECK constraints *)

Inductive regex : Type :=
| Void : regex
| Eps : regex
| Class : (N -> bool) -> regex
| Cat : regex -> regex -> regex
| Alt : regex -> regex -> regex
| Star : regex -> regex.

Fixpoint nullable (r : regex) : bool :=
  match r with
  | Void => false
  | Eps => true
  | Class _ => false
  | Cat a b => nullable a && nullable b
  | Alt a b => nullable a || nullable b
  | Star _ => true
  end.

Fixpoint deriv (c : N) (r : regex) : regex :=
  match r with
  | Void => Void
  | Eps => Void
  | Class p => if p c then Eps else Void
  | Cat a b =>
      if nullable a then Alt (Cat (deriv c a) b) (deriv c b)
      else Cat (deriv c a) b
  | Alt a b => Alt (deriv c a) (deriv c b)
  | Star a => Cat (deriv c a) (Star a)
  end.

(** [s ~ '^r$']: the whole of [s] is matched by [r]. *)
Fixpoint matches (r : regex) (s : pystr) : bool :=
  match s with
  | [] => nullable r
  | c :: s' => matches (deriv c r) s'
  end.

Definition Chr (c : N) : regex := Class (N.eqb c).
Definition Opt (r : regex) : regex := Alt Eps r.       (* r{0,1} *)
Definition Plus (r : regex) : regex := Cat r (Star r). (* r+ *)

(** Character classes.  What [\w], [\d] and [\s] take of ASCII is the
    same in every database.  Which code points above 127 they take is
    decided by the locale the database was created with (its LC_CTYPE and
    locale provider): none in the C locale; the letters and digits of other
    scripts and the other spaces of Unicode in a UTF-8 locale.  A [ctype]
    gives the three classes above 127. *)
Record ctype : Type := {
  wide_alnum : N -> bool;
  wide_digit : N -> bool;
  wide_space : N -> bool
}.

Definition C_locale : ctype :=
  {| wide_alnum := fun _ => false;
     wide_digit := fun _ => false;
     wide_space := fun _ => false |}.

Definition is_ascii (c : N) : bool := (c <=? 127)%N.

(* the digits and letters of ASCII *)
Definition is_digit (c : N) : bool := ((48 <=? c) && (c <=? 57))%N.
Definition is_alpha (c : N) : bool :=
  (((65 <=? c) && (c <=? 90)) || ((97 <=? c) && (c <=? 122)))%N.

(* \d is [[:digit:]] *)
Definition digit_in (lc : ctype) (c : N) : bool :=
  is_digit c || (negb (is_ascii c) && wide_digit lc c).
(* \w is [[:alnum:]_] *)
Definition word_in (lc : ctype) (c : N) : bool :=
  is_alpha c || is_digit c || (c =? 95)%N
  || (negb (is_ascii c) && wide_alnum lc c).
(* \s is [[:space:]]: tab, newline, vertical tab, form feed, return, space *)
Definition space_in (lc : ctype) (c : N) : bool :=
  ((9 <=? c) && (c <=? 13))%N || (c =? 32)%N
  || (negb (is_ascii c) && wide_space lc c).

(** [^[\w\-\.]+\@[\w\-\.]+\.[\w]+$] *)
Definition word_dash_dot_in (lc : ctype) (c : N) : bool :=
  word_in lc c || (c =? 45)%N || (c =? 46)%N.

Definition email_regexp_in (lc : ctype) : regex :=
  Cat (Plus (Class (word_dash_dot_in lc)))
   (Cat (Chr 64)
    (Cat (Plus (Class (word_dash_dot_in lc)))
     (Cat (Chr 46)
          (Plus (Class (word_in lc)))))).

(** [^[+]{0,1}\d{0,1}[(]{0,1}\d{1,4}[)]{0,1}[-\s\./\d]*$] *)
Definition phone_tail_in (lc : ctype) (c : N) : bool :=
  (c =? 45)%N || space_in lc c || (c =? 46)%N || (c =? 47)%N || digit_in lc c.

Definition digits_1_4 (digit : N -> bool) : regex :=
  Cat (Class digit)
   (Opt (Cat (Class digit)
    (Opt (Cat (Class digit)
     (Opt (Class digit)))))).

Definition phone_regexp_in (lc : ctype) : regex :=
  Cat (Opt (Chr 43))
   (Cat (Opt (Class (digit_in lc)))
    (Cat (Opt (Chr 40))
     (Cat (digits_1_4 (digit_in lc))
      (Cat (Opt (Chr 41))
           (Star (Class (phone_tail_in lc))))))).

(** The database of the model is one of the C locale: its two constraints
    take letters, digits and spaces from ASCII only. *)
Definition is_word : N -> bool := word_in C_locale.
Definition is_space : N -> bool := space_in C_locale.
Definition word_dash_dot : N -> bool := word_dash_dot_in C_locale.
Definition phone_tail : N -> bool := phone_tail_in C_locale.
Definition email_regexp : regex := email_regexp_in C_locale.
Definition phone_regexp : regex := phone_regexp_in C_locale.

(** A CHECK constraint rejects a row only when its expression is false:
    on NULL the expression is NULL and the row passes. *)
Definition check (r : regex) (v : sqltext) : bool :=
  match v with
  | None => true
  | Some s => matches r s
  end.

(** ** Storage: the schema of [create_db_schema] *)

(** [client (client_id SERIAL PRIMARY KEY, first_name varchar(100),
    last_name varchar(100), email varchar(100), CHECK (email ~ ...))] *)
Record client_row : Type := {
  client_id : Z;
  first_name : sqltext;
  last_name : sqltext;
  email : sqltext
}.

(** [client_phone (client_phone_id SERIAL PRIMARY KEY,
    client_id integer REFERENCES client(client_id), phone varchar(50),
    CHECK (phone ~ ...))].  The referencing column is [phone_client_id]
    here; identifiers are integers throughout. *)
Record client_phone_row : Type := {
  client_phone_id : Z;
  phone_client_id : Z;
  phone : sqltext
}.

Record database : Type := {
  client : list client_row;
  client_phone : list client_phone_row
}.

Definition client_row_eq_dec : forall a b : client_row, {a = b} + {a <> b}.
Proof. decide equality; (apply sqltext_eq_dec || apply Z.eq_dec). Defined.

Definition client_row_eqb (a b : client_row) : bool :=
  if client_row_eq_dec a b then true else false.

(** The errors of the backend that the statements below can raise
    (psycopg2.errors).  The driver's own errors are not among them: they
    arise on text that cannot be sent, before a statement reaches the
    backend. *)
Inductive pg_error : Type :=
| CheckViolation
| StringDataRightTruncation
| UniqueViolation
| ForeignKeyViolation
| NumericValueOutOfRange
| UndefinedColumn
| InFailedSqlTransaction.

Inductive sql_result (A : Type) : Type :=
| Ok : A -> sql_result A
| Err : pg_error -> sql_result A.
Arguments Ok {A} _.
Arguments Err {A} _.

(** What the connection did with its transaction, oldest first:
    [Commit db] records the database a commit made durable. *)
Inductive conn_event : Type :=
| Commit : database -> conn_event
| Rollback : conn_event.

(** One psycopg2 connection (autocommit off).  [committed] is the durable
    database; [current] is what statements of the open transaction see and
    change; [failed] is set when a statement raised and stays set until the
    transaction ends.  The two SERIAL sequences hold the last value handed
    out; they are not transactional, a rollback does not rewind them. *)
Record connection : Type := {
  committed : database;
  current : database;
  failed : bool;
  client_seq : Z;
  client_phone_seq : Z;
  log : list conn_event
}.

Definition set_current (db : database) (c : connection) : connection :=
  {| committed := committed c; current := db; failed := failed c;
     client_seq := client_seq c; client_phone_seq := client_phone_seq c;
     log := log c |}.

Definition set_failed (c : connection) : connection :=
  {| committed := committed c; current := current c; failed := true;
     client_seq := client_seq c; client_phone_seq := client_phone_seq c;
     log := log c |}.

Definition nextval_client (c : connection) : connection :=
  {| committed := committed c; current := current c; failed := failed c;
     client_seq := client_seq c + 1; client_phone_seq := client_phone_seq c;
     log := log c |}.

Definition nextval_client_phone (c : connection) : connection :=
  {| committed := committed c; current := current c; failed := failed c;
     client_seq := client_seq c; client_phone_seq := client_phone_seq c + 1;
     log := log c |}.

(** [conn.commit()]: the open transaction becomes durable; committing an
    aborted transaction rolls it back. *)
Definition conn_commit (c : connection) : connection :=
  let db := if failed c then committed c else current c in
  {| committed := db; current := db; failed := false;
     client_seq := client_seq c; client_phone_seq := client_phone_seq c;
     log := log c ++ [Commit db] |}.

(** [conn.rollback()]: everything since the last commit is discarded. *)
Definition conn_rollback (c : connection) : connection :=
  {| committed := committed c; current := committed c; failed := false;
     client_seq := client_seq c; client_phone_seq := client_phone_seq c;
     log := log c ++ [Rollback] |}.

(** ** Storage: the statements *)

(** Assignment to a [varchar(n)] column: a longer value is an error unless
    the excess is all spaces, which are cut off. *)
Definition varchar (n : nat) (v : sqltext) : sql_result sqltext :=
  match v with
  | None => Ok None
  | Some s =>
      if (length s <=? n)%nat then Ok (Some s)
      else if forallb (N.eqb 32) (skipn n s) then Ok (Some (firstn n s))
      else Err StringDataRightTruncation
  end.

Definition has_client (id : Z) (db : database) : bool :=
  existsb (fun r => client_id r =? id)%Z (client db).

Definition has_client_phone (id : Z) (db : database) : bool :=
  existsb (fun r => client_phone_id r =? id)%Z (client_phone db).

(** A statement sees the connection (its open transaction and the
    sequences) and yields a result or an error. *)
Definition statement (A : Type) : Type := connection -> sql_result A * connection.

(** [INSERT INTO client (first_name, last_name, email) VALUES (%s, %s, %s)
    RETURNING client_id] *)
Definition INSERT_INTO_client (fn ln em : sqltext) : statement Z := fun c =>
  match varchar 100 fn, varchar 100 ln, varchar 100 em with
  | Ok fn', Ok ln', Ok em' =>
      let id := (client_seq c + 1)%Z in
      let c' := nextval_client c in
      if negb (check email_regexp em') then (Err CheckViolation, c')
      else if has_client id (current c) then (Err UniqueViolation, c')
      else
        let row := {| client_id := id; first_name := fn';
                      last_name := ln'; email := em' |} in
        (Ok id,
         set_current {| client := client (current c) ++ [row];
                        client_phone := client_phone (current c) |} c')
  | _, _, _ => (Err StringDataRightTruncation, c)
  end.

(** The values of an [integer] column: 32 bits. *)
Definition int4 (z : Z) : bool :=
  ((-2147483648 <=? z) && (z <=? 2147483647))%Z.

(** [INSERT INTO client_phone (client_id, phone) VALUES (%s, %s)].  The
    number given for [client_id] is cast to the column's type when the
    statement is planned: a number outside [int4] is an error of its own,
    raised before the phone is measured, before the sequence is drawn from
    and before any constraint is looked at.  (The sequences of the model do
    not run out: the identifier of a stored client, which its sequence
    handed out, counts as one the column holds.) *)
Definition INSERT_INTO_client_phone (cid : Z) (ph : sqltext) : statement unit :=
  fun c =>
  if negb (int4 cid || has_client cid (current c))
  then (Err NumericValueOutOfRange, c)
  else
  match varchar 50 ph with
  | Ok ph' =>
      let id := (client_phone_seq c + 1)%Z in
      let c' := nextval_client_phone c in
      if negb (check phone_regexp ph') then (Err CheckViolation, c')
      else if has_client_phone id (current c) then (Err UniqueViolation, c')
      else if negb (has_client cid (current c)) then (Err ForeignKeyViolation, c')
      else
        let row := {| client_phone_id := id; phone_client_id := cid;
                      phone := ph' |} in
        (Ok tt,
         set_current {| client := client (current c);
                        client_phone := client_phone (current c) ++ [row] |} c')
  | Err e => (Err e, c)
  end.

(** [UPDATE client SET first_name = .., last_name = .., email = ..
    WHERE client_id = ..]; the result is the number of rows changed. *)
Definition UPDATE_client (id : Z) (fn ln em : sqltext) : statement nat := fun c =>
  match varchar 100 fn, varchar 100 ln, varchar 100 em with
  | Ok fn', Ok ln', Ok em' =>
      let hit := fun r : client_row => (client_id r =? id)%Z in
      let n := length (filter hit (client (current c))) in
      if negb (n =? 0)%nat && negb (check email_regexp em') then
        (Err CheckViolation, c)
      else
        let upd := fun r : client_row =>
          if hit r then {| client_id := client_id r; first_name := fn';
                           last_name := ln'; email := em' |}
          else r in
        (Ok n,
         set_current {| client := map upd (client (current c));
                        client_phone := client_phone (current c) |} c)
  | _, _, _ => (Err StringDataRightTruncation, c)
  end.

(** [DELETE FROM client_phone WHERE client_phone_id = %s] *)
Definition DELETE_FROM_client_phone_by_id (pid : Z) : statement unit := fun c =>
  (Ok tt,
   set_current
     {| client := client (current c);
        client_phone :=
          filter (fun p => negb (client_phone_id p =? pid)%Z)
                 (client_phone (current c)) |} c).

(** [DELETE FROM client_phone WHERE client_id = %s] *)
Definition DELETE_FROM_client_phone (cid : Z) : statement unit := fun c =>
  (Ok tt,
   set_current
     {| client := client (current c);
        client_phone :=
          filter (fun p => negb (phone_client_id p =? cid)%Z)
                 (client_phone (current c)) |} c).

(** [DELETE FROM client WHERE client_id = %s]; a deleted client that a
    phone still references violates the foreign key. *)
Definition DELETE_FROM_client (cid : Z) : statement unit := fun c =>
  if has_client cid (current c)
     && existsb (fun p => phone_client_id p =? cid)%Z (client_phone (current c))
  then (Err ForeignKeyViolation, c)
  else
    (Ok tt,
     set_current
       {| client := filter (fun r => negb (client_id r =? cid)%Z)
                           (client (current c));
          client_phone := client_phone (current c) |} c).

(** [client c LEFT JOIN client_phone cp ON c.client_id = cp.client_id]:
    a client without phones gives one row, with the [cp] side NULL. *)
Record joined : Type := {
  c_ : client_row;
  cp_ : option client_phone_row
}.

Definition phones_of (c : client_row) (db : database) : list client_phone_row :=
  filter (fun p => phone_client_id p =? client_id c)%Z (client_phone db).

Definition join_rows (db : database) (c : client_row) : list joined :=
  match phones_of c db with
  | [] => [ {| c_ := c; cp_ := None |} ]
  | ps => map (fun p => {| c_ := c; cp_ := Some p |}) ps
  end.

Definition LEFT_JOIN (db : database) : list joined :=
  flat_map (join_rows db) (client db).

Definition cp_phone (j : joined) : sqltext :=
  match cp_ j with
  | Some p => phone p
  | None => None
  end.

(** The column an unqualified identifier of the WHERE clause names. *)
Definition column (ident : pystr) : option (joined -> sqltext) :=
  if pystr_eqb ident (u "first_name") then Some (fun j => first_name (c_ j))
  else if pystr_eqb ident (u "last_name") then Some (fun j => last_name (c_ j))
  else if pystr_eqb ident (u "email") then Some (fun j => email (c_ j))
  else if pystr_eqb ident (u "phone") then Some cp_phone
  else None.

(** [a = b] in a WHERE clause: true only on two equal non-NULL values. *)
Definition sql_eq (a b : sqltext) : bool :=
  match a, b with
  | Some x, Some y => pystr_eqb x y
  | _, _ => false
  end.

(** [SELECT DISTINCT c.client_id, c.first_name, c.last_name, c.email
    FROM client c LEFT JOIN client_phone cp ON .. WHERE {} = %s].
    A result row has the four columns of [client].  The rows are given in
    the order of the table; what is proved of the result is which rows it
    has and that none comes twice, never where a row stands. *)
Definition SELECT_DISTINCT_client (ident : pystr) (value : sqltext)
  : statement (list client_row) := fun c =>
  match column ident with
  | None => (Err UndefinedColumn, c)
  | Some col =>
      (Ok (nodup client_row_eq_dec
             (map c_ (filter (fun j => sql_eq (col j) value)
                             (LEFT_JOIN (current c))))), c)
  end.

(** [string_agg(v, sep)]: the non-NULL values joined by [sep]; NULL when
    there is none. *)
Fixpoint non_null (vs : list sqltext) : list pystr :=
  match vs with
  | [] => []
  | None :: r => non_null r
  | Some s :: r => s :: non_null r
  end.

Fixpoint join (sep : pystr) (l : list pystr) : pystr :=
  match l with
  | [] => []
  | [x] => x
  | x :: r => x ++ sep ++ join sep r
  end.

Definition string_agg (vs : list sqltext) (sep : pystr) : sqltext :=
  match non_null vs with
  | [] => None
  | l => Some (join sep l)
  end.

(** The order of the rows of a query without ORDER BY is the backend's
    choice, made anew at every execution.  A [row_order] names one choice:
    the rows are taken one by one, the last first, and the number that goes
    with a row is the place it is put at among the rows already taken (a
    number past the end puts it last, a missing number first).  The empty
    [row_order] leaves the rows as they are; every arrangement of the rows
    is the choice of some [row_order]. *)
Definition row_order := list nat.

Fixpoint insert_at {A} (k : nat) (x : A) (l : list A) : list A :=
  match k, l with
  | S k', y :: r => y :: insert_at k' x r
  | _, _ => x :: l
  end.

Fixpoint arrange {A} (order : row_order) (l : list A) : list A :=
  match l with
  | [] => []
  | x :: r => insert_at (hd 0%nat order) x (arrange (tl order) r)
  end.

(** The two choices of the grouping query: the order in which the joined
    rows reach the aggregate, and the order in which the groups are
    given. *)
Record plan : Type := {
  scan_order : row_order;
  group_order : row_order
}.

Definition table_order : plan := {| scan_order := []; group_order := [] |}.

(** [SELECT c.client_id, c.first_name, c.last_name, c.email,
    string_agg(cp.phone, ', ') phones FROM client c LEFT JOIN client_phone cp
    ON .. GROUP BY c.client_id, c.first_name, c.last_name, c.email].
    A result row is the four grouping columns and the aggregate.  The query
    has no ORDER BY, neither for the rows nor inside [string_agg]: both
    orders are those of the [plan] of this execution. *)
Definition SELECT_client_GROUP_BY (pl : plan)
  : statement (list (client_row * sqltext)) :=
  fun c =>
  let rows := arrange (scan_order pl) (LEFT_JOIN (current c)) in
  let groups :=
    arrange (group_order pl) (nodup client_row_eq_dec (map c_ rows)) in
  (Ok (map (fun k =>
              (k, string_agg
                    (map cp_phone
                         (filter (fun j => client_row_eqb (c_ j) k) rows))
                    (u ", ")))
           groups), c).

(** ** The Python side *)

(** What [print] wrote: a message, or a result row. *)
Inductive printed : Type :=
| Text : pystr -> printed
| Tuple : client_row * sqltext -> printed.

Record state : Type := {
  conn : connection;
  stdout : list printed
}.

Inductive outcome (A : Type) : Type :=
| Returned : A -> outcome A
| Raised : pg_error -> outcome A.
Arguments Returned {A} _.
Arguments Raised {A} _.

(** A method body: it changes the state and returns or raises. *)
Definition M (A : Type) : Type := state -> outcome A * state.

Definition ret {A} (a : A) : M A := fun st => (Returned a, st).

Definition bind {A B} (m : M A) (k : A -> M B) : M B := fun st =>
  match m st with
  | (Returned a, st') => k a st'
  | (Raised e, st') => (Raised e, st')
  end.

Notation "x <- m ;; k" := (bind m (fun x => k))
  (at level 61, m at next level, right associativity).
Notation "m ;; k" := (bind m (fun _ => k))
  (at level 61, right associativity).

(** [cur.execute(..)]: inside an aborted transaction every statement is
    refused; a statement that raises aborts the transaction. *)
Definition execute {A} (q : statement A) : M A := fun st =>
  if failed (conn st) then (Raised InFailedSqlTransaction, st)
  else
    match q (conn st) with
    | (Ok a, c) => (Returned a, {| conn := c; stdout := stdout st |})
    | (Err e, c) => (Raised e, {| conn := set_failed c; stdout := stdout st |})
    end.

Definition commit : M unit := fun st =>
  (Returned tt, {| conn := conn_commit (conn st); stdout := stdout st |}).

Definition rollback : M unit := fun st =>
  (Returned tt, {| conn := conn_rollback (conn st); stdout := stdout st |}).

Definition print (p : printed) : M unit := fun st =>
  (Returned tt, {| conn := conn st; stdout := stdout st ++ [p] |}).

(** [try: body except psycopg2.errors.CheckViolation: handler] *)
Definition try_except_CheckViolation {A} (body handler : M A) : M A := fun st =>
  match body st with
  | (Raised CheckViolation, st') => handler st'
  | r => r
  end.

(** [for x in l: body] *)
Fixpoint for_in {A} (l : list A) (body : A -> M unit) : M unit :=
  match l with
  | [] => ret tt
  | x :: r => body x ;; for_in r body
  end.

(** The values [phone_list] is called with: [None], a number (not
    iterable), a string (iterable, character by character) or a list of
    phones. *)
Inductive pyvalue : Type :=
| PyNone : pyvalue
| PyInt : Z -> pyvalue
| PyStr : pystr -> pyvalue
| PyList : list sqltext -> pyvalue.

Definition is_not_None (v : pyvalue) : bool :=
  match v with
  | PyNone => false
  | _ => true
  end.

Definition isinstance_Iterable (v : pyvalue) : bool :=
  match v with
  | PyStr _ | PyList _ => true
  | PyNone | PyInt _ => false
  end.

(** The items a [for] loop draws from an iterable value. *)
Definition iter (v : pyvalue) : list sqltext :=
  match v with
  | PyStr s => map (fun c => Some [c]) s
  | PyList l => l
  | PyNone | PyInt _ => []
  end.

(** ** ClientDatabase *)

(** The class attribute [fields_to_search]. *)
Definition fields_to_search : list (pystr * pystr) :=
  [ (u "имя", u "first_name");
    (u "фамилия", u "last_name");
    (u "email", u "email");
    (u "телефон", u "phone") ].

(** [d[key]]: [None] stands for KeyError. *)
Fixpoint getitem (d : list (pystr * pystr)) (key : pystr) : option pystr :=
  match d with
  | [] => None
  | (k, v) :: r => if pystr_eqb k key then Some v else getitem r key
  end.

Definition msg_bad_phone : pystr :=
  u "Указан некорретный номер телефона. Телефон(ы) не добавлен(ы).".

Definition msg_bad_email : pystr :=
  u "Указан некорретный email. Клиент не добавлен.".

Definition msg_bad_field : pystr :=
  u "Поиск возможен по одному из следующих полей: имя, фамилия, email, телефон. Пожалуйста, укажите корректное поле для поиска.".

Definition _insert_client_phone (client_id : Z) (phone : sqltext) : M unit :=
  try_except_CheckViolation
    (execute (INSERT_INTO_client_phone client_id phone))
    (print (Text msg_bad_phone) ;; rollback).

(** The result is the new client's id, or [None] where the method returns
    without a value. *)
Definition add_client (first_name last_name email : sqltext)
    (phone_list : pyvalue) : M (option Z) :=
  inserted <-
    try_except_CheckViolation
      (new_client_id <- execute (INSERT_INTO_client first_name last_name email) ;;
       commit ;;
       ret (Some new_client_id))
      (print (Text msg_bad_email) ;;
       rollback ;;
       ret None) ;;
  match inserted with
  | None => ret None
  | Some new_client_id =>
      (if is_not_None phone_list && isinstance_Iterable phone_list then
         for_in (iter phone_list)
                (fun phone => _insert_client_phone new_client_id phone) ;;
         commit
       else ret tt) ;;
      ret (Some new_client_id)
  end.

Definition add_client_phone (client_id : Z) (phone : sqltext) : M unit :=
  _insert_client_phone client_id phone ;;
  commit.

Definition update_client (client_id : Z)
    (new_first_name new_last_name new_email : sqltext) : M unit :=
  execute (UPDATE_client client_id new_first_name new_last_name new_email) ;;
  commit.

Definition del_client_phone (phone_id : Z) : M unit :=
  execute (DELETE_FROM_client_phone_by_id phone_id) ;;
  commit.

Definition del_client (client_id : Z) : M unit :=
  execute (DELETE_FROM_client_phone client_id) ;;
  execute (DELETE_FROM_client client_id) ;;
  commit.

(** The result is the list [fetchall()] gives, or [None] where the method
    returns without a value. *)
Definition find_client (field_name : pystr) (field_value : sqltext)
  : M (option (list client_row)) :=
  match getitem fields_to_search (lower field_name) with
  | None =>
      print (Text msg_bad_field) ;;
      ret None
  | Some db_filed_name =>
      rows <- execute (SELECT_DISTINCT_client db_filed_name field_value) ;;
      ret (Some rows)
  end.

(** [pl] is the plan the backend picks for the query of this call. *)
Definition print_all_clients (pl : plan) : M unit :=
  rows <- execute (SELECT_client_GROUP_BY pl) ;;
  for_in rows (fun client => print (Tuple client)).

(** A connection to a database whose schema was just created. *)
Definition empty_db : database := {| client := []; client_phone := [] |}.

Definition connect : state :=
  {| conn := {| committed := empty_db; current := empty_db; failed := false;
                client_seq := 0; client_phone_seq := 0; log := [] |};
     stdout := [] |}.

(** ** Conditions on a call *)

(** A value fits a [varchar(n)] column. *)
Definition fits (n : nat) (v : sqltext) : bool :=
  match v with
  | None => true
  | Some s => (length s <=? n)%nat
  end.

(** Every identifier of the open transaction was handed out by its
    sequence. *)
Definition seq_ahead (c : connection) : bool :=
  forallb (fun r => client_id r <=? client_seq c)%Z (client (current c))
  && forallb (fun p => client_phone_id p <=? client_phone_seq c)%Z
             (client_phone (current c)).

(** Primary keys: no identifier occurs twice. *)
Fixpoint distinct (l : list Z) : bool :=
  match l with
  | [] => true
  | x :: r => negb (existsb (Z.eqb x) r) && distinct r
  end.

(** Foreign key: every phone references a client of the database. *)
Definition references_ok (db : database) : bool :=
  forallb (fun p => has_client (phone_client_id p) db) (client_phone db).

(** The phones of a list that the CHECK constraint rejects. *)
Definition bad_phone (p : sqltext) : bool := negb (check phone_regexp p).

Definition count_bad (l : list sqltext) : nat := length (filter bad_phone l).

(** The row an insert into [client] creates. *)
Definition new_client (id : Z) (fn ln em : sqltext) : client_row :=
  {| client_id := id; first_name := fn; last_name := ln; email := em |}.

(** The query [find_client] runs once the field name has been mapped to
    the column [ident]. *)
Definition search (ident : pystr) (field_value : sqltext)
  : M (option (list client_row)) :=
  rows <- execute (SELECT_DISTINCT_client ident field_value) ;;
  ret (Some rows).

(** The row an insert into [client_phone] creates. *)
Definition phone_row (id cid : Z) (p : sqltext) : client_phone_row :=
  {| client_phone_id := id; phone_client_id := cid; phone := p |}.

(** The phones of a list, each with the identifier its insert draws from the
    sequence, whose last value was [n]. *)
Fixpoint numbered (n : Z) (l : list sqltext) : list (Z * sqltext) :=
  match l with
  | [] => []
  | p :: r => ((n + 1)%Z, p) :: numbered (n + 1) r
  end.

(** What follows the last element of [l] that satisfies [bad]; the whole of
    [l] when there is none. *)
Fixpoint after_last {A} (bad : A -> bool) (l : list A) : list A :=
  match l with
  | [] => []
  | x :: r => if existsb bad (x :: r) then after_last bad r else x :: r
  end.

(** The phone rows a call of [add_client] leaves behind: those of the
    phones that follow the last rejected phone. *)
Definition kept_phones (cid n : Z) (l : list sqltext) : list client_phone_row :=
  map (fun x => phone_row (fst x) cid (snd x))
      (after_last (fun x => bad_phone (snd x)) (numbered n l)).

(** The rows of the phone loop, as the loop builds them: [acc] holds the
    rows inserted since the last rollback. *)
Fixpoint loop_rows (cid n : Z) (acc : list client_phone_row)
    (l : list sqltext) : list client_phone_row :=
  match l with
  | [] => acc
  | p :: r =>
      if bad_phone p then loop_rows cid (n + 1) [] r
      else loop_rows cid (n + 1) (acc ++ [phone_row (n + 1) cid p]) r
  end.

(** The client row of [db] named [r] has the value [x] in the column
    [ident]; for [phone], one of the client's phones has it. *)
Definition field_matches (ident : pystr) (db : database) (r : client_row)
    (x : pystr) : Prop :=
  (ident = u "first_name" /\ first_name r = Some x)
  \/ (ident = u "last_name" /\ last_name r = Some x)
  \/ (ident = u "email" /\ email r = Some x)
  \/ (ident = u "phone"
      /\ exists p, In p (client_phone db)
                  /\ phone_client_id p = client_id r /\ phone p = Some x).

(** One listing row per client: the client's columns and its phones
    joined by a comma and a space. *)
Definition listing (db : database) : list (client_row * sqltext) :=
  map (fun c => (c, string_agg (map phone (phones_of c db)) (u ", ")))
      (client db).

(** ** Consistency of the stored data *)

(** The CHECK and the width of every stored value. *)
Definition client_row_ok (r : client_row) : bool :=
  check email_regexp (email r)
  && fits 100 (first_name r) && fits 100 (last_name r) && fits 100 (email r).

Definition client_phone_row_ok (p : client_phone_row) : bool :=
  check phone_regexp (phone p) && fits 50 (phone p).

(** What the schema promises of a database: primary keys, the foreign key,
    and the CHECK and width of every value. *)
Definition consistent (db : database) : bool :=
  distinct (map client_id (client db))
  && distinct (map client_phone_id (client_phone db))
  && references_ok db
  && forallb client_row_ok (client db)
  && forallb client_phone_row_ok (client_phone db).

(** Every identifier of [db] is at most the last value of its sequence. *)
Definition ids_issued (cs ps : Z) (db : database) : bool :=
  forallb (fun r => client_id r <=? cs)%Z (client db)
  && forallb (fun p => client_phone_id p <=? ps)%Z (client_phone db).

(** A connection whose durable database and open transaction are both
    consistent and behind the sequences. *)
Definition sound (c : connection) : bool :=
  consistent (committed c) && consistent (current c)
  && ids_issued (client_seq c) (client_phone_seq c) (committed c)
  && ids_issued (client_seq c) (client_phone_seq c) (current c).

(** Nothing is pending: outside an aborted transaction, the open
    transaction holds no change. *)
Definition settled (c : connection) : Prop :=
  failed c = false -> current c = committed c.

(** A call of a method of [ClientDatabase]. *)
Inductive call : Type :=
| Add_client : sqltext -> sqltext -> sqltext -> pyvalue -> call
| Add_client_phone : Z -> sqltext -> call
| Update_client : Z -> sqltext -> sqltext -> sqltext -> call
| Del_client_phone : Z -> call
| Del_client : Z -> call
| Find_client : pystr -> sqltext -> call
| Print_all_clients : plan -> call.

(** Whether a method raised, and the state it left. *)
Definition raised {A} (r : outcome A * state) : option pg_error * state :=
  match r with
  | (Returned _, st) => (None, st)
  | (Raised e, st) => (Some e, st)
  end.

Definition perform (k : call) (st : state) : option pg_error * state :=
  match k with
  | Add_client fn ln em pl => raised (add_client fn ln em pl st)
  | Add_client_phone cid p => raised (add_client_phone cid p st)
  | Update_client id fn ln em => raised (update_client id fn ln em st)
  | Del_client_phone pid => raised (del_client_phone pid st)
  | Del_client cid => raised (del_client cid st)
  | Find_client f v => raised (find_client f v st)
  | Print_all_clients pl => raised (print_all_clients pl st)
  end.

(** The state a call leaves, whether it returns or raises. *)
Definition after (k : call) (st : state) : state := snd (perform k st).

(** A caller that goes on after every call, also after one that raised. *)
Definition run (ks : list call) (st : state) : state :=
  fold_left (fun s k => after k s) ks st.

(** [m], started in a state of [P], returns in a state of [Q] or raises in
    a state of [E]. *)
Definition triple {A} (P : state -> Prop) (m : M A)
    (Q : A -> state -> Prop) (E : pg_error -> state -> Prop) : Prop :=
  forall st, P st ->
    match m st with
    | (Returned a, st') => Q a st'
    | (Raised e, st') => E e st'
    end.

(** What a statement leaves of a sound connection: it is sound, the
    durable database, the flag and the log are untouched, and an error is
    one of [errs] and leaves the open transaction as it was. *)
Definition keeps {A} (q : statement A)
    (errs : connection -> pg_error -> Prop) : Prop :=
  forall c, sound c = true ->
    sound (snd (q c)) = true
    /\ committed (snd (q c)) = committed c
    /\ failed (snd (q c)) = failed c
    /\ log (snd (q c)) = log c
    /\ match fst (q c) with
       | Ok _ => True
       | Err e => errs c e /\ current (snd (q c)) = current c
       end.

(** Inside a transaction that has not failed. *)
Definition usable (st : state) : Prop :=
  sound (conn st) = true /\ failed (conn st) = false.

(** After a call that returned: nothing is pending. *)
Definition at_rest (st : state) : Prop :=
  sound (conn st) = true /\ failed (conn st) = false
  /\ current (conn st) = committed (conn st).

(** After a call that raised one of [errs]: the transaction is aborted. *)
Definition aborted (errs : pg_error -> Prop) (e : pg_error) (st : state)
  : Prop :=
  sound (conn st) = true /\ failed (conn st) = true /\ errs e.

(** The errors a call can raise on a connection that is not aborted. *)
Definition may_raise (k : call) (e : pg_error) : Prop :=
  match k with
  | Add_client _ _ _ _ => e = StringDataRightTruncation
  | Add_client_phone _ _ =>
      e = StringDataRightTruncation \/ e = ForeignKeyViolation
      \/ e = NumericValueOutOfRange
  | Update_client _ _ _ _ =>
      e = StringDataRightTruncation \/ e = CheckViolation
  | Del_client_phone _ | Del_client _ | Find_client _ _
  | Print_all_clients _ => False
  end.

(** A call that executes a statement: every call but a search on a field
    name that [fields_to_search] does not have. *)
Definition executes (k : call) : bool :=
  match k with
  | Find_client f _ =>
      match getitem fields_to_search (lower f) with
      | Some _ => true
      | None => false
      end
  | _ => true
  end.

(** The methods that commit once, at their end: all but [add_client]. *)
Definition commits_once (k : call) : bool :=
  match k with
  | Add_client _ _ _ _ => false
  | _ => true
  end.

(** A statement leaves the durable database alone and does not rewind the
    client sequence. *)
Definition modest {A} (q : statement A) : Prop :=
  forall c,
    committed (snd (q c)) = committed c
    /\ (client_seq c <= client_seq (snd (q c)))%Z.

(** ** What a regular expression means *)

(** The strings a regular expression denotes. *)
Inductive lang : regex -> pystr -> Prop :=
| lang_Eps : lang Eps []
| lang_Class (p : N -> bool) (c : N) : p c = true -> lang (Class p) [c]
| lang_Cat (a b : regex) (s t : pystr) :
    lang a s -> lang b t -> lang (Cat a b) (s ++ t)
| lang_Alt_l (a b : regex) (s : pystr) : lang a s -> lang (Alt a b) s
| lang_Alt_r (a b : regex) (s : pystr) : lang b s -> lang (Alt a b) s
| lang_Star_nil (a : regex) : lang (Star a) []
| lang_Star_cons (a : regex) (s t : pystr) :
    lang a s -> lang (Star a) t -> lang (Star a) (s ++ t).

(** The characters a phone can be made of: the plus sign, the parentheses
    and what may follow the digits. *)
Definition phone_char_in (lc : ctype) (c : N) : bool :=
  (c =? 43)%N || (c =? 40)%N || (c =? 41)%N || phone_tail_in lc c.


(** A locale of a UTF-8 database, as far as the examples need it: the
    Cyrillic letters U+0400..U+04FF are letters, and the spaces
    U+2000..U+200A are white space. *)
Definition cyrillic_locale : ctype :=
  {| wide_alnum := fun c => ((1024 <=? c) && (c <=? 1279))%N;
     wide_digit := fun _ => false;
     wide_space := fun c => ((8192 <=? c) && (c <=? 8202))%N |}.

(** Text the driver can send to the backend: code points of Unicode that
    UTF-8 encodes, but NUL.  On a string with a NUL character psycopg2
    raises [ValueError], and on a surrogate Python's encoder raises
    [UnicodeEncodeError], both before anything is sent. *)
Definition sendable_cp (c : N) : bool :=
  (negb (c =? 0) && (c <=? 1114111)
   && negb ((55296 <=? c) && (c <=? 57343)))%N.

Definition sendable (v : sqltext) : bool :=
  match v with
  | None => true
  | Some s => forallb sendable_cp s
  end.

(** A call all of whose text can be sent. *)
Definition sendable_call (k : call) : bool :=
  match k with
  | Add_client fn ln em pl =>
      sendable fn && sendable ln && sendable em && forallb sendable (iter pl)
  | Add_client_phone _ p => sendable p
  | Update_client _ fn ln em => sendable fn && sendable ln && sendable em
  | Find_client _ v => sendable v
  | Del_client_phone _ | Del_client _ | Print_all_clients _ => true
  end.

(** ** Basic facts *)

Lemma varchar_fits (n : nat) (v : sqltext) :
  fits n v = true -> varchar n v = Ok v.
Proof.
  destruct v as [s|]; simpl; [|reflexivity].
  intros H. now rewrite H.
Qed.

Lemma pystr_eqb_eq (a b : pystr) : pystr_eqb a b = true <-> a = b.
Proof.
  unfold pystr_eqb. destruct (pystr_eq_dec a b); split; congruence.
Qed.

Lemma client_row_eqb_eq (a b : client_row) : client_row_eqb a b = true <-> a = b.
Proof.
  unfold client_row_eqb. destruct (client_row_eq_dec a b); split; congruence.
Qed.

Lemma distinct_NoDup (l : list Z) : distinct l = true <-> NoDup l.
Proof.
  induction l as [|x r IH]; simpl.
  - split; [constructor | reflexivity].
  - rewrite andb_true_iff, negb_true_iff, IH. split.
    + intros [Hx Hr]. constructor; [|exact Hr].
      intros Hin. assert (existsb (Z.eqb x) r = true) as E.
      { apply existsb_exists. exists x. split; [exact Hin | apply Z.eqb_refl]. }
      congruence.
    + intros H. inversion H as [|? ? Hn Hr]; subst. split; [|exact Hr].
      destruct (existsb (Z.eqb x) r) eqn:E; [|reflexivity].
      apply existsb_exists in E. destruct E as [y [Hy Hxy]].
      apply Z.eqb_eq in Hxy. subst y. contradiction.
Qed.

Lemma fresh_client (c : connection) :
  seq_ahead c = true -> has_client (client_seq c + 1) (current c) = false.
Proof.
  unfold seq_ahead. rewrite andb_true_iff. intros [H _].
  destruct (has_client (client_seq c + 1) (current c)) eqn:E; [|reflexivity].
  unfold has_client in E. apply existsb_exists in E. destruct E as [r [Hr E]].
  rewrite forallb_forall in H. specialize (H r Hr). lia.
Qed.

Lemma fresh_phone (n : Z) (l : list client_phone_row) :
  forallb (fun p => client_phone_id p <=? n)%Z l = true ->
  existsb (fun r => client_phone_id r =? n + 1)%Z l = false.
Proof.
  intros H.
  destruct (existsb (fun r => client_phone_id r =? n + 1)%Z l) eqn:E;
    [|reflexivity].
  apply existsb_exists in E. destruct E as [r [Hr E]].
  rewrite forallb_forall in H. specialize (H r Hr). lia.
Qed.

Lemma getitem_fields (key col : pystr) :
  getitem fields_to_search key = Some col ->
  (key = u "имя" /\ col = u "first_name")
  \/ (key = u "фамилия" /\ col = u "last_name")
  \/ (key = u "email" /\ col = u "email")
  \/ (key = u "телефон" /\ col = u "phone").
Proof.
  unfold fields_to_search, getitem.
  destruct (pystr_eqb (u "имя") key) eqn:E1.
  { apply pystr_eqb_eq in E1. intros H. left. split; congruence. }
  destruct (pystr_eqb (u "фамилия") key) eqn:E2.
  { apply pystr_eqb_eq in E2. intros H. right; left. split; congruence. }
  destruct (pystr_eqb (u "email") key) eqn:E3.
  { apply pystr_eqb_eq in E3. intros H. right; right; left. split; congruence. }
  destruct (pystr_eqb (u "телефон") key) eqn:E4.
  { apply pystr_eqb_eq in E4. intros H. right; right; right. split; congruence. }
  discriminate.
Qed.

Lemma getitem_missing (key : pystr) :
  ~ In key (map fst fields_to_search) -> getitem fields_to_search key = None.
Proof.
  intros H. destruct (getitem fields_to_search key) as [col|] eqn:E;
    [|reflexivity].
  exfalso. apply H.
  destruct (getitem_fields _ _ E) as [[K _]|[[K _]|[[K _]|[K _]]]];
    subst key; simpl; auto.
Qed.

(** ** find_client: the field names *)

(** C4. A field name whose lower-case form is not a key of
    [fields_to_search] is rejected: the method reports it (the message is
    printed), returns no rows ([None]) and does nothing else; nothing is
    raised and the connection is not touched. *)
Theorem find_client_unknown_field (field_name : pystr) (field_value : sqltext)
    (st : state) :
  ~ In (lower field_name) (map fst fields_to_search) ->
  find_client field_name field_value st
  = (Returned None,
     {| conn := conn st; stdout := stdout st ++ [Text msg_bad_field] |}).
Proof.
  intros H. unfold find_client.
  rewrite (getitem_missing _ H). reflexivity.
Qed.

Lemma find_client_unknown_field_witness :
  find_client (u "unknown_field") (Some (u "x")) connect
  = (Returned None,
     {| conn := conn connect;
        stdout := stdout connect ++ [Text msg_bad_field] |}).
Proof.
  apply (find_client_unknown_field (u "unknown_field") (Some (u "x")) connect).
  vm_compute. intuition discriminate.
Defined.

(** C2, as stated, fails: the keys of [fields_to_search] are the Russian
    words, so name is not a field name [find_client] accepts, while the
    Russian word for it is, in any letter case. *)
Lemma find_client_name_not_accepted :
  let st := snd (add_client (Some (u "A")) (Some (u "B")) None PyNone connect) in
  fst (find_client (u "name") (Some (u "A")) st) = Returned None
  /\ fst (find_client (u "surname") (Some (u "B")) st) = Returned None
  /\ fst (find_client (u "phone") (Some (u "1")) st) = Returned None
  /\ fst (find_client (u "Имя") (Some (u "A")) st)
     = Returned (Some [ {| client_id := 1; first_name := Some (u "A");
                           last_name := Some (u "B"); email := None |} ]).
Proof. vm_compute. repeat split. Qed.

(** C2, amended. [find_client] accepts exactly the field names whose
    lower-case form is one of the four keys of [fields_to_search], the
    Russian words for name, surname and phone and the word email, and
    searches the column first_name, last_name, email and phone
    respectively; any other field name is rejected. *)
Theorem find_client_field_names (field_name : pystr) (field_value : sqltext)
    (st : state) :
  (lower field_name = u "имя"
   /\ find_client field_name field_value st
      = search (u "first_name") field_value st)
  \/ (lower field_name = u "фамилия"
      /\ find_client field_name field_value st
         = search (u "last_name") field_value st)
  \/ (lower field_name = u "email"
      /\ find_client field_name field_value st
         = search (u "email") field_value st)
  \/ (lower field_name = u "телефон"
      /\ find_client field_name field_value st
         = search (u "phone") field_value st)
  \/ (~ In (lower field_name) [u "имя"; u "фамилия"; u "email"; u "телефон"]
      /\ find_client field_name field_value st
         = (Returned None,
            {| conn := conn st; stdout := stdout st ++ [Text msg_bad_field] |})).
Proof.
  unfold find_client, search.
  destruct (getitem fields_to_search (lower field_name)) as [col|] eqn:E.
  - destruct (getitem_fields _ _ E) as [[K C]|[[K C]|[[K C]|[K C]]]];
      subst col; rewrite K; auto 6.
  - do 4 right. split; [|reflexivity].
    intros [K|[K|[K|[K|[]]]]]; rewrite <- K in E; vm_compute in E;
      discriminate.
Qed.

(** ** add_client: a rejected email *)

(** C3, as stated, fails when a value is too long for its column.  The
    width is looked at before the CHECK, its error is not the CHECK
    violation, and [add_client] handles the CHECK violation only: the call
    raises, nothing is printed and the transaction is left aborted.  So it
    is with an email of 101 exclamation marks, and with an email that does
    not match the pattern next to a first name of 101 letters. *)
Lemma add_client_bad_email_too_long :
  let r := add_client (Some (u "A")) (Some (u "B")) (Some (repeat 33%N 101))
             PyNone connect in
  let r' := add_client (Some (repeat 65%N 101)) (Some (u "B"))
              (Some (u "not-an-email")) PyNone connect in
  matches email_regexp (repeat 33%N 101) = false
  /\ fst r = Raised StringDataRightTruncation
  /\ stdout (snd r) = []
  /\ failed (conn (snd r)) = true
  /\ matches email_regexp (u "not-an-email") = false
  /\ fst r' = Raised StringDataRightTruncation
  /\ stdout (snd r') = []
  /\ failed (conn (snd r')) = true.
Proof. vm_compute. repeat split. Qed.

(** C3, amended.  When the email does not match the pattern of the CHECK
    constraint, and the first name, the last name and the email fit their
    columns of 100 characters, [add_client] (on a connection whose
    transaction has not failed) returns normally and without an identifier
    ([None]), having printed the message and rolled the transaction back:
    the committed client table is what it was. *)
Theorem add_client_bad_email (st : state) (first_name last_name : sqltext)
    (email : pystr) (phone_list : pyvalue) :
  failed (conn st) = false ->
  fits 100 first_name = true ->
  fits 100 last_name = true ->
  fits 100 (Some email) = true ->
  matches email_regexp email = false ->
  exists st',
    add_client first_name last_name (Some email) phone_list st
    = (Returned None, st')
    /\ committed (conn st') = committed (conn st)
    /\ current (conn st') = committed (conn st)
    /\ failed (conn st') = false
    /\ log (conn st') = log (conn st) ++ [Rollback]
    /\ stdout st' = stdout st ++ [Text msg_bad_email].
Proof.
  intros Hf Hfn Hln Hem Hbad.
  unfold add_client, bind, try_except_CheckViolation, execute,
    INSERT_INTO_client.
  rewrite Hf, (varchar_fits _ _ Hfn), (varchar_fits _ _ Hln),
    (varchar_fits _ _ Hem).
  unfold check. rewrite Hbad. simpl.
  eexists. repeat split.
Qed.

Lemma add_client_bad_email_witness :
  exists st',
    add_client (Some (u "A")) (Some (u "B")) (Some (u "not-an-email"))
      (PyList [Some (u "555-1234")]) connect
    = (Returned None, st')
    /\ committed (conn st') = committed (conn connect)
    /\ current (conn st') = committed (conn connect)
    /\ failed (conn st') = false
    /\ log (conn st') = log (conn connect) ++ [Rollback]
    /\ stdout st' = stdout connect ++ [Text msg_bad_email].
Proof.
  apply (add_client_bad_email connect (Some (u "A")) (Some (u "B"))
           (u "not-an-email") (PyList [Some (u "555-1234")]));
    reflexivity.
Defined.

(** The sequence is not rewound by the rollback: the identifier the
    rejected insert drew is not handed out again. *)
Example add_client_after_bad_email :
  fst (add_client (Some (u "A")) (Some (u "B")) None PyNone
         (snd (add_client (Some (u "A")) (Some (u "B"))
                 (Some (u "not-an-email")) PyNone connect)))
  = Returned (Some 2%Z).
Proof. vm_compute. reflexivity. Qed.

(** A value too long for its column is another error, which no method
    handles: the call raises and leaves the transaction aborted. *)
Example add_client_too_long :
  let r := add_client (Some (repeat 65%N 101)) (Some (u "B")) None PyNone
             connect in
  fst r = Raised StringDataRightTruncation
  /\ failed (conn (snd r)) = true
  /\ fst (find_client (u "email") (Some (u "a@b.cc")) (snd r))
     = Raised InFailedSqlTransaction.
Proof. vm_compute. repeat split. Qed.

(** ** add_client: the phone loop *)

Lemma insert_phone_accepted (cid : Z) (p : sqltext) (c : connection)
    (out : list printed) :
  failed c = false ->
  fits 50 p = true ->
  bad_phone p = false ->
  has_client_phone (client_phone_seq c + 1) (current c) = false ->
  has_client cid (current c) = true ->
  _insert_client_phone cid p {| conn := c; stdout := out |}
  = (Returned tt,
     {| conn :=
          set_current
            {| client := client (current c);
               client_phone :=
                 client_phone (current c)
                 ++ [phone_row (client_phone_seq c + 1) cid p] |}
            (nextval_client_phone c);
        stdout := out |}).
Proof.
  intros Hf Hp Hok Hfresh Hfk.
  unfold _insert_client_phone, try_except_CheckViolation, execute,
    INSERT_INTO_client_phone.
  cbn [conn stdout]. rewrite Hf, (varchar_fits _ _ Hp).
  unfold bad_phone in Hok. rewrite Hok, Hfresh, Hfk, orb_true_r. reflexivity.
Qed.

Lemma insert_phone_rejected (cid : Z) (p : sqltext) (c : connection)
    (out : list printed) :
  failed c = false ->
  int4 cid || has_client cid (current c) = true ->
  fits 50 p = true ->
  bad_phone p = true ->
  _insert_client_phone cid p {| conn := c; stdout := out |}
  = (Returned tt,
     {| conn := conn_rollback (set_failed (nextval_client_phone c));
        stdout := out ++ [Text msg_bad_phone] |}).
Proof.
  intros Hf Hid Hp Hbad.
  unfold _insert_client_phone, try_except_CheckViolation, execute,
    INSERT_INTO_client_phone.
  cbn [conn stdout]. rewrite Hf, Hid, (varchar_fits _ _ Hp).
  unfold bad_phone in Hbad. rewrite Hbad. reflexivity.
Qed.

Lemma phone_loop (cid : Z) (cl : list client_row) (ph0 : list client_phone_row)
    (l : list sqltext) :
  forall (acc : list client_phone_row) (n cs : Z) (lg : list conn_event)
         (out : list printed),
  existsb (fun r => client_id r =? cid)%Z cl = true ->
  forallb (fun p => client_phone_id p <=? n)%Z (ph0 ++ acc) = true ->
  forallb (fits 50) l = true ->
  for_in l (_insert_client_phone cid)
    {| conn := {| committed := {| client := cl; client_phone := ph0 |};
                  current := {| client := cl; client_phone := ph0 ++ acc |};
                  failed := false; client_seq := cs; client_phone_seq := n;
                  log := lg |};
       stdout := out |}
  = (Returned tt,
     {| conn := {| committed := {| client := cl; client_phone := ph0 |};
                   current := {| client := cl;
                                 client_phone := ph0 ++ loop_rows cid n acc l |};
                   failed := false; client_seq := cs;
                   client_phone_seq := n + Z.of_nat (length l);
                   log := lg ++ repeat Rollback (count_bad l) |};
        stdout := out ++ repeat (Text msg_bad_phone) (count_bad l) |}).
Proof.
  induction l as [|p r IH]; intros acc n cs lg out Hcl Hids Hfit.
  - cbn. now rewrite Z.add_0_r, !app_nil_r.
  - cbn [forallb] in Hfit. apply andb_true_iff in Hfit.
    destruct Hfit as [Hp Hr].
    cbn [for_in]. unfold bind at 1. unfold count_bad. cbn [filter loop_rows].
    destruct (bad_phone p) eqn:Hbad.
    + rewrite insert_phone_rejected
        by (try reflexivity; try assumption;
            cbn [current client]; unfold has_client; cbn [client];
            rewrite Hcl; apply orb_true_r).
      unfold conn_rollback, set_failed, nextval_client_phone.
      cbn [committed current failed client_seq client_phone_seq log].
      rewrite <- (app_nil_r ph0) at 2.
      rewrite IH; [|assumption| |assumption].
      * cbn [length repeat]. rewrite Nat2Z.inj_succ.
        rewrite <- !app_assoc. cbn [app].
        replace (n + 1 + Z.of_nat (length r))%Z
          with (n + Z.succ (Z.of_nat (length r)))%Z by lia.
        reflexivity.
      * rewrite app_nil_r. rewrite forallb_app in Hids.
        apply andb_true_iff in Hids. destruct Hids as [H0 _].
        rewrite forallb_forall in *. intros x Hx. specialize (H0 x Hx). lia.
    + rewrite insert_phone_accepted; try reflexivity; try assumption.
      * unfold set_current, nextval_client_phone.
        cbn [committed current failed client_seq client_phone_seq log
             client client_phone].
        rewrite <- app_assoc. rewrite IH; [|assumption| |assumption].
        -- cbn [length]. rewrite Nat2Z.inj_succ.
           replace (n + 1 + Z.of_nat (length r))%Z
             with (n + Z.succ (Z.of_nat (length r)))%Z by lia.
           reflexivity.
        -- rewrite app_assoc, forallb_app. apply andb_true_iff. split.
           ++ rewrite forallb_forall in *. intros x Hx.
              specialize (Hids x Hx). lia.
           ++ cbn. rewrite andb_true_r. lia.
      * unfold has_client_phone. cbn [current client_phone client_phone_seq].
        now apply fresh_phone.
Qed.

Lemma existsb_numbered (n : Z) (l : list sqltext) :
  existsb (fun x => bad_phone (snd x)) (numbered n l) = existsb bad_phone l.
Proof.
  revert n. induction l as [|p r IH]; intros n; cbn; [reflexivity|].
  now rewrite IH.
Qed.

Lemma loop_rows_spec (cid : Z) (l : list sqltext) :
  forall (n : Z) (acc : list client_phone_row),
  loop_rows cid n acc l
  = if existsb bad_phone l then kept_phones cid n l
    else acc ++ map (fun x => phone_row (fst x) cid (snd x)) (numbered n l).
Proof.
  induction l as [|p r IH]; intros n acc.
  - cbn. now rewrite app_nil_r.
  - cbn [loop_rows existsb numbered]. unfold kept_phones.
    cbn [numbered after_last existsb snd].
    rewrite existsb_numbered.
    destruct (bad_phone p) eqn:Hbad; cbn [orb]; rewrite IH.
    + unfold kept_phones.
      destruct (existsb bad_phone r) eqn:Hr; [reflexivity|].
      assert (forall m (k : list sqltext), existsb bad_phone k = false ->
                after_last (fun x => bad_phone (snd x)) (numbered m k)
                = numbered m k) as Hall.
      { intros m k Hk. destruct k as [|q k']; [reflexivity|].
        cbn [numbered after_last]. rewrite <- (existsb_numbered m) in Hk.
        cbn [numbered] in Hk. now rewrite Hk. }
      now rewrite Hall.
    + unfold kept_phones.
      destruct (existsb bad_phone r) eqn:Hr; [reflexivity|].
      cbn [map fst snd]. now rewrite <- app_assoc.
Qed.

Lemma loop_rows_kept (cid n : Z) (l : list sqltext) :
  loop_rows cid n [] l = kept_phones cid n l.
Proof.
  rewrite loop_rows_spec.
  destruct (existsb bad_phone l) eqn:E; [reflexivity|].
  unfold kept_phones. cbn [app]. f_equal.
  destruct l as [|q k]; [reflexivity|].
  cbn [numbered after_last]. rewrite <- (existsb_numbered n) in E.
  cbn [numbered] in E. now rewrite E.
Qed.

Lemma after_last_spec {A} (bad : A -> bool) (l : list A) :
  exists pre,
    l = pre ++ after_last bad l
    /\ forallb (fun x => negb (bad x)) (after_last bad l) = true
    /\ (pre = [] \/ exists pre' x, pre = pre' ++ [x] /\ bad x = true).
Proof.
  induction l as [|a r IH].
  - exists []. cbn. auto.
  - cbn [after_last existsb].
    destruct (bad a) eqn:Ha; cbn [orb].
    + destruct IH as [pre [E [Hok Hpre]]]. exists (a :: pre).
      split; [cbn; now rewrite <- E|]. split; [exact Hok|]. right.
      destruct Hpre as [->|[pre' [x [-> Hx]]]].
      * exists [], a. auto.
      * exists (a :: pre'), x. auto.
    + destruct (existsb bad r) eqn:Hr.
      * destruct IH as [pre [E [Hok Hpre]]]. exists (a :: pre).
        split; [cbn; now rewrite <- E|]. split; [exact Hok|]. right.
        destruct Hpre as [->|[pre' [x [-> Hx]]]].
        -- cbn in E. destruct r as [|b r']; [discriminate|].
           cbn [after_last] in E. rewrite Hr in E.
           exfalso. clear - E. assert (length (b :: r') = length (after_last bad r')) as L by now rewrite E at 1.
           assert (forall k : list A, (length (after_last bad k) <= length k)%nat) as Hle.
           { induction k as [|y k IHk]; [cbn; lia|].
             cbn [after_last]. destruct (existsb bad (y :: k)); cbn [length] in *; lia. }
           specialize (Hle r'). cbn [length] in L. lia.
        -- exists (a :: pre'), x. auto.
      * exists []. split; [reflexivity|]. split; [|now left].
        cbn [forallb]. rewrite Ha. cbn.
        clear - Hr. induction r as [|b r IH]; [reflexivity|].
        cbn in *. apply orb_false_iff in Hr. destruct Hr as [Hb Hr].
        rewrite Hb. cbn. auto.
Qed.

(** ** add_client: a client the backend accepts *)

Section AcceptedClient.

Variable st : state.
Variables first_name last_name email : sqltext.

(** The connection is not inside an aborted transaction, the values fit
    their columns, the email passes its CHECK, and the sequences are ahead
    of the stored identifiers. *)
Hypothesis Husable : failed (conn st) = false.
Hypothesis Hfirst_name : fits 100 first_name = true.
Hypothesis Hlast_name : fits 100 last_name = true.
Hypothesis Hemail : fits 100 email = true.
Hypothesis Hcheck : check email_regexp email = true.
Hypothesis Hseq : seq_ahead (conn st) = true.

Let c := conn st.
Let new_client_id := (client_seq c + 1)%Z.

(** The database the first commit of [add_client] makes durable. *)
Let db1 :=
  {| client := client (current c)
               ++ [new_client new_client_id first_name last_name email];
     client_phone := client_phone (current c) |}.

Lemma add_client_accepted (phone_list : pyvalue) :
  forallb (fits 50) (iter phone_list) = true ->
  let db2 :=
    {| client := client db1;
       client_phone :=
         client_phone (current c)
         ++ loop_rows new_client_id (client_phone_seq c) []
              (iter phone_list) |} in
  add_client first_name last_name email phone_list st
  = (Returned (Some new_client_id),
     if is_not_None phone_list && isinstance_Iterable phone_list then
       {| conn :=
            {| committed := db2; current := db2; failed := false;
               client_seq := new_client_id;
               client_phone_seq :=
                 client_phone_seq c + Z.of_nat (length (iter phone_list));
               log := log c ++ [Commit db1]
                      ++ repeat Rollback (count_bad (iter phone_list))
                      ++ [Commit db2] |};
          stdout :=
            stdout st
            ++ repeat (Text msg_bad_phone) (count_bad (iter phone_list)) |}
     else
       {| conn :=
            {| committed := db1; current := db1; failed := false;
               client_seq := new_client_id;
               client_phone_seq := client_phone_seq c;
               log := log c ++ [Commit db1] |};
          stdout := stdout st |}).
Proof.
  intros Hfit db2.
  assert (Hfresh := fresh_client _ Hseq).
  assert (Hph := Hseq). unfold seq_ahead in Hph.
  apply andb_true_iff in Hph. destruct Hph as [_ Hph].
  subst db2 db1 new_client_id c. clear Hseq.
  destruct st as [[cm [cl ph] f cs ps lg] out].
  cbn [conn current failed client_seq client_phone_seq log client
       client_phone stdout] in *.
  subst f.
  unfold add_client. unfold bind at 1.
  unfold try_except_CheckViolation, bind, execute, INSERT_INTO_client.
  cbn [conn failed stdout].
  rewrite (varchar_fits _ _ Hfirst_name), (varchar_fits _ _ Hlast_name),
    (varchar_fits _ _ Hemail), Hcheck.
  cbn [negb client_seq current]. rewrite Hfresh.
  unfold commit, ret, set_current, nextval_client, conn_commit.
  cbn [conn stdout committed current failed client_seq client_phone_seq log
       client client_phone].
  destruct (is_not_None phone_list && isinstance_Iterable phone_list);
    [|reflexivity].
  rewrite <- (app_nil_r ph) at 2.
  rewrite phone_loop.
  - cbv beta iota.
    cbn [conn stdout committed current failed client_seq client_phone_seq
         log client client_phone].
    unfold new_client. rewrite <- !app_assoc. cbn [app]. reflexivity.
  - unfold new_client. rewrite existsb_app. cbn. rewrite Z.eqb_refl.
    now rewrite orb_true_r.
  - rewrite app_nil_r. rewrite forallb_forall in *. intros x Hx.
    specialize (Hph x Hx). lia.
  - exact Hfit.
Qed.

(** C1, amended.  In an [add_client] call with a phone list, a phone that
    the format constraint rejects is not inserted, and the rollback it
    triggers also undoes every phone insert made before it in the call;
    the client row, committed before the loop, persists, and the call
    goes on with the remaining phones.  What the call stores is the client
    row and the rows of the phones that follow the last rejected phone;
    one message is printed per rejected phone. *)
Theorem add_client_phone_list (phone_list : pyvalue) :
  isinstance_Iterable phone_list = true ->
  forallb (fits 50) (iter phone_list) = true ->
  exists st',
    add_client first_name last_name email phone_list st
    = (Returned (Some new_client_id), st')
    /\ client (committed (conn st'))
       = client (current c)
         ++ [new_client new_client_id first_name last_name email]
    /\ client_phone (committed (conn st'))
       = client_phone (current c)
         ++ kept_phones new_client_id (client_phone_seq c) (iter phone_list)
    /\ stdout st'
       = stdout st
         ++ repeat (Text msg_bad_phone) (count_bad (iter phone_list))
    /\ failed (conn st') = false.
Proof.
  intros Hit Hfit. rewrite (add_client_accepted _ Hfit).
  assert (is_not_None phone_list && isinstance_Iterable phone_list = true)
    as -> by (destruct phone_list; try discriminate; reflexivity).
  eexists. split; [reflexivity|].
  cbn [conn committed client client_phone stdout failed].
  rewrite loop_rows_kept. repeat split.
Qed.

(** C5, amended.  [add_client] commits twice when it has phones to
    process: the client row is made durable by a commit of its own, before
    the phone loop runs and with the phone table as it was; the phone
    inserts that outlive the rollbacks of the loop are made durable
    together, by the commit at the end of phone processing. *)
Theorem add_client_commits (phone_list : pyvalue) :
  isinstance_Iterable phone_list = true ->
  forallb (fits 50) (iter phone_list) = true ->
  exists st' db2,
    add_client first_name last_name email phone_list st
    = (Returned (Some new_client_id), st')
    /\ log (conn st')
       = log c ++ [Commit db1]
         ++ repeat Rollback (count_bad (iter phone_list))
         ++ [Commit db2]
    /\ client db2 = client db1
    /\ client_phone db2
       = client_phone (current c)
         ++ kept_phones new_client_id (client_phone_seq c) (iter phone_list)
    /\ committed (conn st') = db2.
Proof.
  intros Hit Hfit. rewrite (add_client_accepted _ Hfit).
  assert (is_not_None phone_list && isinstance_Iterable phone_list = true)
    as -> by (destruct phone_list; try discriminate; reflexivity).
  eexists. eexists. split; [reflexivity|].
  cbn [conn committed client client_phone log].
  rewrite loop_rows_kept. repeat split.
Qed.

End AcceptedClient.

(** C1, as stated, fails: the rollback of a rejected phone is the
    connection's rollback, and it takes the valid phone inserted before it
    along.  After the call nothing is stored for the client but its row, and
    its listing has no phones. *)
Lemma add_client_bad_phone_discards_earlier :
  let st' :=
    snd (add_client (Some (u "A")) (Some (u "B")) None
           (PyList [Some (u "555-1234"); Some (u "bad phone!!")]) connect) in
  bad_phone (Some (u "555-1234")) = false
  /\ bad_phone (Some (u "bad phone!!")) = true
  /\ client (committed (conn st'))
     = [new_client 1 (Some (u "A")) (Some (u "B")) None]
  /\ client_phone (committed (conn st')) = []
  /\ stdout (snd (print_all_clients table_order st'))
     = [Text msg_bad_phone;
        Tuple (new_client 1 (Some (u "A")) (Some (u "B")) None, None)].
Proof. vm_compute. repeat split. Qed.

Lemma add_client_phone_list_witness :
  exists st',
    add_client (Some (u "A")) (Some (u "B")) None
      (PyList [Some (u "555-1234"); Some (u "bad phone!!"); Some (u "12")])
      connect
    = (Returned (Some 1%Z), st')
    /\ client (committed (conn st'))
       = [new_client 1 (Some (u "A")) (Some (u "B")) None]
    /\ client_phone (committed (conn st')) = [phone_row 3 1 (Some (u "12"))]
    /\ stdout st' = [Text msg_bad_phone]
    /\ failed (conn st') = false.
Proof.
  exact (add_client_phone_list connect (Some (u "A")) (Some (u "B")) None
           eq_refl eq_refl eq_refl eq_refl eq_refl eq_refl
           (PyList [Some (u "555-1234"); Some (u "bad phone!!"); Some (u "12")])
           eq_refl eq_refl).
Defined.

(** C5, as stated, fails: the call commits twice, and what the first commit
    makes durable is the client row without the phone. *)
Lemma add_client_commits_client_first :
  log (conn (snd (add_client (Some (u "A")) (Some (u "B")) None
                    (PyList [Some (u "555-1234")]) connect)))
  = [Commit {| client := [new_client 1 (Some (u "A")) (Some (u "B")) None];
               client_phone := [] |};
     Commit {| client := [new_client 1 (Some (u "A")) (Some (u "B")) None];
               client_phone := [phone_row 1 1 (Some (u "555-1234"))] |}].
Proof. vm_compute. reflexivity. Qed.

Lemma add_client_commits_witness :
  exists st' db2,
    add_client (Some (u "A")) (Some (u "B")) None
      (PyList [Some (u "555-1234"); Some (u "bad phone!!"); Some (u "12")])
      connect
    = (Returned (Some 1%Z), st')
    /\ log (conn st')
       = [Commit {| client := [new_client 1 (Some (u "A")) (Some (u "B")) None];
                    client_phone := [] |};
          Rollback;
          Commit db2]
    /\ client db2 = [new_client 1 (Some (u "A")) (Some (u "B")) None]
    /\ client_phone db2 = [phone_row 3 1 (Some (u "12"))]
    /\ committed (conn st') = db2.
Proof.
  exact (add_client_commits connect (Some (u "A")) (Some (u "B")) None
           eq_refl eq_refl eq_refl eq_refl eq_refl eq_refl
           (PyList [Some (u "555-1234"); Some (u "bad phone!!"); Some (u "12")])
           eq_refl eq_refl).
Defined.

(** C10.  When [phone_list] is neither [None] nor iterable, the phone
    step is skipped without a word: the call does exactly what the call
    without a phone list does.  Where the backend accepts the client, its row
    is created and its identifier returned, the phone table and its sequence
    are untouched, and nothing is printed or raised. *)
Theorem add_client_not_iterable (st : state)
    (first_name last_name email : sqltext) (phone_list : pyvalue) :
  is_not_None phone_list = true ->
  isinstance_Iterable phone_list = false ->
  add_client first_name last_name email phone_list st
  = add_client first_name last_name email PyNone st
  /\ (failed (conn st) = false ->
      fits 100 first_name = true ->
      fits 100 last_name = true ->
      fits 100 email = true ->
      check email_regexp email = true ->
      seq_ahead (conn st) = true ->
      exists st',
        add_client first_name last_name email phone_list st
        = (Returned (Some (client_seq (conn st) + 1)%Z), st')
        /\ client (committed (conn st'))
           = client (current (conn st))
             ++ [new_client (client_seq (conn st) + 1) first_name last_name
                            email]
        /\ client_phone (committed (conn st'))
           = client_phone (current (conn st))
        /\ client_phone_seq (conn st') = client_phone_seq (conn st)
        /\ stdout st' = stdout st
        /\ failed (conn st') = false).
Proof.
  intros Hnn Hit. split.
  - unfold add_client. now rewrite Hit, andb_false_r.
  - intros Hf Hfn Hln Hem Hok Hseq.
    assert (forallb (fits 50) (iter phone_list) = true) as Hfit
      by (destruct phone_list; try discriminate; reflexivity).
    rewrite (add_client_accepted st _ _ _ Hf Hfn Hln Hem Hok Hseq _ Hfit).
    rewrite Hit, andb_false_r.
    eexists. repeat split.
Qed.

Lemma add_client_not_iterable_witness :
  add_client (Some (u "A")) (Some (u "B")) None (PyInt 5) connect
  = add_client (Some (u "A")) (Some (u "B")) None PyNone connect
  /\ exists st',
       add_client (Some (u "A")) (Some (u "B")) None (PyInt 5) connect
       = (Returned (Some 1%Z), st')
       /\ client (committed (conn st'))
          = [new_client 1 (Some (u "A")) (Some (u "B")) None]
       /\ client_phone (committed (conn st')) = []
       /\ client_phone_seq (conn st') = 0%Z
       /\ stdout st' = []
       /\ failed (conn st') = false.
Proof.
  destruct (add_client_not_iterable connect (Some (u "A")) (Some (u "B")) None
              (PyInt 5) eq_refl eq_refl) as [Hsame Hrow].
  split; [exact Hsame|].
  exact (Hrow eq_refl eq_refl eq_refl eq_refl eq_refl eq_refl).
Defined.

(** ** del_client *)

Lemma no_phone_left (cid : Z) (l : list client_phone_row) :
  existsb (fun p => phone_client_id p =? cid)%Z
    (filter (fun p => negb (phone_client_id p =? cid)%Z) l) = false.
Proof.
  induction l as [|p r IH]; [reflexivity|].
  cbn [filter]. destruct (phone_client_id p =? cid)%Z eqn:E; cbn [negb].
  - exact IH.
  - cbn [existsb]. now rewrite E, IH.
Qed.

Lemma no_client_left (cid : Z) (l : list client_row) :
  existsb (fun r => client_id r =? cid)%Z
    (filter (fun r => negb (client_id r =? cid)%Z) l) = false.
Proof.
  induction l as [|p r IH]; [reflexivity|].
  cbn [filter]. destruct (client_id p =? cid)%Z eqn:E; cbn [negb].
  - exact IH.
  - cbn [existsb]. now rewrite E, IH.
Qed.

(** C7.  [del_client] deletes the phones of the client and then the client,
    and commits once, after both: the committed database has neither the
    client nor a phone of it, every other row is kept, and every phone still
    references a client. *)
Theorem del_client_cascade (st : state) (cid : Z) :
  failed (conn st) = false ->
  references_ok (current (conn st)) = true ->
  exists st',
    del_client cid st = (Returned tt, st')
    /\ client (committed (conn st'))
       = filter (fun r => negb (client_id r =? cid)%Z)
                (client (current (conn st)))
    /\ client_phone (committed (conn st'))
       = filter (fun p => negb (phone_client_id p =? cid)%Z)
                (client_phone (current (conn st)))
    /\ has_client cid (committed (conn st')) = false
    /\ (forall p, In p (client_phone (committed (conn st'))) ->
                  phone_client_id p <> cid)
    /\ references_ok (committed (conn st')) = true
    /\ log (conn st') = log (conn st) ++ [Commit (committed (conn st'))]
    /\ stdout st' = stdout st.
Proof.
  intros Hf Hfk.
  destruct st as [[cm [cl ph] f cs ps lg] out].
  cbn [conn current failed client client_phone log stdout] in *. subst f.
  unfold del_client, bind, execute, commit, DELETE_FROM_client_phone,
    DELETE_FROM_client, set_current, conn_commit.
  cbn [conn stdout committed current failed client_seq client_phone_seq log
       client client_phone].
  rewrite no_phone_left, andb_false_r.
  cbn [conn stdout committed current failed client_seq client_phone_seq log
       client client_phone].
  eexists. split; [reflexivity|].
  cbn [conn stdout committed current failed client_seq client_phone_seq log
       client client_phone].
  split; [reflexivity|]. split; [reflexivity|].
  split; [apply no_client_left|].
  split.
  { intros p Hp. apply filter_In in Hp. destruct Hp as [_ Hp].
    apply negb_true_iff in Hp. apply Z.eqb_neq in Hp. exact Hp. }
  split; [|split; reflexivity].
  unfold references_ok in *. cbn [client client_phone] in *.
  rewrite forallb_forall in *. intros p Hp.
  apply filter_In in Hp. destruct Hp as [Hin Hne].
  specialize (Hfk p Hin). unfold has_client in *. cbn [client] in *.
  apply existsb_exists in Hfk. destruct Hfk as [r [Hr E]].
  apply existsb_exists. exists r. split; [|exact E].
  apply filter_In. split; [exact Hr|].
  apply Z.eqb_eq in E. rewrite E. exact Hne.
Qed.

Lemma del_client_cascade_witness :
  let st :=
    snd (add_client (Some (u "A")) (Some (u "B")) None
           (PyList [Some (u "555-1234"); Some (u "12")]) connect) in
  exists st',
    del_client 1 st = (Returned tt, st')
    /\ client (committed (conn st')) = []
    /\ client_phone (committed (conn st')) = []
    /\ has_client 1 (committed (conn st')) = false
    /\ (forall p, In p (client_phone (committed (conn st'))) ->
                  phone_client_id p <> 1%Z)
    /\ references_ok (committed (conn st')) = true
    /\ log (conn st') = log (conn st) ++ [Commit (committed (conn st'))]
    /\ stdout st' = stdout st.
Proof.
  exact (del_client_cascade
           (snd (add_client (Some (u "A")) (Some (u "B")) None
                   (PyList [Some (u "555-1234"); Some (u "12")]) connect))
           1 eq_refl eq_refl).
Defined.

(** ** update_client *)

(** C8, as stated, fails on both of its halves.  On an identifier no
    client has, a first name of 101 letters makes the call raise: the width
    of a value is looked at whether or not a row is changed.  On an existing
    identifier, an email that does not pass the CHECK of the table is not
    written: the call raises and the client keeps its fields. *)
Lemma update_client_not_replaced :
  let st :=
    snd (add_client (Some (u "A")) (Some (u "B")) None PyNone connect) in
  let r := update_client 7 (Some (repeat 65%N 101)) (Some (u "D")) None st in
  let r' := update_client 1 (Some (u "C")) (Some (u "D"))
              (Some (u "not-an-email")) st in
  client (committed (conn st))
  = [new_client 1 (Some (u "A")) (Some (u "B")) None]
  /\ fst r = Raised StringDataRightTruncation
  /\ fst r' = Raised CheckViolation
  /\ committed (conn (snd r')) = committed (conn st).
Proof. vm_compute. repeat split. Qed.

(** C8, amended.  For three values that fit their columns of 100
    characters, on a connection whose transaction has not failed:
    [update_client] on an identifier no client has changes no row and
    raises nothing, the database it commits is the one it found; on an
    existing identifier, and with an email that passes the CHECK of the
    table or is absent, the client's first name, last name and email are
    replaced by the given values, every other row and every phone being
    kept. *)
Theorem update_client_replaces (st : state) (id : Z)
    (new_first_name new_last_name new_email : sqltext) :
  failed (conn st) = false ->
  fits 100 new_first_name = true ->
  fits 100 new_last_name = true ->
  fits 100 new_email = true ->
  (has_client id (current (conn st)) = true ->
   check email_regexp new_email = true) ->
  exists st',
    update_client id new_first_name new_last_name new_email st
    = (Returned tt, st')
    /\ client (committed (conn st'))
       = map (fun r => if (client_id r =? id)%Z
                       then new_client id new_first_name new_last_name
                                       new_email
                       else r)
             (client (current (conn st)))
    /\ client_phone (committed (conn st')) = client_phone (current (conn st))
    /\ (has_client id (current (conn st)) = false ->
        committed (conn st') = current (conn st))
    /\ stdout st' = stdout st
    /\ failed (conn st') = false.
Proof.
  intros Hf Hfn Hln Hem Hok.
  destruct st as [[cm [cl ph] f cs ps lg] out].
  cbn [conn current failed client client_phone log stdout] in *. subst f.
  unfold update_client, bind, execute, commit, UPDATE_client.
  cbn [conn stdout failed current client client_phone].
  rewrite (varchar_fits _ _ Hfn), (varchar_fits _ _ Hln),
    (varchar_fits _ _ Hem).
  assert ((negb (length (filter (fun r => client_id r =? id)%Z cl) =? 0)%nat
           && negb (check email_regexp new_email)) = false) as ->.
  { destruct (check email_regexp new_email) eqn:E;
      [now rewrite andb_false_r|].
    destruct (has_client id {| client := cl; client_phone := ph |}) eqn:Hc;
      [specialize (Hok eq_refl); discriminate|].
    unfold has_client in Hc. cbn [client] in Hc.
    assert (filter (fun r => client_id r =? id)%Z cl = []) as ->;
      [|reflexivity].
    clear - Hc. induction cl as [|r cl IH]; [reflexivity|].
    cbn in *. apply orb_false_iff in Hc. destruct Hc as [Hr Hc].
    rewrite Hr. auto. }
  unfold set_current, conn_commit.
  cbn [conn stdout committed current failed client_seq client_phone_seq log
       client client_phone].
  assert (forall l : list client_row,
            map (fun r => if (client_id r =? id)%Z
                          then {| client_id := client_id r;
                                  first_name := new_first_name;
                                  last_name := new_last_name;
                                  email := new_email |}
                          else r) l
            = map (fun r => if (client_id r =? id)%Z
                            then new_client id new_first_name new_last_name
                                            new_email
                            else r) l) as Hmap.
  { intros l. apply map_ext. intros r.
    destruct (client_id r =? id)%Z eqn:E; [|reflexivity].
    apply Z.eqb_eq in E. now rewrite E. }
  eexists. split; [reflexivity|].
  cbn [conn stdout committed current failed client client_phone].
  split; [apply Hmap|]. split; [reflexivity|]. split; [|split; reflexivity].
  intros Hc. f_equal. unfold has_client in Hc. cbn [client] in Hc.
  clear - Hc. induction cl as [|r cl IH]; [reflexivity|].
  cbn in *. apply orb_false_iff in Hc. destruct Hc as [Hr Hc].
  rewrite Hr. f_equal. auto.
Qed.

Lemma update_client_replaces_witness :
  let st :=
    snd (add_client (Some (u "A")) (Some (u "B")) None
           (PyList [Some (u "555-1234")]) connect) in
  exists st',
    update_client 1 (Some (u "C")) (Some (u "D")) (Some (u "c@d.ee")) st
    = (Returned tt, st')
    /\ client (committed (conn st'))
       = [new_client 1 (Some (u "C")) (Some (u "D")) (Some (u "c@d.ee"))]
    /\ client_phone (committed (conn st'))
       = [phone_row 1 1 (Some (u "555-1234"))]
    /\ (has_client 1 (current (conn st)) = false ->
        committed (conn st') = current (conn st))
    /\ stdout st' = stdout st
    /\ failed (conn st') = false.
Proof.
  exact (update_client_replaces
           (snd (add_client (Some (u "A")) (Some (u "B")) None
                   (PyList [Some (u "555-1234")]) connect))
           1 (Some (u "C")) (Some (u "D")) (Some (u "c@d.ee"))
           eq_refl eq_refl eq_refl eq_refl (fun _ => eq_refl)).
Defined.

(** ** The outer join *)

Lemma join_rows_client (db : database) (c : client_row) (j : joined) :
  In j (join_rows db c) -> c_ j = c.
Proof.
  unfold join_rows. destruct (phones_of c db) as [|p ps].
  - intros [<-|[]]. reflexivity.
  - intros H. apply in_map_iff in H. destruct H as [q [<- _]]. reflexivity.
Qed.

Lemma join_rows_cons (db : database) (c : client_row) :
  exists j rest, join_rows db c = j :: rest.
Proof.
  unfold join_rows. destruct (phones_of c db) as [|p ps]; cbn; eauto.
Qed.

Lemma join_rows_phones (db : database) (c : client_row) :
  non_null (map cp_phone (join_rows db c))
  = non_null (map phone (phones_of c db)).
Proof.
  unfold join_rows. destruct (phones_of c db) as [|p ps]; [reflexivity|].
  now rewrite map_map.
Qed.

Lemma In_LEFT_JOIN (db : database) (j : joined) :
  In j (LEFT_JOIN db)
  <-> In (c_ j) (client db)
      /\ ((cp_ j = None /\ phones_of (c_ j) db = [])
          \/ exists p, cp_ j = Some p /\ In p (phones_of (c_ j) db)).
Proof.
  unfold LEFT_JOIN. rewrite in_flat_map. split.
  - intros [c [Hc Hj]]. assert (E := join_rows_client _ _ _ Hj). subst c.
    split; [exact Hc|]. unfold join_rows in Hj.
    destruct j as [c cp]. cbn [c_ cp_] in *.
    destruct (phones_of c db) as [|p ps] eqn:Hp.
    + destruct Hj as [E|[]]. left. split; congruence.
    + right. apply in_map_iff in Hj. destruct Hj as [q [E Hq]].
      exists q. split; congruence.
  - intros [Hc H]. exists (c_ j). split; [exact Hc|]. unfold join_rows.
    destruct j as [c cp]. cbn in *.
    destruct H as [[-> ->]|[p [-> Hp]]]; [now left|].
    destruct (phones_of c db) as [|q qs]; [destruct Hp|].
    exact (in_map (fun p => {| c_ := c; cp_ := Some p |}) _ _ Hp).
Qed.

(** The client column of the join is the client table with every client
    repeated once per phone. *)
Lemma nodup_block (a : client_row) (rest : list client_row) (k : list joined) :
  (forall j, In j k -> c_ j = a) ->
  ~ In a rest ->
  nodup client_row_eq_dec (map c_ k ++ a :: rest)
  = a :: nodup client_row_eq_dec rest.
Proof.
  intros Hk Ha. induction k as [|j k IH]; cbn [map app].
  - cbn [nodup]. destruct (in_dec client_row_eq_dec a rest); [contradiction|].
    reflexivity.
  - rewrite (Hk j (or_introl eq_refl)). cbn [nodup].
    destruct (in_dec client_row_eq_dec a (map c_ k ++ a :: rest)) as [_|N].
    + apply IH. intros x Hx. apply Hk. now right.
    + exfalso. apply N. apply in_or_app. right. now left.
Qed.

Lemma nodup_join (db : database) (l : list client_row) :
  NoDup l ->
  nodup client_row_eq_dec (map c_ (flat_map (join_rows db) l)) = l.
Proof.
  induction l as [|a r IH]; intros Hnd; [reflexivity|].
  inversion Hnd as [|? ? Ha Hr]; subst.
  cbn [flat_map]. rewrite map_app.
  destruct (join_rows_cons db a) as [j [rest E]].
  assert (forall x, In x (join_rows db a) -> c_ x = a) as Hall
    by (intros x; apply join_rows_client).
  rewrite E in *.
  assert (forall x, In x (map c_ (flat_map (join_rows db) r)) -> In x r) as Hsub.
  { intros x Hx. apply in_map_iff in Hx. destruct Hx as [y [<- Hy]].
    apply in_flat_map in Hy. destruct Hy as [c [Hc Hy]].
    now rewrite (join_rows_client _ _ _ Hy). }
  (* the last row of the block is the one [nodup] keeps *)
  assert (exists k z, j :: rest = k ++ [z]) as [k [z Ek]].
  { destruct (exists_last (l := j :: rest)) as [k [z Ek]]; [discriminate|].
    eauto. }
  rewrite Ek in *. rewrite map_app. cbn [map]. rewrite <- app_assoc.
  cbn [app]. rewrite (Hall z) by (apply in_or_app; right; now left).
  rewrite nodup_block.
  - now rewrite IH.
  - intros x Hx. apply Hall. apply in_or_app. now left.
  - intros Hin. apply Ha. now apply Hsub.
Qed.

Lemma filter_join (db : database) (k : client_row) (l : list client_row) :
  NoDup l ->
  In k l ->
  filter (fun j => client_row_eqb (c_ j) k) (flat_map (join_rows db) l)
  = join_rows db k.
Proof.
  assert (forall a, a <> k ->
            filter (fun j => client_row_eqb (c_ j) k) (join_rows db a) = [])
    as Hother.
  { intros a Hne.
    assert (forall x, In x (join_rows db a) -> c_ x = a) as Hall
      by (intros x; apply join_rows_client).
    induction (join_rows db a) as [|x xs IHx]; [reflexivity|].
    cbn [filter]. rewrite (Hall x (or_introl eq_refl)).
    destruct (client_row_eqb a k) eqn:E.
    - apply client_row_eqb_eq in E. contradiction.
    - apply IHx. intros y Hy. apply Hall. now right. }
  assert (filter (fun j => client_row_eqb (c_ j) k) (join_rows db k)
          = join_rows db k) as Hsame.
  { assert (forall x, In x (join_rows db k) -> c_ x = k) as Hall
      by (intros x; apply join_rows_client).
    induction (join_rows db k) as [|x xs IHx]; [reflexivity|].
    cbn [filter]. rewrite (Hall x (or_introl eq_refl)).
    assert (client_row_eqb k k = true) as -> by now apply client_row_eqb_eq.
    f_equal. apply IHx. intros y Hy. apply Hall. now right. }
  assert (forall r, ~ In k r ->
            filter (fun j => client_row_eqb (c_ j) k)
                   (flat_map (join_rows db) r) = []) as Hnone.
  { induction r as [|a r IHr]; intros Hk; [reflexivity|].
    cbn [flat_map]. rewrite filter_app, Hother, IHr; auto.
    - intros Hin. apply Hk. now right.
    - intros ->. apply Hk. now left. }
  induction l as [|a r IH]; intros Hnd Hk; [destruct Hk|].
  inversion Hnd as [|? ? Ha Hr]; subst.
  cbn [flat_map]. rewrite filter_app.
  destruct (client_row_eq_dec a k) as [->|Hne].
  - rewrite Hsame, Hnone by exact Ha. apply app_nil_r.
  - rewrite Hother by exact Hne. cbn [app]. apply IH; [exact Hr|].
    destruct Hk as [E|Hk]; [contradiction|exact Hk].
Qed.

(** *** The order of the rows *)

Lemma insert_at_Permutation {A} (k : nat) (x : A) (l : list A) :
  Permutation (insert_at k x l) (x :: l).
Proof.
  revert k. induction l as [|y r IH]; intros [|k]; cbn; try reflexivity.
  rewrite IH. apply perm_swap.
Qed.

Lemma arrange_Permutation {A} (order : row_order) (l : list A) :
  Permutation (arrange order l) l.
Proof.
  revert order. induction l as [|x r IH]; intros order; cbn; [constructor|].
  rewrite insert_at_Permutation. now constructor.
Qed.

Lemma arrange_nil {A} (l : list A) : arrange [] l = l.
Proof.
  induction l as [|x r IH]; cbn; [reflexivity|]. rewrite IH.
  now destruct r.
Qed.

Lemma insert_at_middle {A} (x : A) (l1 l2 : list A) :
  insert_at (length l1) x (l1 ++ l2) = l1 ++ x :: l2.
Proof.
  induction l1 as [|y r IH]; cbn; [now destruct l2|]. now rewrite IH.
Qed.

(** Every arrangement of the rows is the choice of some [row_order]. *)
Lemma arrange_complete {A} (l l' : list A) :
  Permutation l l' -> exists order, arrange order l = l'.
Proof.
  revert l'. induction l as [|x r IH]; intros l' HP.
  - apply Permutation_nil in HP. subst. now exists [].
  - assert (In x l') as Hin
      by (apply (Permutation_in _ HP); now left).
    apply in_split in Hin. destruct Hin as [l1 [l2 ->]].
    apply Permutation_cons_app_inv in HP.
    destruct (IH _ HP) as [order Ho].
    exists (length l1 :: order). cbn. rewrite Ho. apply insert_at_middle.
Qed.

Lemma filter_Permutation {A} (f : A -> bool) (l l' : list A) :
  Permutation l l' -> Permutation (filter f l) (filter f l').
Proof.
  induction 1 as [|x l l' _ IH|x y l|l l' l'' _ IH1 _ IH2]; cbn.
  - constructor.
  - destruct (f x); [now constructor | exact IH].
  - destruct (f x), (f y); try reflexivity. apply perm_swap.
  - now transitivity (filter f l').
Qed.

Lemma SELECT_client_GROUP_BY_listing (c : connection) :
  NoDup (client (current c)) ->
  SELECT_client_GROUP_BY table_order c = (Ok (listing (current c)), c).
Proof.
  intros Hnd. unfold SELECT_client_GROUP_BY, table_order, listing, LEFT_JOIN.
  cbn [scan_order group_order]. rewrite !arrange_nil.
  rewrite nodup_join by exact Hnd. f_equal. f_equal.
  apply map_ext_in. intros k Hk.
  rewrite filter_join by assumption.
  unfold string_agg. now rewrite join_rows_phones.
Qed.

(** Whatever the plan, the grouping query gives one row per client, and
    the aggregate of a row joins the phones of its client, each once. *)
Lemma SELECT_client_GROUP_BY_rows (pl : plan) (c : connection) :
  NoDup (client (current c)) ->
  exists rows,
    SELECT_client_GROUP_BY pl c = (Ok rows, c)
    /\ Permutation (map fst rows) (client (current c))
    /\ (forall k agg,
          In (k, agg) rows ->
          exists ps,
            Permutation ps (phones_of k (current c))
            /\ agg = string_agg (map phone ps) (u ", ")).
Proof.
  intros Hnd. unfold SELECT_client_GROUP_BY.
  set (db := current c).
  set (rows := arrange (scan_order pl) (LEFT_JOIN db)).
  assert (Permutation rows (LEFT_JOIN db)) as Hrows
    by apply arrange_Permutation.
  set (groups := arrange (group_order pl)
                         (nodup client_row_eq_dec (map c_ rows))).
  assert (Permutation groups (client db)) as Hgroups.
  { unfold groups. rewrite arrange_Permutation.
    apply NoDup_Permutation; [apply NoDup_nodup | exact Hnd |].
    intros k. rewrite nodup_In. split; intros H.
    - apply in_map_iff in H. destruct H as [j [<- Hj]].
      apply (Permutation_in _ Hrows) in Hj. apply In_LEFT_JOIN in Hj.
      exact (proj1 Hj).
    - assert (E := nodup_join db (client db) Hnd).
      rewrite <- E in H. apply nodup_In in H.
      apply (Permutation_in _ (Permutation_map c_ (Permutation_sym Hrows))).
      exact H. }
  eexists. split; [reflexivity|]. split.
  - rewrite map_map. cbn [fst]. now rewrite map_id.
  - intros k agg Hin. apply in_map_iff in Hin.
    destruct Hin as [k' [E Hk]]. injection E as -> <-.
    assert (In k (client db)) as Hkc by exact (Permutation_in _ Hgroups Hk).
    assert (Permutation (filter (fun j => client_row_eqb (c_ j) k) rows)
                        (join_rows db k)) as Hblock.
    { rewrite (filter_Permutation _ _ _ Hrows). unfold LEFT_JOIN.
      now rewrite filter_join. }
    unfold join_rows in Hblock.
    destruct (phones_of k db) as [|p ps] eqn:Hp.
    + symmetry in Hblock. apply Permutation_length_1_inv in Hblock.
      rewrite Hblock. exists []. split; [constructor | reflexivity].
    + apply Permutation_map_inv in Hblock.
      destruct Hblock as [qs [-> Hqs]]. exists qs.
      split; [now symmetry|]. rewrite map_map. reflexivity.
Qed.

Lemma for_in_print (rows : list (client_row * sqltext)) (st : state) :
  for_in rows (fun client => print (Tuple client)) st
  = (Returned tt,
     {| conn := conn st; stdout := stdout st ++ map Tuple rows |}).
Proof.
  revert st. induction rows as [|r rows IH]; intros st.
  - cbn. rewrite app_nil_r. now destruct st.
  - cbn [for_in]. unfold bind, print at 1. rewrite IH.
    cbn [conn stdout map]. now rewrite <- app_assoc.
Qed.

(** ** print_all_clients *)

(** C6, as stated, fails on one point: the rows are not returned.  The
    method prints them and returns without a value.  What it prints comes
    in an order of the backend's choosing: here the second client first,
    and the first client's two phones with the later one first. *)
Lemma print_all_clients_returns_nothing :
  let st :=
    snd (add_client (Some (u "C")) (Some (u "D")) None PyNone
      (snd (add_client (Some (u "A")) (Some (u "B")) None
              (PyList [Some (u "555-1234"); Some (u "12")]) connect))) in
  let pl := {| scan_order := [1%nat]; group_order := [1%nat] |} in
  client (current (conn st))
  = [new_client 1 (Some (u "A")) (Some (u "B")) None;
     new_client 2 (Some (u "C")) (Some (u "D")) None]
  /\ fst (print_all_clients pl st) = Returned tt
  /\ stdout (snd (print_all_clients pl st))
     = [Tuple (new_client 2 (Some (u "C")) (Some (u "D")) None, None);
        Tuple (new_client 1 (Some (u "A")) (Some (u "B")) None,
               Some (u "12, 555-1234"))].
Proof. vm_compute. repeat split. Qed.

(** C6, amended.  [print_all_clients] prints, and does not return, one row
    per client of the table, in an order the query leaves to the backend:
    the client's identifier, first name, last name and email, and its
    phones, each once, joined by a comma and a space in an order that is the
    backend's too.  A client without phones has its one row as well, with no
    aggregate ([None]). *)
Theorem print_all_clients_rows (pl : plan) (st : state) :
  failed (conn st) = false ->
  distinct (map client_id (client (current (conn st)))) = true ->
  exists rows,
    print_all_clients pl st
    = (Returned tt,
       {| conn := conn st; stdout := stdout st ++ map Tuple rows |})
    /\ Permutation (map fst rows) (client (current (conn st)))
    /\ (forall c phones,
          In (c, phones) rows ->
          exists ps,
            Permutation ps (phones_of c (current (conn st)))
            /\ phones = string_agg (map phone ps) (u ", "))
    /\ (forall c,
          In c (client (current (conn st))) ->
          phones_of c (current (conn st)) = [] ->
          In (c, None) rows).
Proof.
  intros Hf Hpk. apply distinct_NoDup, NoDup_map_inv in Hpk.
  destruct (SELECT_client_GROUP_BY_rows pl (conn st) Hpk)
    as [rows [Hq [Hperm Hagg]]].
  exists rows. split; [|split; [exact Hperm | split; [exact Hagg|]]].
  - unfold print_all_clients, bind, execute. rewrite Hf, Hq.
    now rewrite for_in_print.
  - intros c Hc Hno.
    apply (Permutation_in _ (Permutation_sym Hperm)) in Hc.
    apply in_map_iff in Hc. destruct Hc as [[c' agg] [E Hin]].
    cbn [fst] in E. subst c'.
    destruct (Hagg _ _ Hin) as [ps [Hps ->]]. rewrite Hno in Hps.
    apply Permutation_sym, Permutation_nil in Hps. now subst ps.
Qed.

Lemma print_all_clients_rows_witness :
  let st :=
    snd (add_client (Some (u "C")) (Some (u "D")) None PyNone
      (snd (add_client (Some (u "A")) (Some (u "B")) (Some (u "a@b.cc"))
              (PyList [Some (u "555-1234"); Some (u "12")]) connect))) in
  let pl := {| scan_order := []; group_order := [1%nat] |} in
  stdout (snd (print_all_clients pl st))
  = [Tuple (new_client 2 (Some (u "C")) (Some (u "D")) None, None);
     Tuple (new_client 1 (Some (u "A")) (Some (u "B")) (Some (u "a@b.cc")),
            Some (u "555-1234, 12"))]
  /\ exists rows,
       print_all_clients pl st
       = (Returned tt,
          {| conn := conn st; stdout := stdout st ++ map Tuple rows |})
       /\ Permutation (map fst rows) (client (current (conn st)))
       /\ (forall c phones,
             In (c, phones) rows ->
             exists ps,
               Permutation ps (phones_of c (current (conn st)))
               /\ phones = string_agg (map phone ps) (u ", "))
       /\ (forall c,
             In c (client (current (conn st))) ->
             phones_of c (current (conn st)) = [] ->
             In (c, None) rows).
Proof.
  split; [reflexivity|].
  exact (print_all_clients_rows
    {| scan_order := []; group_order := [1%nat] |}
    (snd (add_client (Some (u "C")) (Some (u "D")) None PyNone
      (snd (add_client (Some (u "A")) (Some (u "B")) (Some (u "a@b.cc"))
              (PyList [Some (u "555-1234"); Some (u "12")]) connect))))
    eq_refl eq_refl).
Defined.

(** ** find_client: the rows *)

Lemma sql_eq_Some (a v : sqltext) :
  sql_eq a v = true <-> exists x, v = Some x /\ a = Some x.
Proof.
  destruct a as [x|], v as [y|]; cbn; split;
    try discriminate; try (intros [z [? ?]]; discriminate).
  - intros E. apply pystr_eqb_eq in E. subst. eauto.
  - intros [z [E1 E2]]. apply pystr_eqb_eq. congruence.
Qed.

Lemma selected_rows (col : joined -> sqltext) (v : sqltext) (db : database)
    (r : client_row) :
  In r (nodup client_row_eq_dec
          (map c_ (filter (fun j => sql_eq (col j) v) (LEFT_JOIN db))))
  <-> exists j x, In j (LEFT_JOIN db) /\ c_ j = r
                  /\ v = Some x /\ col j = Some x.
Proof.
  rewrite nodup_In, in_map_iff. split.
  - intros [j [E Hj]]. apply filter_In in Hj. destruct Hj as [Hj Hm].
    apply sql_eq_Some in Hm. destruct Hm as [x [Hv Hx]]. exists j, x. auto.
  - intros [j [x [Hj [E [Hv Hx]]]]]. exists j. split; [exact E|].
    apply filter_In. split; [exact Hj|]. apply sql_eq_Some. eauto.
Qed.

Lemma selected_rows_client (g : client_row -> sqltext) (v : sqltext)
    (db : database) (r : client_row) :
  In r (nodup client_row_eq_dec
          (map c_ (filter (fun j => sql_eq (g (c_ j)) v) (LEFT_JOIN db))))
  <-> In r (client db) /\ exists x, v = Some x /\ g r = Some x.
Proof.
  rewrite selected_rows. split.
  - intros [j [x [Hj [E [Hv Hx]]]]]. subst r.
    apply In_LEFT_JOIN in Hj. destruct Hj as [Hc _]. eauto.
  - intros [Hr [x [Hv Hx]]].
    destruct (join_rows_cons db r) as [j [rest E]].
    assert (In j (join_rows db r)) as Hj by (rewrite E; now left).
    exists j, x. rewrite (join_rows_client _ _ _ Hj).
    repeat split; try assumption.
    unfold LEFT_JOIN. apply in_flat_map. eauto.
Qed.

Lemma selected_rows_phone (v : sqltext) (db : database) (r : client_row) :
  In r (nodup client_row_eq_dec
          (map c_ (filter (fun j => sql_eq (cp_phone j) v) (LEFT_JOIN db))))
  <-> In r (client db)
      /\ exists x, v = Some x
                   /\ exists p, In p (client_phone db)
                                /\ phone_client_id p = client_id r
                                /\ phone p = Some x.
Proof.
  rewrite selected_rows. split.
  - intros [j [x [Hj [E [Hv Hx]]]]]. subst r.
    apply In_LEFT_JOIN in Hj. destruct Hj as [Hc Hj]. split; [exact Hc|].
    exists x. split; [exact Hv|]. unfold cp_phone in Hx.
    destruct Hj as [[Hn _]|[p [Hp Hin]]]; rewrite ?Hn, ?Hp in Hx;
      [discriminate|].
    exists p. unfold phones_of in Hin. apply filter_In in Hin.
    destruct Hin as [Hin Hid]. apply Z.eqb_eq in Hid. auto.
  - intros [Hr [x [Hv [p [Hp [Hid Hx]]]]]].
    exists {| c_ := r; cp_ := Some p |}, x. repeat split; try assumption.
    apply In_LEFT_JOIN. cbn [c_ cp_]. split; [exact Hr|]. right.
    exists p. split; [reflexivity|]. unfold phones_of. apply filter_In.
    split; [exact Hp|]. now apply Z.eqb_eq.
Qed.

Lemma NoDup_map_on {A B} (f : A -> B) (l k : list A) :
  NoDup (map f l) -> NoDup k -> incl k l -> NoDup (map f k).
Proof.
  intros Hl Hk Hincl.
  assert (forall a b, In a l -> In b l -> f a = f b -> a = b) as Hinj.
  { clear - Hl. induction l as [|x l IH]; intros a b Ha Hb E; [destruct Ha|].
    cbn [map] in Hl. inversion Hl as [|? ? Hx Hl']; subst.
    destruct Ha as [<-|Ha], Hb as [<-|Hb]; auto.
    - exfalso. apply Hx. rewrite E. now apply in_map.
    - exfalso. apply Hx. rewrite <- E. now apply in_map. }
  induction k as [|a k IH]; [constructor|].
  inversion Hk as [|? ? Ha Hk']; subst. cbn [map]. constructor.
  - intros Hin. apply in_map_iff in Hin. destruct Hin as [b [E Hb]].
    assert (b = a) as -> ; [|contradiction].
    apply Hinj; auto; apply Hincl; [now right | now left].
  - apply IH; [exact Hk'|]. intros x Hx. apply Hincl. now right.
Qed.

(** C9.  For a field name that [fields_to_search] maps to the column
    [ident], [find_client] returns the clients of the table whose value in
    that column equals the given value (for the phone column: the clients
    that have a phone equal to it) and nothing else, and returns each
    of them once: no row and no client identifier occurs twice. *)
Theorem find_client_rows (st : state) (field_name ident : pystr)
    (field_value : sqltext) :
  failed (conn st) = false ->
  distinct (map client_id (client (current (conn st)))) = true ->
  getitem fields_to_search (lower field_name) = Some ident ->
  exists rows,
    find_client field_name field_value st = (Returned (Some rows), st)
    /\ (forall r,
          In r rows
          <-> In r (client (current (conn st)))
              /\ exists x, field_value = Some x
                           /\ field_matches ident (current (conn st)) r x)
    /\ NoDup rows
    /\ NoDup (map client_id rows).
Proof.
  intros Hf Hpk Hget. apply distinct_NoDup in Hpk.
  unfold find_client. rewrite Hget. unfold bind, execute. rewrite Hf.
  unfold SELECT_DISTINCT_client, field_matches.
  assert (forall rows, (forall r, In r rows -> In r (client (current (conn st)))) ->
            NoDup rows -> NoDup rows /\ NoDup (map client_id rows)) as Hnd.
  { intros rows Hsub Hrows. split; [exact Hrows|].
    exact (NoDup_map_on client_id _ rows Hpk Hrows Hsub). }
  destruct (getitem_fields _ _ Hget) as [[_ ->]|[[_ ->]|[[_ ->]|[_ ->]]]];
    match goal with
    | |- context [column ?i] =>
        let c := eval vm_compute in (column i) in
        change (column i) with c; cbv beta iota
    end;
    (eexists; split; [destruct st; reflexivity|]; split;
     [|apply Hnd; [|apply NoDup_nodup]]).
  - intros r. rewrite (selected_rows_client first_name). split.
    + intros [Hr [x [Hv Hx]]]. split; [exact Hr|]. exists x. auto.
    + intros [Hr [x [Hv [[_ Hx]|[[E _]|[[E _]|[E _]]]]]]];
        try (vm_compute in E; discriminate). eauto.
  - intros r Hr. apply (selected_rows_client first_name) in Hr. tauto.
  - intros r. rewrite (selected_rows_client last_name). split.
    + intros [Hr [x [Hv Hx]]]. split; [exact Hr|]. exists x. auto.
    + intros [Hr [x [Hv [[E _]|[[_ Hx]|[[E _]|[E _]]]]]]];
        try (vm_compute in E; discriminate). eauto.
  - intros r Hr. apply (selected_rows_client last_name) in Hr. tauto.
  - intros r. rewrite (selected_rows_client email). split.
    + intros [Hr [x [Hv Hx]]]. split; [exact Hr|]. exists x. auto 6.
    + intros [Hr [x [Hv [[E _]|[[E _]|[[_ Hx]|[E _]]]]]]];
        try (vm_compute in E; discriminate). eauto.
  - intros r Hr. apply (selected_rows_client email) in Hr. tauto.
  - intros r. rewrite selected_rows_phone. split.
    + intros [Hr [x [Hv Hx]]]. split; [exact Hr|]. exists x. auto 6.
    + intros [Hr [x [Hv [[E _]|[[E _]|[[E _]|[_ Hx]]]]]]];
        try (vm_compute in E; discriminate). eauto.
  - intros r Hr. apply selected_rows_phone in Hr. tauto.
Qed.

Lemma find_client_rows_witness :
  let st :=
    snd (add_client (Some (u "A")) (Some (u "B")) None
           (PyList [Some (u "12"); Some (u "12")]) connect) in
  exists rows,
    find_client (u "Телефон") (Some (u "12")) st = (Returned (Some rows), st)
    /\ (forall r,
          In r rows
          <-> In r (client (current (conn st)))
              /\ exists x, Some (u "12") = Some x
                           /\ field_matches (u "phone") (current (conn st)) r x)
    /\ NoDup rows
    /\ NoDup (map client_id rows).
Proof.
  exact (find_client_rows
           (snd (add_client (Some (u "A")) (Some (u "B")) None
                   (PyList [Some (u "12"); Some (u "12")]) connect))
           (u "Телефон") (u "phone") (Some (u "12"))
           eq_refl eq_refl eq_refl).
Defined.

(** A client with two phones equal to the value searched for is returned
    once. *)
Example find_client_two_phones :
  let st :=
    snd (add_client (Some (u "A")) (Some (u "B")) None
           (PyList [Some (u "12"); Some (u "12")]) connect) in
  client_phone (committed (conn st))
  = [phone_row 1 1 (Some (u "12")); phone_row 2 1 (Some (u "12"))]
  /\ fst (find_client (u "телефон") (Some (u "12")) st)
     = Returned (Some [new_client 1 (Some (u "A")) (Some (u "B")) None]).
Proof. vm_compute. split; reflexivity. Qed.

(** ** Rules *)

Lemma triple_ret {A} (a : A) (P : state -> Prop) (Q : A -> state -> Prop) E :
  (forall st, P st -> Q a st) -> triple P (ret a) Q E.
Proof. intros H st Hst. cbn. auto. Qed.

Lemma triple_bind {A B} (m : M A) (k : A -> M B) P R Q E :
  triple P m R E ->
  (forall a, triple (R a) (k a) Q E) ->
  triple P (bind m k) Q E.
Proof.
  intros Hm Hk st Hst. unfold bind. specialize (Hm st Hst).
  destruct (m st) as [[a|e] st']; [|exact Hm].
  exact (Hk a st' Hm).
Qed.

Lemma triple_weaken {A} (m : M A) (P P' : state -> Prop)
    (Q Q' : A -> state -> Prop) (E E' : pg_error -> state -> Prop) :
  triple P' m Q' E' ->
  (forall st, P st -> P' st) ->
  (forall a st, Q' a st -> Q a st) ->
  (forall e st, E' e st -> E e st) ->
  triple P m Q E.
Proof.
  intros Hm HP HQ HE st Hst. specialize (Hm st (HP st Hst)).
  destruct (m st) as [[a|e] st']; auto.
Qed.

Lemma triple_try {A} (body handler : M A) P Q E E' :
  triple P body Q E' ->
  triple (E' CheckViolation) handler Q E ->
  (forall e st, e <> CheckViolation -> E' e st -> E e st) ->
  triple P (try_except_CheckViolation body handler) Q E.
Proof.
  intros Hb Hh HE st Hst. unfold try_except_CheckViolation.
  specialize (Hb st Hst). destruct (body st) as [[a|e] st']; [exact Hb|].
  destruct e; try (apply HE; [discriminate|exact Hb]).
  exact (Hh st' Hb).
Qed.

Lemma triple_for_in {A} (body : A -> M unit) (Inv : state -> Prop)
    (E : pg_error -> state -> Prop) (l : list A) :
  (forall x, In x l -> triple Inv (body x) (fun _ => Inv) E) ->
  triple Inv (for_in l body) (fun _ => Inv) E.
Proof.
  induction l as [|x r IH]; intros Hbody.
  - apply triple_ret. auto.
  - cbn [for_in]. eapply triple_bind.
    + apply Hbody. now left.
    + intros []. apply IH. intros y Hy. apply Hbody. now right.
Qed.

Lemma triple_execute {A} (q : statement A) (P : state -> Prop) Q E :
  (forall st, P st -> failed (conn st) = true ->
              E InFailedSqlTransaction st) ->
  (forall st, P st -> failed (conn st) = false ->
     match q (conn st) with
     | (Ok a, c) => Q a {| conn := c; stdout := stdout st |}
     | (Err e, c) => E e {| conn := set_failed c; stdout := stdout st |}
     end) ->
  triple P (execute q) Q E.
Proof.
  intros Hfail Hrun st Hst. unfold execute.
  destruct (failed (conn st)) eqn:Hf; [now apply Hfail|].
  specialize (Hrun st Hst Hf). now destruct (q (conn st)) as [[a|e] c].
Qed.

Lemma triple_commit P (Q : unit -> state -> Prop) E :
  (forall st, P st ->
     Q tt {| conn := conn_commit (conn st); stdout := stdout st |}) ->
  triple P commit Q E.
Proof. intros H st Hst. cbn. auto. Qed.

Lemma triple_rollback P (Q : unit -> state -> Prop) E :
  (forall st, P st ->
     Q tt {| conn := conn_rollback (conn st); stdout := stdout st |}) ->
  triple P rollback Q E.
Proof. intros H st Hst. cbn. auto. Qed.

Lemma triple_print p P (Q : unit -> state -> Prop) E :
  (forall st, P st ->
     Q tt {| conn := conn st; stdout := stdout st ++ [p] |}) ->
  triple P (print p) Q E.
Proof. intros H st Hst. cbn. auto. Qed.

(** ** Lists of identifiers *)

Lemma existsb_eqb_In (y : Z) (l : list Z) :
  existsb (Z.eqb y) l = true <-> In y l.
Proof.
  rewrite existsb_exists. split.
  - intros [x [Hx E]]. apply Z.eqb_eq in E. now subst.
  - intros H. exists y. split; [exact H|apply Z.eqb_refl].
Qed.

Lemma distinct_snoc (l : list Z) (y : Z) :
  distinct l = true -> ~ In y l -> distinct (l ++ [y]) = true.
Proof.
  rewrite !distinct_NoDup. intros Hl Hy.
  apply NoDup_app. repeat split; auto.
  - constructor; [intros []|constructor].
  - intros x Hx [<-|[]]. contradiction.
Qed.

Lemma distinct_map_filter {A} (f : A -> Z) (p : A -> bool) (l : list A) :
  distinct (map f l) = true -> distinct (map f (filter p l)) = true.
Proof.
  rewrite !distinct_NoDup. induction l as [|a l IH]; intros H; [exact H|].
  cbn [map] in H. inversion H as [|? ? Ha Hl]; subst. cbn [filter].
  destruct (p a); [|now apply IH]. cbn [map]. constructor; [|now apply IH].
  intros Hin. apply Ha. apply in_map_iff in Hin.
  destruct Hin as [b [E Hb]]. apply filter_In in Hb.
  apply in_map_iff. exists b. tauto.
Qed.

Lemma has_client_iff (id : Z) (db : database) :
  has_client id db = true <-> In id (map client_id (client db)).
Proof.
  unfold has_client. rewrite existsb_exists, in_map_iff. split.
  - intros [r [Hr E]]. apply Z.eqb_eq in E. now exists r.
  - intros [r [E Hr]]. exists r. split; [exact Hr | now apply Z.eqb_eq].
Qed.

Lemma has_client_phone_iff (id : Z) (db : database) :
  has_client_phone id db = true
  <-> In id (map client_phone_id (client_phone db)).
Proof.
  unfold has_client_phone. rewrite existsb_exists, in_map_iff. split.
  - intros [r [Hr E]]. apply Z.eqb_eq in E. now exists r.
  - intros [r [E Hr]]. exists r. split; [exact Hr | now apply Z.eqb_eq].
Qed.

Lemma varchar_Ok_fits (n : nat) (v w : sqltext) :
  varchar n v = Ok w -> fits n w = true.
Proof.
  destruct v as [s|]; cbn; [|intros [= <-]; reflexivity].
  destruct (length s <=? n)%nat eqn:E; [intros [= <-]; exact E|].
  destruct (forallb (N.eqb 32) (skipn n s)); [|discriminate].
  intros [= <-]. cbn. apply Nat.leb_le. apply firstn_le_length.
Qed.

Lemma varchar_Err (n : nat) (v : sqltext) (e : pg_error) :
  varchar n v = Err e -> e = StringDataRightTruncation.
Proof.
  destruct v as [s|]; cbn; [|discriminate].
  destruct (length s <=? n)%nat; [discriminate|].
  destruct (forallb (N.eqb 32) (skipn n s)); [discriminate|]. congruence.
Qed.

(** ** The parts of consistency *)

Lemma consistent_iff (db : database) :
  consistent db = true
  <-> distinct (map client_id (client db)) = true
      /\ distinct (map client_phone_id (client_phone db)) = true
      /\ references_ok db = true
      /\ forallb client_row_ok (client db) = true
      /\ forallb client_phone_row_ok (client_phone db) = true.
Proof. unfold consistent. rewrite !andb_true_iff. tauto. Qed.

Lemma ids_issued_iff (cs ps : Z) (db : database) :
  ids_issued cs ps db = true
  <-> (forall r, In r (client db) -> (client_id r <= cs)%Z)
      /\ (forall p, In p (client_phone db) -> (client_phone_id p <= ps)%Z).
Proof.
  unfold ids_issued. rewrite andb_true_iff, !forallb_forall.
  split; intros [H1 H2]; split; intros x Hx.
  - specialize (H1 x Hx). lia.
  - specialize (H2 x Hx). lia.
  - apply Z.leb_le. auto.
  - apply Z.leb_le. auto.
Qed.

Lemma ids_issued_mono (cs ps cs' ps' : Z) (db : database) :
  (cs <= cs')%Z -> (ps <= ps')%Z ->
  ids_issued cs ps db = true -> ids_issued cs' ps' db = true.
Proof.
  rewrite !ids_issued_iff. intros Hc Hp [H1 H2]. split; intros x Hx.
  - specialize (H1 x Hx). lia.
  - specialize (H2 x Hx). lia.
Qed.

Lemma sound_iff (c : connection) :
  sound c = true
  <-> consistent (committed c) = true
      /\ consistent (current c) = true
      /\ ids_issued (client_seq c) (client_phone_seq c) (committed c) = true
      /\ ids_issued (client_seq c) (client_phone_seq c) (current c) = true.
Proof. unfold sound. rewrite !andb_true_iff. tauto. Qed.

Lemma sound_set_failed (c : connection) : sound (set_failed c) = sound c.
Proof. reflexivity. Qed.

Lemma sound_commit (c : connection) :
  sound c = true -> sound (conn_commit c) = true.
Proof.
  rewrite !sound_iff. unfold conn_commit. cbn.
  destruct (failed c); tauto.
Qed.

Lemma sound_rollback (c : connection) :
  sound c = true -> sound (conn_rollback c) = true.
Proof. rewrite !sound_iff. unfold conn_rollback. cbn. tauto. Qed.

(** ** What the statements keep *)

Lemma existsb_client_phone_le (ps : Z) (l : list client_phone_row) :
  (forall p, In p l -> (client_phone_id p <= ps)%Z) ->
  ~ In (ps + 1)%Z (map client_phone_id l).
Proof.
  intros H Hin. apply in_map_iff in Hin. destruct Hin as [p [E Hp]].
  specialize (H p Hp). lia.
Qed.

Lemma existsb_client_le (cs : Z) (l : list client_row) :
  (forall r, In r l -> (client_id r <= cs)%Z) ->
  ~ In (cs + 1)%Z (map client_id l).
Proof.
  intros H Hin. apply in_map_iff in Hin. destruct Hin as [p [E Hp]].
  specialize (H p Hp). lia.
Qed.

Lemma keeps_INSERT_INTO_client (fn ln em : sqltext) :
  keeps (INSERT_INTO_client fn ln em)
        (fun _ e => e = StringDataRightTruncation \/ e = CheckViolation).
Proof.
  intros c Hs. unfold INSERT_INTO_client.
  destruct (varchar 100 fn) as [fn'|e1] eqn:Efn;
    [|cbn; repeat split; auto; left; eapply varchar_Err; eauto].
  destruct (varchar 100 ln) as [ln'|e2] eqn:Eln;
    [|cbn; repeat split; auto; left; eapply varchar_Err; eauto].
  destruct (varchar 100 em) as [em'|e3] eqn:Eem;
    [|cbn; repeat split; auto; left; eapply varchar_Err; eauto].
  apply varchar_Ok_fits in Efn, Eln, Eem.
  assert (Hs' := Hs). apply sound_iff in Hs'.
  destruct Hs' as [Hcm [Hcu [Him Hiu]]].
  assert (sound (nextval_client c) = true) as Hnext.
  { apply sound_iff. cbn. repeat split; auto;
      eapply ids_issued_mono; eauto; lia. }
  destruct (check email_regexp em') eqn:Hck; cbn [negb];
    [|cbn; repeat split; auto].
  assert (has_client (client_seq c + 1) (current c) = false) as ->.
  { destruct (has_client (client_seq c + 1) (current c)) eqn:Hh;
      [|reflexivity].
    apply has_client_iff in Hh. apply ids_issued_iff in Hiu.
    destruct Hiu as [Hiu _]. now apply existsb_client_le in Hiu. }
  cbn [fst snd]. split; [|cbn; repeat split; auto].
  apply sound_iff. cbn [set_current nextval_client committed current
                        client_seq client_phone_seq].
  split; [exact Hcm|]. split; [|split].
  - apply consistent_iff in Hcu.
    destruct Hcu as [Hd1 [Hd2 [Hfk [Hr1 Hr2]]]].
    apply consistent_iff. cbn [client client_phone].
    apply ids_issued_iff in Hiu. destruct Hiu as [Hiu _].
    repeat split; auto.
    + rewrite map_app. cbn [map client_id]. apply distinct_snoc; auto.
      now apply existsb_client_le.
    + unfold references_ok in *. cbn [client client_phone].
      rewrite forallb_forall in *. intros p Hp. specialize (Hfk p Hp).
      unfold has_client in *. cbn [client]. rewrite existsb_app, Hfk.
      reflexivity.
    + rewrite forallb_app, Hr1. cbn. unfold client_row_ok. cbn.
      now rewrite Hck, Efn, Eln, Eem.
  - eapply ids_issued_mono; eauto; lia.
  - apply ids_issued_iff in Hiu. destruct Hiu as [H1 H2].
    apply ids_issued_iff. cbn [client client_phone]. split; [|exact H2].
    intros r Hr. apply in_app_or in Hr. destruct Hr as [Hr|[<-|[]]].
    + specialize (H1 r Hr). lia.
    + cbn. lia.
Qed.

Lemma keeps_INSERT_INTO_client_phone (cid : Z) (ph : sqltext) :
  keeps (INSERT_INTO_client_phone cid ph)
        (fun c e => e = StringDataRightTruncation \/ e = CheckViolation
                    \/ ((e = ForeignKeyViolation
                         \/ e = NumericValueOutOfRange)
                        /\ has_client cid (current c) = false)).
Proof.
  intros c Hs. unfold INSERT_INTO_client_phone.
  destruct (int4 cid || has_client cid (current c)) eqn:Hid; cbn [negb];
    [|apply orb_false_iff in Hid; cbn; repeat split; auto; tauto].
  destruct (varchar 50 ph) as [ph'|e1] eqn:Eph;
    [|cbn; repeat split; auto; left; eapply varchar_Err; eauto].
  apply varchar_Ok_fits in Eph.
  assert (Hs' := Hs). apply sound_iff in Hs'.
  destruct Hs' as [Hcm [Hcu [Him Hiu]]].
  assert (sound (nextval_client_phone c) = true) as Hnext.
  { apply sound_iff. cbn. repeat split; auto;
      eapply ids_issued_mono; eauto; lia. }
  destruct (check phone_regexp ph') eqn:Hck; cbn [negb];
    [|cbn; repeat split; auto].
  assert (has_client_phone (client_phone_seq c + 1) (current c) = false) as ->.
  { destruct (has_client_phone (client_phone_seq c + 1) (current c)) eqn:Hh;
      [|reflexivity].
    apply has_client_phone_iff in Hh. apply ids_issued_iff in Hiu.
    destruct Hiu as [_ Hiu]. now apply existsb_client_phone_le in Hiu. }
  destruct (has_client cid (current c)) eqn:Hcl; cbn [negb];
    [|cbn; repeat split; auto].
  cbn [fst snd]. split; [|cbn; repeat split; auto].
  apply sound_iff. cbn [set_current nextval_client_phone committed current
                        client_seq client_phone_seq].
  split; [exact Hcm|]. split; [|split].
  - apply consistent_iff in Hcu.
    destruct Hcu as [Hd1 [Hd2 [Hfk [Hr1 Hr2]]]].
    apply consistent_iff. cbn [client client_phone].
    apply ids_issued_iff in Hiu. destruct Hiu as [_ Hiu].
    repeat split; auto.
    + rewrite map_app. cbn [map client_phone_id]. apply distinct_snoc; auto.
      now apply existsb_client_phone_le.
    + unfold references_ok in *. cbn [client client_phone].
      rewrite forallb_app. apply andb_true_iff. split.
      * rewrite forallb_forall in *. intros p Hp. exact (Hfk p Hp).
      * cbn. now rewrite andb_true_r.
    + rewrite forallb_app, Hr2. cbn. unfold client_phone_row_ok. cbn.
      now rewrite Hck, Eph.
  - eapply ids_issued_mono; eauto; lia.
  - apply ids_issued_iff in Hiu. destruct Hiu as [H1 H2].
    apply ids_issued_iff. cbn [client client_phone]. split; [exact H1|].
    intros r Hr. apply in_app_or in Hr. destruct Hr as [Hr|[<-|[]]].
    + specialize (H2 r Hr). lia.
    + cbn. lia.
Qed.

Lemma keeps_UPDATE_client (id : Z) (fn ln em : sqltext) :
  keeps (UPDATE_client id fn ln em)
        (fun _ e => e = StringDataRightTruncation \/ e = CheckViolation).
Proof.
  intros c Hs. unfold UPDATE_client.
  destruct (varchar 100 fn) as [fn'|e1] eqn:Efn;
    [|cbn; repeat split; auto; left; eapply varchar_Err; eauto].
  destruct (varchar 100 ln) as [ln'|e2] eqn:Eln;
    [|cbn; repeat split; auto; left; eapply varchar_Err; eauto].
  destruct (varchar 100 em) as [em'|e3] eqn:Eem;
    [|cbn; repeat split; auto; left; eapply varchar_Err; eauto].
  apply varchar_Ok_fits in Efn, Eln, Eem.
  assert (Hs' := Hs). apply sound_iff in Hs'.
  destruct Hs' as [Hcm [Hcu [Him Hiu]]].
  remember (fun r : client_row => (client_id r =? id)%Z) as hit eqn:Hhit.
  remember (fun r : client_row =>
              if (client_id r =? id)%Z
              then {| client_id := client_id r; first_name := fn';
                      last_name := ln'; email := em' |}
              else r) as upd eqn:Hupd.
  destruct (negb (length (filter hit (client (current c))) =? 0)%nat
            && negb (check email_regexp em')) eqn:Hbad;
    [cbn; repeat split; auto|].
  cbn [fst snd]. split; [|cbn; repeat split; auto].
  assert (map client_id (map upd (client (current c)))
          = map client_id (client (current c))) as Hids.
  { rewrite map_map. apply map_ext. intros r. rewrite Hupd.
    now destruct (client_id r =? id)%Z. }
  apply sound_iff. cbn [set_current committed current client_seq
                        client_phone_seq].
  split; [exact Hcm|]. split; [|split; [exact Him|]].
  - apply consistent_iff in Hcu.
    destruct Hcu as [Hd1 [Hd2 [Hfk [Hr1 Hr2]]]].
    apply consistent_iff. cbn [client client_phone].
    repeat split; auto.
    + now rewrite Hids.
    + unfold references_ok in *. cbn [client client_phone].
      rewrite forallb_forall in *. intros p Hp. specialize (Hfk p Hp).
      apply has_client_iff in Hfk. apply has_client_iff. cbn [client].
      now rewrite Hids.
    + rewrite forallb_forall in *. intros r Hr. apply in_map_iff in Hr.
      destruct Hr as [r0 [<- Hr0]]. rewrite Hupd.
      destruct (client_id r0 =? id)%Z eqn:Hh; [|now apply Hr1].
      unfold client_row_ok. cbn. rewrite Efn, Eln, Eem.
      destruct (check email_regexp em'); [reflexivity|].
      exfalso. cbn [negb] in Hbad. rewrite andb_true_r in Hbad.
      apply negb_false_iff, Nat.eqb_eq in Hbad.
      assert (In r0 (filter hit (client (current c)))) as Hin
        by (apply filter_In; rewrite Hhit; auto).
      destruct (filter hit (client (current c))); [destruct Hin|discriminate].
  - apply ids_issued_iff in Hiu. destruct Hiu as [H1 H2].
    apply ids_issued_iff. cbn [client client_phone]. split; [|exact H2].
    intros r Hr. apply in_map_iff in Hr. destruct Hr as [r0 [<- Hr0]].
    specialize (H1 r0 Hr0). rewrite Hupd.
    now destruct (client_id r0 =? id)%Z.
Qed.

Lemma keeps_DELETE_FROM_client_phone_by_id (pid : Z) :
  keeps (DELETE_FROM_client_phone_by_id pid) (fun _ _ => False).
Proof.
  intros c Hs. unfold DELETE_FROM_client_phone_by_id. cbn [fst snd].
  split; [|cbn; repeat split; auto].
  apply sound_iff in Hs. destruct Hs as [Hcm [Hcu [Him Hiu]]].
  apply sound_iff. cbn [set_current committed current client_seq
                        client_phone_seq].
  split; [exact Hcm|]. split; [|split; [exact Him|]].
  - apply consistent_iff in Hcu.
    destruct Hcu as [Hd1 [Hd2 [Hfk [Hr1 Hr2]]]].
    apply consistent_iff. cbn [client client_phone]. repeat split; auto.
    + now apply distinct_map_filter.
    + unfold references_ok in *. cbn [client client_phone].
      rewrite forallb_forall in *. intros p Hp. apply filter_In in Hp.
      apply Hfk. tauto.
    + rewrite forallb_forall in *. intros p Hp. apply filter_In in Hp.
      apply Hr2. tauto.
  - apply ids_issued_iff in Hiu. destruct Hiu as [H1 H2].
    apply ids_issued_iff. cbn [client client_phone]. split; [exact H1|].
    intros p Hp. apply filter_In in Hp. apply H2. tauto.
Qed.

Lemma keeps_DELETE_FROM_client_phone (cid : Z) :
  keeps (DELETE_FROM_client_phone cid) (fun _ _ => False).
Proof.
  intros c Hs. unfold DELETE_FROM_client_phone. cbn [fst snd].
  split; [|cbn; repeat split; auto].
  apply sound_iff in Hs. destruct Hs as [Hcm [Hcu [Him Hiu]]].
  apply sound_iff. cbn [set_current committed current client_seq
                        client_phone_seq].
  split; [exact Hcm|]. split; [|split; [exact Him|]].
  - apply consistent_iff in Hcu.
    destruct Hcu as [Hd1 [Hd2 [Hfk [Hr1 Hr2]]]].
    apply consistent_iff. cbn [client client_phone]. repeat split; auto.
    + now apply distinct_map_filter.
    + unfold references_ok in *. cbn [client client_phone].
      rewrite forallb_forall in *. intros p Hp. apply filter_In in Hp.
      apply Hfk. tauto.
    + rewrite forallb_forall in *. intros p Hp. apply filter_In in Hp.
      apply Hr2. tauto.
  - apply ids_issued_iff in Hiu. destruct Hiu as [H1 H2].
    apply ids_issued_iff. cbn [client client_phone]. split; [exact H1|].
    intros p Hp. apply filter_In in Hp. apply H2. tauto.
Qed.

Lemma keeps_DELETE_FROM_client (cid : Z) :
  keeps (DELETE_FROM_client cid)
        (fun c e => e = ForeignKeyViolation
                    /\ existsb (fun p => phone_client_id p =? cid)%Z
                               (client_phone (current c)) = true).
Proof.
  intros c Hs. unfold DELETE_FROM_client.
  destruct (has_client cid (current c)
            && existsb (fun p => (phone_client_id p =? cid)%Z)
                       (client_phone (current c))) eqn:Hfkv.
  { apply andb_true_iff in Hfkv. cbn. repeat split; tauto. }
  cbn [fst snd]. split; [|cbn; repeat split; auto].
  apply sound_iff in Hs. destruct Hs as [Hcm [Hcu [Him Hiu]]].
  apply sound_iff. cbn [set_current committed current client_seq
                        client_phone_seq].
  split; [exact Hcm|]. split; [|split; [exact Him|]].
  - apply consistent_iff in Hcu.
    destruct Hcu as [Hd1 [Hd2 [Hfk [Hr1 Hr2]]]].
    apply consistent_iff. cbn [client client_phone]. repeat split; auto.
    + now apply distinct_map_filter.
    + unfold references_ok in *. cbn [client client_phone].
      rewrite forallb_forall in *. intros p Hp. specialize (Hfk p Hp).
      unfold has_client in Hfk |- *. cbn [client].
      apply existsb_exists in Hfk. destruct Hfk as [r [Hr E]].
      apply existsb_exists. exists r. split; [|exact E].
      apply filter_In. split; [exact Hr|]. apply negb_true_iff.
      destruct (client_id r =? cid)%Z eqn:Er; [|reflexivity].
      exfalso. apply Z.eqb_eq in E, Er.
      assert (has_client cid (current c) = true) as H1.
      { apply existsb_exists. exists r. split; [exact Hr|].
        now apply Z.eqb_eq. }
      assert (existsb (fun p => (phone_client_id p =? cid)%Z)
                      (client_phone (current c)) = true) as H2.
      { apply existsb_exists. exists p. split; [exact Hp|].
        apply Z.eqb_eq. congruence. }
      rewrite H1, H2 in Hfkv. discriminate.
    + rewrite forallb_forall in *. intros r Hr. apply filter_In in Hr.
      apply Hr1. tauto.
  - apply ids_issued_iff in Hiu. destruct Hiu as [H1 H2].
    apply ids_issued_iff. cbn [client client_phone]. split; [|exact H2].
    intros r Hr. apply filter_In in Hr. apply H1. tauto.
Qed.

(** ** What the methods keep *)

Lemma triple_execute_keeps {A} (q : statement A)
    (errs : connection -> pg_error -> Prop) (P : state -> Prop)
    (Q : A -> state -> Prop) (E : pg_error -> state -> Prop) :
  keeps q errs ->
  (forall st, P st -> usable st) ->
  (forall st a c, P st -> q (conn st) = (Ok a, c) ->
     sound c = true -> failed c = false ->
     committed c = committed (conn st) ->
     Q a {| conn := c; stdout := stdout st |}) ->
  (forall st e c, P st -> q (conn st) = (Err e, c) ->
     sound c = true -> committed c = committed (conn st) ->
     errs (conn st) e ->
     E e {| conn := set_failed c; stdout := stdout st |}) ->
  triple P (execute q) Q E.
Proof.
  intros Hk HP HQ HE. apply triple_execute.
  - intros st Hst Hf. destruct (HP st Hst) as [_ Hf']. congruence.
  - intros st Hst Hf. destruct (HP st Hst) as [Hs _].
    specialize (Hk (conn st) Hs).
    destruct (q (conn st)) as [[a|e] c] eqn:Eq; cbn [fst snd] in Hk.
    + destruct Hk as [Hs' [Hcm [Hfl [_ _]]]]. apply HQ; auto. congruence.
    + destruct Hk as [Hs' [Hcm [Hfl [_ [He _]]]]]. apply HE; auto.
Qed.

Lemma at_rest_commit (st : state) :
  usable st ->
  at_rest {| conn := conn_commit (conn st); stdout := stdout st |}.
Proof.
  intros [Hs Hf]. unfold at_rest. cbn [conn].
  split; [now apply sound_commit|]. split; reflexivity.
Qed.

Lemma del_client_phone_keeps (phone_id : Z) :
  triple usable (del_client_phone phone_id) (fun _ => at_rest)
         (aborted (fun _ => False)).
Proof.
  unfold del_client_phone. eapply triple_bind.
  - eapply (triple_execute_keeps _ _ _ (fun _ => usable));
      [apply keeps_DELETE_FROM_client_phone_by_id|auto| |].
    + intros st a c _ _ Hs Hf _. split; assumption.
    + intros st e c _ _ _ _ [].
  - intros []. apply triple_commit. apply at_rest_commit.
Qed.

Lemma update_client_keeps (id : Z) (fn ln em : sqltext) :
  triple usable (update_client id fn ln em) (fun _ => at_rest)
         (aborted (fun e => e = StringDataRightTruncation
                            \/ e = CheckViolation)).
Proof.
  unfold update_client. eapply triple_bind.
  - eapply (triple_execute_keeps _ _ _ (fun _ => usable));
      [apply keeps_UPDATE_client|auto| |].
    + intros st a c _ _ Hs Hf _. split; assumption.
    + intros st e c _ _ Hs _ He. split; [exact Hs|]. split; [reflexivity|].
      exact He.
  - intros n. apply triple_commit. apply at_rest_commit.
Qed.

Lemma del_client_keeps (cid : Z) :
  triple usable (del_client cid) (fun _ => at_rest)
         (aborted (fun _ => False)).
Proof.
  unfold del_client. eapply triple_bind.
  - eapply (triple_execute_keeps _ _ _
              (fun _ st => usable st
                 /\ existsb (fun p => phone_client_id p =? cid)%Z
                            (client_phone (current (conn st))) = false));
      [apply keeps_DELETE_FROM_client_phone|auto| |].
    + intros st a c _ Eq Hs Hf _. split; [split; assumption|].
      cbn [conn]. unfold DELETE_FROM_client_phone in Eq.
      injection Eq as _ <-. cbn. apply no_phone_left.
    + intros st e c _ _ _ _ [].
  - intros []. eapply triple_bind.
    + eapply (triple_execute_keeps _ _ _ (fun _ => usable));
        [apply keeps_DELETE_FROM_client|tauto| |].
      * intros st a c _ _ Hs Hf _. split; assumption.
      * intros st e c [_ Hno] _ _ _ [_ Hyes]. congruence.
    + intros []. apply triple_commit. apply at_rest_commit.
Qed.

Lemma INSERT_INTO_client_phone_clients (cid : Z) (ph : sqltext)
    (c c' : connection) (a : unit) :
  INSERT_INTO_client_phone cid ph c = (Ok a, c') ->
  client (current c') = client (current c).
Proof.
  unfold INSERT_INTO_client_phone.
  destruct (negb (int4 cid || has_client cid (current c))); [discriminate|].
  destruct (varchar 50 ph); [|discriminate].
  destruct (negb (check phone_regexp s)); [discriminate|].
  destruct (has_client_phone _ _); [discriminate|].
  destruct (negb (has_client cid (current c))); [discriminate|].
  intros [= _ <-]. reflexivity.
Qed.

Lemma _insert_client_phone_keeps (cid : Z) (p : sqltext) :
  triple usable (_insert_client_phone cid p) (fun _ => usable)
         (aborted (fun e => e = StringDataRightTruncation
                            \/ e = ForeignKeyViolation
                            \/ e = NumericValueOutOfRange)).
Proof.
  unfold _insert_client_phone.
  eapply (triple_try _ _ _ _ _
            (fun e st => sound (conn st) = true /\ failed (conn st) = true
                         /\ (e = StringDataRightTruncation
                             \/ e = CheckViolation
                             \/ e = ForeignKeyViolation
                             \/ e = NumericValueOutOfRange))).
  - eapply triple_execute_keeps;
      [apply keeps_INSERT_INTO_client_phone|auto| |].
    + intros st a c _ _ Hs Hf _. split; assumption.
    + intros st e c _ _ Hs _ He. split; [exact Hs|]. split; [reflexivity|].
      destruct He as [He|[He|[[He|He] _]]]; auto.
  - eapply triple_bind.
    + apply (triple_print _ _ (fun _ st => sound (conn st) = true)).
      intros st [Hs _]. exact Hs.
    + intros []. apply triple_rollback. intros st Hs. split.
      * cbn [conn]. now apply sound_rollback.
      * reflexivity.
  - intros e st Hne [Hs [Hf He]]. split; [exact Hs|]. split; [exact Hf|].
    destruct He as [He|[He|[He|He]]]; auto. contradiction.
Qed.

(** The phone loop of [add_client]: the client it inserts phones for is in
    the durable database and in the open transaction. *)
Lemma _insert_client_phone_keeps_client (cid : Z) (p : sqltext) :
  let Inv := fun st =>
    usable st /\ has_client cid (committed (conn st)) = true
    /\ has_client cid (current (conn st)) = true in
  triple Inv (_insert_client_phone cid p) (fun _ => Inv)
         (aborted (fun e => e = StringDataRightTruncation)).
Proof.
  intros Inv. unfold _insert_client_phone.
  eapply (triple_try _ _ _ _ _
            (fun e st => sound (conn st) = true /\ failed (conn st) = true
                         /\ has_client cid (committed (conn st)) = true
                         /\ (e = StringDataRightTruncation
                             \/ e = CheckViolation))).
  - eapply triple_execute_keeps;
      [apply keeps_INSERT_INTO_client_phone|unfold Inv; tauto| |].
    + intros st a c [_ [Hcm Hcu]] Eq Hs Hf Hsame.
      split; [split; assumption|]. cbn [conn]. split; [congruence|].
      unfold has_client in *.
      now rewrite (INSERT_INTO_client_phone_clients _ _ _ _ _ Eq).
    + intros st e c [_ [Hcm Hcu]] _ Hs Hsame He.
      split; [exact Hs|]. split; [reflexivity|]. cbn [conn set_failed committed].
      split; [congruence|].
      destruct He as [He|[He|[_ He]]]; auto. congruence.
  - eapply triple_bind.
    + apply (triple_print _ _
               (fun _ st => sound (conn st) = true
                            /\ has_client cid (committed (conn st)) = true)).
      intros st [Hs [_ [Hcm _]]]. split; assumption.
    + intros []. apply triple_rollback. intros st [Hs Hcm]. split; [split|].
      * cbn [conn]. now apply sound_rollback.
      * reflexivity.
      * cbn [conn conn_rollback committed current]. tauto.
  - intros e st Hne [Hs [Hf [_ He]]]. split; [exact Hs|]. split; [exact Hf|].
    destruct He as [He|He]; auto. contradiction.
Qed.

Lemma add_client_phone_keeps (cid : Z) (p : sqltext) :
  triple usable (add_client_phone cid p) (fun _ => at_rest)
         (aborted (fun e => e = StringDataRightTruncation
                            \/ e = ForeignKeyViolation
                            \/ e = NumericValueOutOfRange)).
Proof.
  unfold add_client_phone. eapply triple_bind.
  - apply _insert_client_phone_keeps.
  - intros []. apply triple_commit. apply at_rest_commit.
Qed.

Lemma INSERT_INTO_client_has_client (fn ln em : sqltext) (c c' : connection)
    (id : Z) :
  INSERT_INTO_client fn ln em c = (Ok id, c') ->
  has_client id (current c') = true.
Proof.
  unfold INSERT_INTO_client.
  destruct (varchar 100 fn); [|discriminate].
  destruct (varchar 100 ln); [|discriminate].
  destruct (varchar 100 em); [|discriminate].
  destruct (negb (check email_regexp s1)); [discriminate|].
  destruct (has_client _ _); [discriminate|].
  intros [= <- <-]. unfold has_client. cbn. rewrite existsb_app. cbn.
  now rewrite Z.eqb_refl, orb_true_r.
Qed.

Lemma add_client_keeps (fn ln em : sqltext) (pl : pyvalue) :
  triple usable (add_client fn ln em pl) (fun _ => at_rest)
         (aborted (fun e => e = StringDataRightTruncation)).
Proof.
  unfold add_client.
  eapply (triple_bind _ _ _
            (fun r st => at_rest st
               /\ match r with
                  | Some id => has_client id (committed (conn st)) = true
                  | None => True
                  end)).
  - eapply (triple_try _ _ _ _ _
              (fun e st => sound (conn st) = true /\ failed (conn st) = true
                           /\ (e = StringDataRightTruncation
                               \/ e = CheckViolation))).
    + eapply (triple_bind _ _ _
                (fun id st => usable st
                              /\ has_client id (current (conn st)) = true)).
      * eapply triple_execute_keeps;
          [apply keeps_INSERT_INTO_client|auto| |].
        -- intros st a c _ Eq Hs Hf _. split; [split; assumption|].
           cbn [conn]. eapply INSERT_INTO_client_has_client; eauto.
        -- intros st e c _ _ Hs _ He. split; [exact Hs|]. split; auto.
      * intros id. eapply (triple_bind _ _ _
                             (fun _ st => at_rest st
                                /\ has_client id (committed (conn st)) = true)).
        -- apply triple_commit. intros st [Hu Hid].
           split; [now apply at_rest_commit|].
           destruct Hu as [_ Hf]. cbn [conn conn_commit committed].
           now rewrite Hf.
        -- intros []. apply triple_ret. auto.
    + eapply triple_bind.
      * apply (triple_print _ _ (fun _ st => sound (conn st) = true)).
        intros st [Hs _]. exact Hs.
      * intros []. eapply (triple_bind _ _ _ (fun _ => at_rest)).
        -- apply triple_rollback. intros st Hs. split; [|split].
           ++ cbn [conn]. now apply sound_rollback.
           ++ reflexivity.
           ++ reflexivity.
        -- intros []. apply triple_ret. auto.
    + intros e st Hne [Hs [Hf He]]. split; [exact Hs|]. split; [exact Hf|].
      destruct He as [He|He]; auto. contradiction.
  - intros [id|]; [|apply triple_ret; intros st [H _]; exact H].
    eapply (triple_bind _ _ _ (fun _ => at_rest)).
    + destruct (is_not_None pl && isinstance_Iterable pl).
      * eapply (triple_bind _ _ _ (fun _ => usable)).
        -- eapply triple_weaken;
             [apply (triple_for_in (_insert_client_phone id)
                       (fun st => usable st
                          /\ has_client id (committed (conn st)) = true
                          /\ has_client id (current (conn st)) = true)
                       (aborted (fun e => e = StringDataRightTruncation)));
              intros x _; apply _insert_client_phone_keeps_client
             | | |].
           ++ intros st [[Hs [Hf Heq]] Hid]. split; [split; assumption|].
              split; [exact Hid|]. now rewrite Heq.
           ++ intros a st [H _]. exact H.
           ++ auto.
        -- intros []. apply triple_commit. apply at_rest_commit.
      * apply triple_ret. intros st [H _]. exact H.
    + intros []. apply triple_ret. auto.
Qed.

(** ** The connection between calls *)

Lemma column_of_field (key col : pystr) :
  getitem fields_to_search key = Some col -> column col <> None.
Proof.
  intros H.
  destruct (getitem_fields _ _ H) as [[_ ->]|[[_ ->]|[[_ ->]|[_ ->]]]];
    vm_compute; discriminate.
Qed.

(** The two reading methods leave the connection as it is. *)
Lemma find_client_conn (field_name : pystr) (field_value : sqltext)
    (st : state) :
  conn (snd (find_client field_name field_value st)) = conn st.
Proof.
  unfold find_client.
  destruct (getitem fields_to_search (lower field_name)) as [col|] eqn:E;
    [|reflexivity].
  apply column_of_field in E. unfold bind, execute, SELECT_DISTINCT_client.
  destruct (failed (conn st)); [reflexivity|].
  destruct (column col); [reflexivity|contradiction].
Qed.

Lemma print_all_clients_conn (pl : plan) (st : state) :
  conn (snd (print_all_clients pl st)) = conn st.
Proof.
  unfold print_all_clients, bind, execute, SELECT_client_GROUP_BY.
  destruct (failed (conn st)); [reflexivity|].
  now rewrite for_in_print.
Qed.

Lemma find_client_returns (field_name : pystr) (field_value : sqltext)
    (st : state) :
  failed (conn st) = false ->
  exists r, fst (find_client field_name field_value st) = Returned r.
Proof.
  intros Hf. unfold find_client.
  destruct (getitem fields_to_search (lower field_name)) as [col|] eqn:E;
    [|cbn; eauto].
  apply column_of_field in E. unfold bind, execute, SELECT_DISTINCT_client.
  rewrite Hf. destruct (column col); [cbn; eauto|contradiction].
Qed.

Lemma print_all_clients_returns (pl : plan) (st : state) :
  failed (conn st) = false ->
  fst (print_all_clients pl st) = Returned tt.
Proof.
  intros Hf.
  unfold print_all_clients, bind, execute, SELECT_client_GROUP_BY.
  rewrite Hf. now rewrite for_in_print.
Qed.

(** On an aborted transaction a call that executes a statement raises at
    its first statement and changes nothing. *)
Lemma perform_aborted (k : call) (st : state) :
  failed (conn st) = true ->
  executes k = true ->
  perform k st = (Some InFailedSqlTransaction, st).
Proof.
  intros Hf Hex.
  destruct k as [fn ln em pl|cid p|id fn ln em|pid|cid|f v|o]; cbn [perform].
  - unfold add_client, bind, try_except_CheckViolation, execute.
    now rewrite Hf.
  - unfold add_client_phone, _insert_client_phone, bind,
      try_except_CheckViolation, execute. now rewrite Hf.
  - unfold update_client, bind, execute. now rewrite Hf.
  - unfold del_client_phone, bind, execute. now rewrite Hf.
  - unfold del_client, bind, execute. now rewrite Hf.
  - cbn [executes] in Hex. unfold find_client.
    destruct (getitem fields_to_search (lower f)); [|discriminate].
    unfold bind, execute. now rewrite Hf.
  - unfold print_all_clients, bind, execute. now rewrite Hf.
Qed.

Lemma after_aborted_conn (k : call) (st : state) :
  failed (conn st) = true -> conn (after k st) = conn st.
Proof.
  intros Hf. unfold after. destruct (executes k) eqn:Hex.
  - now rewrite perform_aborted.
  - destruct k; try discriminate. cbn [perform executes] in *.
    unfold find_client.
    destruct (getitem fields_to_search (lower p)); [discriminate|].
    reflexivity.
Qed.

Lemma triple_raised {A} (m : M A) P Q E (st : state) :
  triple P m Q E -> P st ->
  match raised (m st) with
  | (None, st') => exists a, Q a st'
  | (Some e, st') => E e st'
  end.
Proof.
  intros Hm Hst. specialize (Hm st Hst).
  destruct (m st) as [[a|e] st']; cbn; eauto.
Qed.

(** A call on a sound connection that is not aborted: it returns with
    nothing pending, or raises one of its errors and leaves the transaction
    aborted; the connection is sound either way. *)
Lemma perform_usable (k : call) (st : state) :
  sound (conn st) = true ->
  failed (conn st) = false ->
  current (conn st) = committed (conn st) ->
  match perform k st with
  | (None, st') => at_rest st'
  | (Some e, st') => aborted (may_raise k) e st'
  end.
Proof.
  intros Hs Hf Hrest. assert (usable st) as Hu by (split; assumption).
  destruct k as [fn ln em pl|cid p|id fn ln em|pid|cid|f v|o];
    cbn [perform may_raise].
  - generalize (triple_raised _ _ _ _ st (add_client_keeps fn ln em pl) Hu).
    destruct (raised _) as [[e|] st']; [auto|]. now intros [_ H].
  - generalize (triple_raised _ _ _ _ st (add_client_phone_keeps cid p) Hu).
    destruct (raised _) as [[e|] st']; [auto|]. now intros [_ H].
  - generalize (triple_raised _ _ _ _ st
                  (update_client_keeps id fn ln em) Hu).
    destruct (raised _) as [[e|] st']; [auto|]. now intros [_ H].
  - generalize (triple_raised _ _ _ _ st (del_client_phone_keeps pid) Hu).
    destruct (raised _) as [[e|] st']; [auto|]. now intros [_ H].
  - generalize (triple_raised _ _ _ _ st (del_client_keeps cid) Hu).
    destruct (raised _) as [[e|] st']; [auto|]. now intros [_ H].
  - assert (Hc := find_client_conn f v st).
    destruct (find_client_returns f v st Hf) as [r Hr].
    destruct (find_client f v st) as [o st']. cbn [fst snd] in *. subst o.
    cbn [raised]. unfold at_rest. now rewrite Hc.
  - assert (Hc := print_all_clients_conn o st).
    assert (Hr := print_all_clients_returns o st Hf).
    destruct (print_all_clients o st) as [r st']. cbn [fst snd] in *. subst r.
    cbn [raised]. unfold at_rest. now rewrite Hc.
Qed.

Lemma after_keeps (k : call) (st : state) :
  sound (conn st) = true /\ settled (conn st) ->
  sound (conn (after k st)) = true /\ settled (conn (after k st)).
Proof.
  intros [Hs Hrest]. destruct (failed (conn st)) eqn:Hf.
  - rewrite (after_aborted_conn _ _ Hf). split; [exact Hs|].
    unfold settled. congruence.
  - assert (H := perform_usable k st Hs Hf (Hrest Hf)). unfold after.
    destruct (perform k st) as [[e|] st']; cbn [snd].
    + destruct H as [Hs' [Hf' _]]. split; [exact Hs'|].
      unfold settled. congruence.
    + destruct H as [Hs' [Hf' Hr']]. split; [exact Hs'|]. now intros _.
Qed.

Lemma run_keeps (ks : list call) (st : state) :
  sound (conn st) = true /\ settled (conn st) ->
  sound (conn (run ks st)) = true /\ settled (conn (run ks st)).
Proof.
  revert st. induction ks as [|k ks IH]; intros st H; [exact H|].
  cbn [run fold_left]. apply IH. now apply after_keeps.
Qed.




(** X3.  The errors of the backend a call can raise on a connection that
    is not aborted, for calls whose text the driver can send: [add_client]
    can raise only the too-long-value error; [add_client_phone] that, the
    foreign key violation or, for an identifier too large for its column,
    the out-of-range error; [update_client] the too-long-value error or the
    CHECK violation; and the other four methods raise nothing.  A call that
    raises leaves the transaction aborted; a call that returns leaves
    nothing pending. *)
Theorem raises_only (ks : list call) (k : call) :
  forallb sendable_call ks = true ->
  sendable_call k = true ->
  failed (conn (run ks connect)) = false ->
  match perform k (run ks connect) with
  | (Some e, st') => may_raise k e /\ failed (conn st') = true
  | (None, st') =>
      failed (conn st') = false
      /\ current (conn st') = committed (conn st')
  end.
Proof.
  intros _ _ Hf.
  assert (sound (conn connect) = true /\ settled (conn connect)) as H
    by (split; [reflexivity|intros _; reflexivity]).
  apply (run_keeps ks) in H. destruct H as [Hs Hrest].
  assert (H := perform_usable k _ Hs Hf (Hrest Hf)).
  destruct (perform k (run ks connect)) as [[e|] st'].
  - destruct H as [_ [H1 H2]]. auto.
  - destruct H as [_ H]. exact H.
Qed.

Lemma raises_only_witness :
  match perform (Add_client_phone 2147483648 (Some (u "12")))
          (run [Add_client (Some (u "A")) (Some (u "B")) None PyNone] connect)
  with
  | (Some e, st') =>
      may_raise (Add_client_phone 2147483648 (Some (u "12"))) e
      /\ failed (conn st') = true
  | (None, st') =>
      failed (conn st') = false
      /\ current (conn st') = committed (conn st')
  end.
Proof.
  exact (raises_only [Add_client (Some (u "A")) (Some (u "B")) None PyNone]
           (Add_client_phone 2147483648 (Some (u "12")))
           eq_refl eq_refl eq_refl).
Defined.

(** X4.  An aborted transaction is never left: no method rolls it back
    unless its own statement raised the CHECK violation, and on an aborted
    transaction no statement gets that far.  After a call has raised, every
    later call that executes a statement raises [InFailedSqlTransaction],
    and the connection stays as it is. *)
Theorem aborted_for_good (st : state) (ks : list call) (k : call) :
  failed (conn st) = true ->
  executes k = true ->
  conn (run ks st) = conn st
  /\ perform k (run ks st) = (Some InFailedSqlTransaction, run ks st).
Proof.
  intros Hf Hex.
  assert (conn (run ks st) = conn st) as Hc.
  { clear Hex. revert st Hf.
    induction ks as [|k0 ks IH]; intros st Hf; [reflexivity|].
    cbn [run fold_left]. fold (run ks (after k0 st)).
    assert (Hk := after_aborted_conn k0 st Hf).
    rewrite IH; [exact Hk|]. now rewrite Hk. }
  split; [exact Hc|].
  apply perform_aborted; [|exact Hex]. now rewrite Hc.
Qed.

Lemma aborted_for_good_witness :
  let st := after (Add_client_phone 7 (Some (u "12"))) connect in
  let ks := [Add_client (Some (u "A")) (Some (u "B")) None PyNone;
             Del_client 1] in
  conn (run ks st) = conn st
  /\ perform (Print_all_clients table_order) (run ks st)
     = (Some InFailedSqlTransaction, run ks st).
Proof.
  exact (aborted_for_good
           (after (Add_client_phone 7 (Some (u "12"))) connect)
           [Add_client (Some (u "A")) (Some (u "B")) None PyNone;
            Del_client 1]
           (Print_all_clients table_order) eq_refl eq_refl).
Defined.

(** X21.  The two reading methods never write: whatever the state and the
    arguments, [find_client] and [print_all_clients] leave the connection,
    that is both databases, the transaction and the sequences, as it
    was. *)
Theorem reading_keeps_connection (st : state) (field_name : pystr)
    (field_value : sqltext) (pl : plan) :
  conn (snd (find_client field_name field_value st)) = conn st
  /\ conn (snd (print_all_clients pl st)) = conn st.
Proof.
  split.
  - unfold find_client.
    destruct (getitem fields_to_search (lower field_name)) as [col|] eqn:E;
      [|reflexivity].
    apply column_of_field in E. unfold bind, execute, SELECT_DISTINCT_client.
    destruct (failed (conn st)); [reflexivity|].
    destruct (column col); [reflexivity|contradiction].
  - unfold print_all_clients, bind, execute, SELECT_client_GROUP_BY.
    destruct (failed (conn st)); [reflexivity|].
    now rewrite for_in_print.
Qed.

(** ** The matcher and the meaning *)

Lemma lang_Void_inv (w : pystr) : ~ lang Void w.
Proof. intros H. inversion H. Qed.

Lemma lang_Eps_inv (w : pystr) : lang Eps w -> w = [].
Proof. intros H. now inversion H. Qed.

Lemma lang_Class_inv (p : N -> bool) (w : pystr) :
  lang (Class p) w -> exists c, w = [c] /\ p c = true.
Proof. intros H. inversion H; subst. eauto. Qed.

Lemma lang_Cat_inv (a b : regex) (w : pystr) :
  lang (Cat a b) w -> exists s t, w = s ++ t /\ lang a s /\ lang b t.
Proof. intros H. inversion H; subst. eauto. Qed.

Lemma lang_Alt_inv (a b : regex) (w : pystr) :
  lang (Alt a b) w -> lang a w \/ lang b w.
Proof. intros H. inversion H; subst; auto. Qed.

Lemma nullable_lang (r : regex) : nullable r = true <-> lang r [].
Proof.
  induction r as [| |p|a IHa b IHb|a IHa b IHb|a IHa]; cbn.
  - split; [discriminate|]. intros H. now apply lang_Void_inv in H.
  - split; [constructor|reflexivity].
  - split; [discriminate|]. intros H. apply lang_Class_inv in H.
    destruct H as [c [H _]]. discriminate.
  - rewrite andb_true_iff, IHa, IHb. split.
    + intros [Ha Hb]. exact (lang_Cat a b [] [] Ha Hb).
    + intros H. apply lang_Cat_inv in H. destruct H as [s [t [E [Hs Ht]]]].
      symmetry in E. apply app_eq_nil in E. destruct E; subst. auto.
  - rewrite orb_true_iff, IHa, IHb. split.
    + intros [H|H]; [now apply lang_Alt_l|now apply lang_Alt_r].
    + apply lang_Alt_inv.
  - split; [constructor|reflexivity].
Qed.

Lemma lang_Star_step (a : regex) (c : N) (s : pystr) :
  lang (Star a) (c :: s) ->
  exists s1 s2, s = s1 ++ s2 /\ lang a (c :: s1) /\ lang (Star a) s2.
Proof.
  intros H. remember (Star a) as r eqn:Er. remember (c :: s) as w eqn:Ew.
  revert s Ew.
  induction H as [| | | | | |a0 s0 t0 Hs _ Ht IHt]; intros s' Ew;
    try discriminate.
  injection Er as ->. destruct s0 as [|c0 s0].
  - cbn in Ew. now apply IHt.
  - cbn in Ew. injection Ew as -> <-. eauto.
Qed.

Lemma deriv_lang (r : regex) :
  forall (c : N) (s : pystr), lang (deriv c r) s <-> lang r (c :: s).
Proof.
  induction r as [| |p|a IHa b IHb|a IHa b IHb|a IHa]; intros c s;
    cbn [deriv].
  - split; intros H; now apply lang_Void_inv in H.
  - split; intros H; [now apply lang_Void_inv in H|].
    apply lang_Eps_inv in H. discriminate.
  - destruct (p c) eqn:Hp; split; intros H.
    + apply lang_Eps_inv in H. subst. now constructor.
    + apply lang_Class_inv in H. destruct H as [c' [[= -> ->] _]].
      constructor.
    + now apply lang_Void_inv in H.
    + apply lang_Class_inv in H. destruct H as [c' [[= -> ->] H]].
      congruence.
  - assert (lang (Cat (deriv c a) b) s
            <-> exists s1 s2, s = s1 ++ s2 /\ lang a (c :: s1) /\ lang b s2)
      as Hcat.
    { split.
      - intros H. apply lang_Cat_inv in H.
        destruct H as [s1 [s2 [-> [H1 H2]]]]. apply IHa in H1. eauto.
      - intros [s1 [s2 [-> [H1 H2]]]]. apply IHa in H1. now constructor. }
    assert (lang (Cat a b) (c :: s)
            <-> (exists s1 s2, s = s1 ++ s2 /\ lang a (c :: s1) /\ lang b s2)
                \/ (lang a [] /\ lang b (c :: s))) as Hsplit.
    { split.
      - intros H. apply lang_Cat_inv in H.
        destruct H as [s1 [s2 [E [H1 H2]]]].
        destruct s1 as [|c1 s1]; cbn in E.
        + right. subst. auto.
        + left. injection E as -> ->. eauto.
      - intros [[s1 [s2 [-> [H1 H2]]]]|[H1 H2]].
        + exact (lang_Cat a b (c :: s1) s2 H1 H2).
        + exact (lang_Cat a b [] (c :: s) H1 H2). }
    rewrite Hsplit. destruct (nullable a) eqn:Hn.
    + split.
      * intros H. apply lang_Alt_inv in H. destruct H as [H|H].
        -- left. now apply Hcat.
        -- right. split; [now apply nullable_lang|now apply IHb].
      * intros [H|[H1 H2]].
        -- apply lang_Alt_l. now apply Hcat.
        -- apply lang_Alt_r. now apply IHb.
    + rewrite Hcat. split; [auto|]. intros [H|[H1 _]]; [exact H|].
      apply nullable_lang in H1. congruence.
  - split; intros H.
    + apply lang_Alt_inv in H. destruct H as [H|H];
        [apply lang_Alt_l; now apply IHa|apply lang_Alt_r; now apply IHb].
    + apply lang_Alt_inv in H. destruct H as [H|H];
        [apply lang_Alt_l; now apply IHa|apply lang_Alt_r; now apply IHb].
  - split; intros H.
    + apply lang_Cat_inv in H. destruct H as [s1 [s2 [-> [H1 H2]]]].
      apply IHa in H1. exact (lang_Star_cons a (c :: s1) s2 H1 H2).
    + apply lang_Star_step in H. destruct H as [s1 [s2 [-> [H1 H2]]]].
      apply IHa in H1. now constructor.
Qed.

Lemma matches_lang (s : pystr) :
  forall r : regex, matches r s = true <-> lang r s.
Proof.
  induction s as [|c s IH]; intros r; cbn [matches].
  - apply nullable_lang.
  - rewrite IH. apply deriv_lang.
Qed.

Lemma lang_Chr (c : N) (s : pystr) : lang (Chr c) s <-> s = [c].
Proof.
  unfold Chr. split.
  - intros H. apply lang_Class_inv in H. destruct H as [c' [-> H]].
    apply N.eqb_eq in H. now subst.
  - intros ->. constructor. apply N.eqb_refl.
Qed.

Lemma lang_Opt (r : regex) (s : pystr) : lang (Opt r) s <-> s = [] \/ lang r s.
Proof.
  unfold Opt. split.
  - intros H. apply lang_Alt_inv in H. destruct H as [H|H]; [|now right].
    left. now apply lang_Eps_inv.
  - intros [->|H]; [apply lang_Alt_l; constructor|now apply lang_Alt_r].
Qed.

Lemma lang_Star_Class (p : N -> bool) (s : pystr) :
  lang (Star (Class p)) s <-> forallb p s = true.
Proof.
  split.
  - intros H. remember (Star (Class p)) as r eqn:Er.
    induction H as [| | | | | |a s0 t0 Hs _ Ht IHt]; try discriminate;
      [reflexivity|].
    injection Er as ->. apply lang_Class_inv in Hs.
    destruct Hs as [c [-> Hc]]. cbn. rewrite Hc. now apply IHt.
  - induction s as [|c s IH]; intros H; [constructor|].
    cbn in H. apply andb_true_iff in H. destruct H as [Hc Hs].
    apply (lang_Star_cons (Class p) [c] s); [now constructor|now apply IH].
Qed.

Lemma lang_Plus_Class (p : N -> bool) (s : pystr) :
  lang (Plus (Class p)) s <-> s <> [] /\ forallb p s = true.
Proof.
  unfold Plus. split.
  - intros H. apply lang_Cat_inv in H. destruct H as [s1 [s2 [-> [H1 H2]]]].
    apply lang_Class_inv in H1. destruct H1 as [c [-> Hc]].
    apply lang_Star_Class in H2. cbn. rewrite Hc, H2.
    split; [discriminate|reflexivity].
  - intros [Hne H]. destruct s as [|c s]; [contradiction|].
    cbn in H. apply andb_true_iff in H. destruct H as [Hc Hs].
    apply (lang_Cat (Class p) (Star (Class p)) [c] s); [now constructor|].
    now apply lang_Star_Class.
Qed.

Lemma lang_digits_1_4 (d : N -> bool) (s : pystr) :
  lang (digits_1_4 d) s
  <-> (1 <= length s <= 4)%nat /\ forallb d s = true.
Proof.
  unfold digits_1_4. split.
  - intros H. apply lang_Cat_inv in H. destruct H as [s1 [r1 [-> [H1 H]]]].
    apply lang_Class_inv in H1. destruct H1 as [c1 [-> Hc1]].
    cbn [app length forallb]. rewrite Hc1.
    apply lang_Opt in H. destruct H as [->|H]; [cbn; split; [lia|auto]|].
    apply lang_Cat_inv in H. destruct H as [s2 [r2 [-> [H2 H]]]].
    apply lang_Class_inv in H2. destruct H2 as [c2 [-> Hc2]].
    cbn [app length forallb]. rewrite Hc2.
    apply lang_Opt in H. destruct H as [->|H]; [cbn; split; [lia|auto]|].
    apply lang_Cat_inv in H. destruct H as [s3 [r3 [-> [H3 H]]]].
    apply lang_Class_inv in H3. destruct H3 as [c3 [-> Hc3]].
    cbn [app length forallb]. rewrite Hc3.
    apply lang_Opt in H. destruct H as [->|H]; [cbn; split; [lia|auto]|].
    apply lang_Class_inv in H. destruct H as [c4 [-> Hc4]].
    cbn. rewrite Hc4. split; [lia|auto].
  - intros [Hlen Hd].
    destruct s as [|c1 s]; [cbn in Hlen; lia|].
    cbn in Hd. apply andb_true_iff in Hd. destruct Hd as [H1 Hd].
    apply (lang_Cat _ _ [c1] s); [now constructor|].
    apply lang_Opt. destruct s as [|c2 s]; [now left|right].
    cbn in Hd. apply andb_true_iff in Hd. destruct Hd as [H2 Hd].
    apply (lang_Cat _ _ [c2] s); [now constructor|].
    apply lang_Opt. destruct s as [|c3 s]; [now left|right].
    cbn in Hd. apply andb_true_iff in Hd. destruct Hd as [H3 Hd].
    apply (lang_Cat _ _ [c3] s); [now constructor|].
    apply lang_Opt. destruct s as [|c4 s]; [now left|right].
    cbn in Hd. apply andb_true_iff in Hd. destruct Hd as [H4 Hd].
    destruct s as [|c5 s]; [now constructor|cbn in Hlen; lia].
Qed.

Lemma forallb_weaken {A} (p q : A -> bool) (l : list A) :
  (forall x, p x = true -> q x = true) ->
  forallb p l = true -> forallb q l = true.
Proof.
  intros Hpq. rewrite !forallb_forall. auto.
Qed.

(** *** The classes and the locale *)

Lemma digit_in_is_digit (lc : ctype) (c : N) :
  is_digit c = true -> digit_in lc c = true.
Proof. intros H. unfold digit_in. now rewrite H. Qed.

Lemma phone_tail_in_digit (lc : ctype) (c : N) :
  digit_in lc c = true -> phone_tail_in lc c = true.
Proof. intros H. unfold phone_tail_in. rewrite H. now rewrite !orb_true_r. Qed.

Lemma phone_char_in_tail (lc : ctype) (c : N) :
  phone_tail_in lc c = true -> phone_char_in lc c = true.
Proof. intros H. unfold phone_char_in. rewrite H. now rewrite !orb_true_r. Qed.

(** No letter of ASCII is a phone character, in whatever locale. *)
Lemma phone_char_in_not_alpha (lc : ctype) (c : N) :
  phone_char_in lc c = true -> is_alpha c = false.
Proof.
  unfold phone_char_in, phone_tail_in, space_in, digit_in, is_digit, is_ascii,
    is_alpha.
  intros H. destruct (_ || _) eqn:E in |- *; [|reflexivity]. exfalso.
  repeat match goal with
  | G : _ || _ = true |- _ => apply orb_true_iff in G; destruct G as [G|G]
  | G : _ && _ = true |- _ => apply andb_true_iff in G; destruct G
  | G : negb _ = true |- _ => apply negb_true_iff in G
  | G : (_ =? _)%N = true |- _ => apply N.eqb_eq in G
  | G : (_ <=? _)%N = true |- _ => apply N.leb_le in G
  | G : (_ <=? _)%N = false |- _ => apply N.leb_gt in G
  end; lia.
Qed.





(** X17.  The CHECK on [client.email] accepts exactly the strings of the
    form [a@b.c] where [a] and [b] are not empty and made of word
    characters, dashes and dots, and [c] is not empty and made of word
    characters, a word character being a letter or digit of ASCII, the
    underscore, or a code point above 127 that the locale of the database
    counts as a letter or digit (none in the C locale). *)
Theorem email_regexp_accepts (lc : ctype) (s : pystr) :
  matches (email_regexp_in lc) s = true
  <-> exists a b c,
        s = a ++ u "@" ++ b ++ u "." ++ c
        /\ a <> [] /\ forallb (word_dash_dot_in lc) a = true
        /\ b <> [] /\ forallb (word_dash_dot_in lc) b = true
        /\ c <> [] /\ forallb (word_in lc) c = true.
Proof.
  rewrite matches_lang. unfold email_regexp_in.
  change (u "@") with [64%N]. change (u ".") with [46%N]. split.
  - intros H.
    apply lang_Cat_inv in H. destruct H as [a [r1 [-> [Ha H]]]].
    apply lang_Cat_inv in H. destruct H as [at_ [r2 [-> [Hat H]]]].
    apply lang_Cat_inv in H. destruct H as [b [r3 [-> [Hb H]]]].
    apply lang_Cat_inv in H. destruct H as [dot [c [-> [Hdot Hc]]]].
    apply lang_Chr in Hat, Hdot. subst.
    apply lang_Plus_Class in Ha, Hb, Hc.
    exists a, b, c. tauto.
  - intros [a [b [c [-> [Ha [Hpa [Hb [Hpb [Hc Hpc]]]]]]]]].
    apply lang_Cat; [now apply lang_Plus_Class|].
    apply lang_Cat; [now apply lang_Chr|].
    apply lang_Cat; [now apply lang_Plus_Class|].
    apply lang_Cat; [now apply lang_Chr|].
    now apply lang_Plus_Class.
Qed.


(** X19.  Whatever the locale of the database, a phone that passes the
    CHECK has a digit in it and is made of digits, dashes, dots, slashes,
    white space, parentheses and the plus sign only (digits and white space
    as the locale counts them); no letter of ASCII is one of these, so no
    phone with such a letter is ever stored. *)
Theorem phone_regexp_needs (lc : ctype) (s : pystr) :
  matches (phone_regexp_in lc) s = true ->
  (exists c, In c s /\ digit_in lc c = true)
  /\ forallb (phone_char_in lc) s = true
  /\ (forall c, In c s -> is_alpha c = false).
Proof.
  intros H. apply matches_lang in H. unfold phone_regexp_in in H.
  apply lang_Cat_inv in H. destruct H as [s1 [r1 [-> [H1 H]]]].
  apply lang_Cat_inv in H. destruct H as [s2 [r2 [-> [H2 H]]]].
  apply lang_Cat_inv in H. destruct H as [s3 [r3 [-> [H3 H]]]].
  apply lang_Cat_inv in H. destruct H as [s4 [r4 [-> [H4 H]]]].
  apply lang_Cat_inv in H. destruct H as [s5 [s6 [-> [H5 H6]]]].
  apply lang_Opt in H1, H2, H3, H5. rewrite lang_Chr in H1, H3, H5.
  apply lang_digits_1_4 in H4. destruct H4 as [L4 H4].
  apply lang_Star_Class in H6.
  assert (forall x, digit_in lc x = true -> phone_char_in lc x = true)
    as Hdig
    by (intros x Hx; now apply phone_char_in_tail, phone_tail_in_digit).
  assert (forallb (phone_char_in lc) (s1 ++ s2 ++ s3 ++ s4 ++ s5 ++ s6)
          = true) as Hall.
  { rewrite !forallb_app. repeat (apply andb_true_iff; split).
    - destruct H1 as [->| ->]; reflexivity.
    - destruct H2 as [->|H2]; [reflexivity|].
      apply lang_Class_inv in H2. destruct H2 as [c [-> Hc]]. cbn.
      now rewrite (Hdig c Hc).
    - destruct H3 as [->| ->]; reflexivity.
    - now apply (forallb_weaken (digit_in lc)).
    - destruct H5 as [->| ->]; reflexivity.
    - apply (forallb_weaken (phone_tail_in lc)); [|exact H6].
      apply phone_char_in_tail. }
  split; [|split; [exact Hall|]].
  - destruct s4 as [|c s4]; [cbn in L4; lia|]. exists c. split.
    + do 3 (apply in_or_app; right). apply in_or_app. left. now left.
    + cbn in H4. now apply andb_true_iff in H4.
  - intros c Hc. rewrite forallb_forall in Hall.
    exact (phone_char_in_not_alpha lc c (Hall c Hc)).
Qed.

Lemma phone_regexp_needs_witness :
  (exists c, In c (u "+0(000) 000 00 00") /\ digit_in C_locale c = true)
  /\ forallb (phone_char_in C_locale) (u "+0(000) 000 00 00") = true
  /\ (forall c, In c (u "+0(000) 000 00 00") -> is_alpha c = false).
Proof.
  exact (phone_regexp_needs C_locale (u "+0(000) 000 00 00") eq_refl).
Defined.

(** X23.  Every string of digits that is not empty passes the CHECK on
    [client_phone.phone], whatever its length; the empty string does not. *)
Theorem phone_regexp_digits (s : pystr) :
  forallb is_digit s = true ->
  (matches phone_regexp s = true <-> s <> []).
Proof.
  intros Hd. split.
  - intros H ->. discriminate.
  - intros Hne. destruct s as [|c s]; [contradiction|].
    cbn in Hd. apply andb_true_iff in Hd. destruct Hd as [Hc Hs].
    apply (digit_in_is_digit C_locale) in Hc.
    apply matches_lang. unfold phone_regexp, phone_regexp_in.
    apply (lang_Cat _ _ [] (c :: s)); [apply lang_Opt; now left|].
    apply (lang_Cat _ _ [] (c :: s)); [apply lang_Opt; now left|].
    apply (lang_Cat _ _ [] (c :: s)); [apply lang_Opt; now left|].
    apply (lang_Cat _ _ [c] s).
    { apply lang_digits_1_4. cbn [length forallb]. rewrite Hc.
      split; [lia|reflexivity]. }
    apply (lang_Cat _ _ [] s); [apply lang_Opt; now left|].
    apply lang_Star_Class. apply (forallb_weaken is_digit); [|exact Hs].
    intros x Hx. now apply phone_tail_in_digit, digit_in_is_digit.
Qed.

Lemma phone_regexp_digits_witness :
  matches phone_regexp (u "1234567890") = true <-> u "1234567890" <> [].
Proof. exact (phone_regexp_digits (u "1234567890") eq_refl). Defined.



(** Outside ASCII the locale decides.  An email in Cyrillic letters fails
    the CHECK of the C locale and passes that of a locale that has these
    letters; so it is with a phone whose groups are set apart by an em
    space (U+2003). *)
Example check_outside_ascii :
  matches email_regexp (u "иван@почта.рф") = false
  /\ matches (email_regexp_in cyrillic_locale) (u "иван@почта.рф") = true
  /\ matches phone_regexp [49; 50; 8195; 51; 52]%N = false
  /\ matches (phone_regexp_in cyrillic_locale) [49; 50; 8195; 51; 52]%N
     = true.
Proof. vm_compute. repeat split. Qed.

(** ** add_client_phone *)





(** X7.  A phone for a client that does not exist, under an identifier
    that the [integer] column can hold: the foreign key violation is not
    handled.  [add_client_phone] raises it, prints nothing, stores nothing
    and leaves the transaction aborted; the identifier the insert drew is
    spent. *)
Theorem add_client_phone_unknown_client (st : state) (client_id : Z)
    (phone : sqltext) :
  failed (conn st) = false ->
  int4 client_id = true ->
  seq_ahead (conn st) = true ->
  fits 50 phone = true ->
  bad_phone phone = false ->
  has_client client_id (current (conn st)) = false ->
  exists st',
    add_client_phone client_id phone st = (Raised ForeignKeyViolation, st')
    /\ committed (conn st') = committed (conn st)
    /\ current (conn st') = current (conn st)
    /\ failed (conn st') = true
    /\ client_phone_seq (conn st') = (client_phone_seq (conn st) + 1)%Z
    /\ stdout st' = stdout st.
Proof.
  intros Hf Hid Hseq Hfit Hok Hcl. destruct st as [c out].
  cbn [conn stdout] in *.
  unfold add_client_phone, bind, _insert_client_phone,
    try_except_CheckViolation, execute, INSERT_INTO_client_phone.
  cbn [conn stdout]. rewrite Hf, Hid, (varchar_fits _ _ Hfit). cbn [orb negb].
  unfold bad_phone in Hok. rewrite Hok. cbn [negb].
  unfold seq_ahead in Hseq. apply andb_true_iff in Hseq.
  destruct Hseq as [_ Hseq]. apply fresh_phone in Hseq.
  unfold has_client_phone. rewrite Hseq, Hcl. cbn [negb].
  eexists. split; [reflexivity|]. cbn. repeat split.
Qed.

Lemma add_client_phone_unknown_client_witness :
  exists st',
    add_client_phone 7 (Some (u "12")) connect
    = (Raised ForeignKeyViolation, st')
    /\ committed (conn st') = committed (conn connect)
    /\ current (conn st') = current (conn connect)
    /\ failed (conn st') = true
    /\ client_phone_seq (conn st') = 1%Z
    /\ stdout st' = stdout connect.
Proof.
  exact (add_client_phone_unknown_client connect 7 (Some (u "12"))
           eq_refl eq_refl eq_refl eq_refl eq_refl eq_refl).
Defined.

(** X24.  A client identifier that the [integer] column cannot hold and
    that names no client: [add_client_phone] raises the out-of-range error,
    whatever the phone, also for a phone that fails the CHECK or is too
    long.  Nothing is printed, nothing is stored, no identifier is drawn
    from the sequence, and the transaction is left aborted. *)
Theorem add_client_phone_out_of_range (st : state) (client_id : Z)
    (phone : sqltext) :
  failed (conn st) = false ->
  int4 client_id = false ->
  has_client client_id (current (conn st)) = false ->
  exists st',
    add_client_phone client_id phone st
    = (Raised NumericValueOutOfRange, st')
    /\ committed (conn st') = committed (conn st)
    /\ current (conn st') = current (conn st)
    /\ failed (conn st') = true
    /\ client_phone_seq (conn st') = client_phone_seq (conn st)
    /\ log (conn st') = log (conn st)
    /\ stdout st' = stdout st.
Proof.
  intros Hf Hid Hcl. destruct st as [c out]. cbn [conn stdout] in *.
  unfold add_client_phone, bind, _insert_client_phone,
    try_except_CheckViolation, execute, INSERT_INTO_client_phone.
  cbn [conn stdout]. rewrite Hf, Hid, Hcl. cbn [orb negb].
  eexists. split; [reflexivity|]. cbn. repeat split.
Qed.

Lemma add_client_phone_out_of_range_witness :
  exists st',
    add_client_phone 2147483648 (Some (u "bad phone!!")) connect
    = (Raised NumericValueOutOfRange, st')
    /\ committed (conn st') = committed (conn connect)
    /\ current (conn st') = current (conn connect)
    /\ failed (conn st') = true
    /\ client_phone_seq (conn st') = 0%Z
    /\ log (conn st') = []
    /\ stdout st' = [].
Proof.
  exact (add_client_phone_out_of_range connect 2147483648
           (Some (u "bad phone!!")) eq_refl eq_refl eq_refl).
Defined.

(** ** del_client_phone *)

(** X8.  [del_client_phone] removes the phone of that identifier and no
    other row; when no phone has the identifier it changes nothing.  It
    raises nothing either way. *)
Theorem del_client_phone_removes (st : state) (phone_id : Z) :
  failed (conn st) = false ->
  exists st',
    del_client_phone phone_id st = (Returned tt, st')
    /\ (forall p,
          In p (client_phone (committed (conn st')))
          <-> In p (client_phone (current (conn st)))
              /\ client_phone_id p <> phone_id)
    /\ client (committed (conn st')) = client (current (conn st))
    /\ (has_client_phone phone_id (current (conn st)) = false ->
        committed (conn st') = current (conn st))
    /\ current (conn st') = committed (conn st')
    /\ stdout st' = stdout st.
Proof.
  intros Hf. destruct st as [[cm [cl ph] f cs ps lg] out].
  cbn [conn stdout failed current client client_phone] in *. subst f.
  unfold del_client_phone, bind, execute, commit,
    DELETE_FROM_client_phone_by_id. cbn.
  eexists. split; [reflexivity|]. cbn. split; [|split; [reflexivity|split]].
  - intros p. rewrite filter_In, negb_true_iff, Z.eqb_neq. tauto.
  - intros Hno. f_equal. unfold has_client_phone in Hno. cbn in Hno.
    apply forallb_filter_id. apply forallb_forall. intros p Hp.
    apply negb_true_iff.
    destruct (client_phone_id p =? phone_id)%Z eqn:E; [|reflexivity].
    assert (existsb (fun r => (client_phone_id r =? phone_id)%Z) ph = true)
      as H by (apply existsb_exists; eauto).
    congruence.
  - split; reflexivity.
Qed.

Lemma del_client_phone_removes_witness :
  let st :=
    snd (add_client (Some (u "A")) (Some (u "B")) None
           (PyList [Some (u "12"); Some (u "34")]) connect) in
  exists st',
    del_client_phone 1 st = (Returned tt, st')
    /\ (forall p,
          In p (client_phone (committed (conn st')))
          <-> In p [phone_row 1 1 (Some (u "12")); phone_row 2 1 (Some (u "34"))]
              /\ client_phone_id p <> 1%Z)
    /\ client (committed (conn st')) = client (current (conn st))
    /\ (has_client_phone 1 (current (conn st)) = false ->
        committed (conn st') = current (conn st))
    /\ current (conn st') = committed (conn st')
    /\ stdout st' = stdout st.
Proof.
  exact (del_client_phone_removes
           (snd (add_client (Some (u "A")) (Some (u "B")) None
                   (PyList [Some (u "12"); Some (u "34")]) connect))
           1 eq_refl).
Defined.

(** ** del_client, again *)

Lemma del_client_run (cid : Z) (st : state) :
  failed (conn st) = false ->
  del_client cid st
  = (Returned tt,
     {| conn :=
          conn_commit
            (set_current
               {| client :=
                    filter (fun r => negb (client_id r =? cid)%Z)
                           (client (current (conn st)));
                  client_phone :=
                    filter (fun p => negb (phone_client_id p =? cid)%Z)
                           (client_phone (current (conn st))) |}
               (conn st));
        stdout := stdout st |}).
Proof.
  intros Hf. destruct st as [[cm [cl ph] f cs ps lg] out].
  cbn [conn current failed client client_phone stdout] in *. subst f.
  unfold del_client, bind, execute, commit, DELETE_FROM_client_phone,
    DELETE_FROM_client, set_current.
  cbn [conn stdout committed current failed client_seq client_phone_seq log
       client client_phone].
  rewrite no_phone_left, andb_false_r. reflexivity.
Qed.

Lemma filter_twice {A} (f : A -> bool) (l : list A) :
  filter f (filter f l) = filter f l.
Proof. apply forallb_filter_id. apply forallb_filter. Qed.

(** X9.  Deleting a client a second time changes nothing and raises
    nothing: [del_client] on an identifier that is gone is a call without
    effect on the data. *)
Theorem del_client_twice (st : state) (client_id : Z) :
  failed (conn st) = false ->
  exists st1 st2,
    del_client client_id st = (Returned tt, st1)
    /\ del_client client_id st1 = (Returned tt, st2)
    /\ committed (conn st2) = committed (conn st1)
    /\ stdout st2 = stdout st1.
Proof.
  intros Hf. rewrite (del_client_run _ _ Hf). eexists. eexists.
  split; [reflexivity|]. rewrite del_client_run by reflexivity.
  split; [reflexivity|]. cbn. rewrite Hf. cbn. rewrite !filter_twice.
  split; reflexivity.
Qed.

Lemma del_client_twice_witness :
  let st :=
    snd (add_client (Some (u "A")) (Some (u "B")) None
           (PyList [Some (u "12")]) connect) in
  exists st1 st2,
    del_client 1 st = (Returned tt, st1)
    /\ del_client 1 st1 = (Returned tt, st2)
    /\ committed (conn st2) = committed (conn st1)
    /\ stdout st2 = stdout st1.
Proof.
  exact (del_client_twice
           (snd (add_client (Some (u "A")) (Some (u "B")) None
                   (PyList [Some (u "12")]) connect))
           1 eq_refl).
Defined.

(** ** add_client, then another call *)

Lemma loop_rows_owner (cid : Z) (l : list sqltext) :
  forall (n : Z) (acc : list client_phone_row) (row : client_phone_row),
  In row (loop_rows cid n acc l) ->
  In row acc \/ phone_client_id row = cid.
Proof.
  induction l as [|p r IH]; intros n acc row H; [now left|].
  cbn [loop_rows] in H. destruct (bad_phone p).
  - apply IH in H. destruct H as [[]|H]. now right.
  - apply IH in H. destruct H as [H|H]; [|now right].
    apply in_app_or in H. destruct H as [H|[<-|[]]]; [now left|now right].
Qed.

(** The state [add_client] leaves when the backend accepts the client and
    every phone of the list fits its column. *)
Lemma add_client_state (st : state) (fn ln em : sqltext) (pl : pyvalue) :
  failed (conn st) = false ->
  fits 100 fn = true -> fits 100 ln = true -> fits 100 em = true ->
  check email_regexp em = true ->
  seq_ahead (conn st) = true ->
  forallb (fits 50) (iter pl) = true ->
  exists st' rows,
    add_client fn ln em pl st
    = (Returned (Some (client_seq (conn st) + 1)%Z), st')
    /\ failed (conn st') = false
    /\ current (conn st') = committed (conn st')
    /\ client (committed (conn st'))
       = client (current (conn st))
         ++ [new_client (client_seq (conn st) + 1) fn ln em]
    /\ client_phone (committed (conn st'))
       = client_phone (current (conn st)) ++ rows
    /\ (forall row, In row rows ->
          phone_client_id row = (client_seq (conn st) + 1)%Z)
    /\ (is_not_None pl && isinstance_Iterable pl = false -> rows = [])
    /\ (is_not_None pl && isinstance_Iterable pl = false ->
        stdout st' = stdout st).
Proof.
  intros Hf Hfn Hln Hem Hck Hseq Hfit.
  rewrite (add_client_accepted st fn ln em Hf Hfn Hln Hem Hck Hseq pl Hfit).
  destruct (is_not_None pl && isinstance_Iterable pl).
  - eexists. eexists. split; [reflexivity|]. cbn. repeat split; try discriminate.
    intros row Hrow. apply loop_rows_owner in Hrow.
    destruct Hrow as [[]|H]. exact H.
  - exists {| conn :=
               {| committed :=
                    {| client := client (current (conn st))
                                 ++ [new_client (client_seq (conn st) + 1)
                                                fn ln em];
                       client_phone := client_phone (current (conn st)) |};
                  current :=
                    {| client := client (current (conn st))
                                 ++ [new_client (client_seq (conn st) + 1)
                                                fn ln em];
                       client_phone := client_phone (current (conn st)) |};
                  failed := false;
                  client_seq := client_seq (conn st) + 1;
                  client_phone_seq := client_phone_seq (conn st);
                  log := log (conn st)
                         ++ [Commit
                               {| client := client (current (conn st))
                                  ++ [new_client (client_seq (conn st) + 1)
                                                 fn ln em];
                                  client_phone :=
                                    client_phone (current (conn st)) |}] |};
             stdout := stdout st |}.
    exists []. split; [reflexivity|]. cbn. rewrite app_nil_r.
    repeat split. intros row [].
Qed.

Lemma filter_none {A} (f : A -> bool) (l : list A) :
  (forall x, In x l -> f x = false) -> filter f l = [].
Proof.
  induction l as [|a l IH]; intros H; [reflexivity|]. cbn.
  rewrite (H a (or_introl eq_refl)). apply IH. intros x Hx. apply H.
  now right.
Qed.

Lemma filter_all {A} (f : A -> bool) (l : list A) :
  (forall x, In x l -> f x = true) -> filter f l = l.
Proof.
  intros H. apply forallb_filter_id. now apply forallb_forall.
Qed.

(** X10.  [del_client] undoes [add_client]: deleting the client a call of
    [add_client] has just created, with whatever phones the call stored,
    gives back the tables as they were before the two calls.  (It does not
    give back the identifiers: the sequences stay advanced.) *)
Theorem add_client_del_client (st : state) (first_name last_name email : sqltext)
    (phone_list : pyvalue) :
  failed (conn st) = false ->
  fits 100 first_name = true ->
  fits 100 last_name = true ->
  fits 100 email = true ->
  check email_regexp email = true ->
  seq_ahead (conn st) = true ->
  references_ok (current (conn st)) = true ->
  forallb (fits 50) (iter phone_list) = true ->
  exists id st1 st2,
    add_client first_name last_name email phone_list st
    = (Returned (Some id), st1)
    /\ del_client id st1 = (Returned tt, st2)
    /\ committed (conn st2) = current (conn st)
    /\ client_seq (conn st2) = id.
Proof.
  intros Hf Hfn Hln Hem Hck Hseq Hfk Hfit.
  destruct (add_client_state st _ _ _ phone_list Hf Hfn Hln Hem Hck Hseq Hfit)
    as [st1 [rows [Hrun [Hf1 [Hrest [Hcl [Hph [Hown _]]]]]]]].
  exists (client_seq (conn st) + 1)%Z, st1. eexists.
  split; [exact Hrun|]. split; [apply del_client_run; exact Hf1|].
  cbn [conn conn_commit set_current committed current failed client_seq].
  rewrite Hf1, Hrest, Hcl, Hph.
  assert (forall r, In r (client (current (conn st))) ->
            (client_id r <= client_seq (conn st))%Z) as Hids.
  { unfold seq_ahead in Hseq. apply andb_true_iff in Hseq.
    destruct Hseq as [H _]. rewrite forallb_forall in H.
    intros r Hr. specialize (H r Hr). lia. }
  split.
  - destruct (current (conn st)) as [cl ph] eqn:Edb. cbn [client client_phone] in *.
    f_equal.
    + rewrite filter_app. cbn. rewrite Z.eqb_refl. cbn. rewrite app_nil_r.
      apply filter_all. intros r Hr. apply negb_true_iff, Z.eqb_neq.
      specialize (Hids r Hr). lia.
    + rewrite filter_app.
      rewrite (filter_none _ rows).
      * rewrite app_nil_r. apply filter_all. intros p Hp.
        apply negb_true_iff, Z.eqb_neq.
        unfold references_ok in Hfk. cbn [client client_phone] in Hfk.
        rewrite forallb_forall in Hfk. specialize (Hfk p Hp).
        unfold has_client in Hfk. cbn [client] in Hfk.
        apply existsb_exists in Hfk. destruct Hfk as [r [Hr E]].
        apply Z.eqb_eq in E. specialize (Hids r Hr). lia.
      * intros row Hrow. apply negb_false_iff, Z.eqb_eq. now apply Hown.
  - destruct (add_client_state st _ _ _ phone_list Hf Hfn Hln Hem Hck Hseq
                Hfit) as [st1' [rows' [Hrun' _]]].
    rewrite Hrun in Hrun'. injection Hrun' as <-.
    rewrite (add_client_accepted st _ _ _ Hf Hfn Hln Hem Hck Hseq _ Hfit)
      in Hrun.
    injection Hrun as <-. now destruct (is_not_None phone_list && _).
Qed.

Lemma add_client_del_client_witness :
  let st :=
    snd (add_client (Some (u "A")) (Some (u "B")) None
           (PyList [Some (u "12")]) connect) in
  exists id st1 st2,
    add_client (Some (u "C")) (Some (u "D")) (Some (u "c@d.ee"))
      (PyList [Some (u "34"); Some (u "x"); Some (u "56")]) st
    = (Returned (Some id), st1)
    /\ del_client id st1 = (Returned tt, st2)
    /\ committed (conn st2) = current (conn st)
    /\ client_seq (conn st2) = id.
Proof.
  exact (add_client_del_client
           (snd (add_client (Some (u "A")) (Some (u "B")) None
                   (PyList [Some (u "12")]) connect))
           (Some (u "C")) (Some (u "D")) (Some (u "c@d.ee"))
           (PyList [Some (u "34"); Some (u "x"); Some (u "56")])
           eq_refl eq_refl eq_refl eq_refl eq_refl eq_refl eq_refl eq_refl).
Defined.

(** ** find_client after a change *)

Lemma find_client_run (key ident : pystr) (col : joined -> sqltext)
    (v : sqltext) (st : state) :
  getitem fields_to_search (lower key) = Some ident ->
  column ident = Some col ->
  failed (conn st) = false ->
  find_client key v st
  = (Returned
       (Some (nodup client_row_eq_dec
                (map c_ (filter (fun j => sql_eq (col j) v)
                                (LEFT_JOIN (current (conn st))))))),
     st).
Proof.
  intros Hget Hcol Hf. unfold find_client. rewrite Hget.
  unfold bind, execute, SELECT_DISTINCT_client. rewrite Hf, Hcol.
  now destruct st.
Qed.

(** X11.  A client [add_client] has just created is found by its first
    name, by its last name and by its email. *)
Theorem add_client_find_client (st : state) (x y z : pystr)
    (phone_list : pyvalue) :
  failed (conn st) = false ->
  fits 100 (Some x) = true ->
  fits 100 (Some y) = true ->
  fits 100 (Some z) = true ->
  matches email_regexp z = true ->
  seq_ahead (conn st) = true ->
  forallb (fits 50) (iter phone_list) = true ->
  exists id st' r1 r2 r3,
    add_client (Some x) (Some y) (Some z) phone_list st
    = (Returned (Some id), st')
    /\ find_client (u "имя") (Some x) st' = (Returned (Some r1), st')
    /\ find_client (u "фамилия") (Some y) st' = (Returned (Some r2), st')
    /\ find_client (u "email") (Some z) st' = (Returned (Some r3), st')
    /\ In (new_client id (Some x) (Some y) (Some z)) r1
    /\ In (new_client id (Some x) (Some y) (Some z)) r2
    /\ In (new_client id (Some x) (Some y) (Some z)) r3.
Proof.
  intros Hf Hfn Hln Hem Hck Hseq Hfit.
  destruct (add_client_state st _ _ _ phone_list Hf Hfn Hln Hem Hck Hseq Hfit)
    as [st' [rows [Hrun [Hf' [Hrest [Hcl _]]]]]].
  exists (client_seq (conn st) + 1)%Z, st'. do 3 eexists.
  split; [exact Hrun|].
  split; [apply (find_client_run _ (u "first_name")
                   (fun j => first_name (c_ j))); auto|].
  split; [apply (find_client_run _ (u "last_name")
                   (fun j => last_name (c_ j))); auto|].
  split; [apply (find_client_run _ (u "email")
                   (fun j => email (c_ j))); auto|].
  assert (In (new_client (client_seq (conn st) + 1) (Some x) (Some y) (Some z))
             (client (current (conn st')))) as Hin.
  { rewrite Hrest, Hcl. apply in_or_app. right. now left. }
  split; [|split].
  - apply (selected_rows_client first_name). split; [exact Hin|]. eauto.
  - apply (selected_rows_client last_name). split; [exact Hin|]. eauto.
  - apply (selected_rows_client email). split; [exact Hin|]. eauto.
Qed.

Lemma add_client_find_client_witness :
  exists id st' r1 r2 r3,
    add_client (Some (u "A")) (Some (u "B")) (Some (u "a@b.cc"))
      (PyList [Some (u "12")]) connect
    = (Returned (Some id), st')
    /\ find_client (u "имя") (Some (u "A")) st' = (Returned (Some r1), st')
    /\ find_client (u "фамилия") (Some (u "B")) st' = (Returned (Some r2), st')
    /\ find_client (u "email") (Some (u "a@b.cc")) st'
       = (Returned (Some r3), st')
    /\ In (new_client id (Some (u "A")) (Some (u "B")) (Some (u "a@b.cc"))) r1
    /\ In (new_client id (Some (u "A")) (Some (u "B")) (Some (u "a@b.cc"))) r2
    /\ In (new_client id (Some (u "A")) (Some (u "B")) (Some (u "a@b.cc"))) r3.
Proof.
  exact (add_client_find_client connect (u "A") (u "B") (u "a@b.cc")
           (PyList [Some (u "12")])
           eq_refl eq_refl eq_refl eq_refl eq_refl eq_refl eq_refl).
Defined.

Lemma add_client_phone_run (st : state) (cid : Z) (p : sqltext) :
  failed (conn st) = false ->
  seq_ahead (conn st) = true ->
  fits 50 p = true ->
  bad_phone p = false ->
  has_client cid (current (conn st)) = true ->
  add_client_phone cid p st
  = (Returned tt,
     {| conn :=
          conn_commit
            (set_current
               {| client := client (current (conn st));
                  client_phone :=
                    client_phone (current (conn st))
                    ++ [phone_row (client_phone_seq (conn st) + 1) cid p] |}
               (nextval_client_phone (conn st)));
        stdout := stdout st |}).
Proof.
  intros Hf Hseq Hfit Hok Hcl. destruct st as [c out]. cbn [conn stdout] in *.
  unfold add_client_phone, bind.
  rewrite insert_phone_accepted; try assumption; [reflexivity|].
  unfold seq_ahead in Hseq. apply andb_true_iff in Hseq.
  unfold has_client_phone. now apply fresh_phone.
Qed.

(** X12.  After [add_client_phone] has stored a phone, a search by that
    phone finds the client it was stored for. *)
Theorem add_client_phone_find_client (st : state) (cid : Z) (x : pystr)
    (r : client_row) :
  failed (conn st) = false ->
  seq_ahead (conn st) = true ->
  fits 50 (Some x) = true ->
  bad_phone (Some x) = false ->
  In r (client (current (conn st))) ->
  client_id r = cid ->
  exists st' rows,
    add_client_phone cid (Some x) st = (Returned tt, st')
    /\ find_client (u "телефон") (Some x) st' = (Returned (Some rows), st')
    /\ In r rows.
Proof.
  intros Hf Hseq Hfit Hok Hr Hid.
  assert (has_client cid (current (conn st)) = true) as Hcl.
  { apply existsb_exists. exists r. split; [exact Hr|]. now apply Z.eqb_eq. }
  rewrite (add_client_phone_run st _ _ Hf Hseq Hfit Hok Hcl).
  eexists. eexists. split; [reflexivity|].
  split; [apply (find_client_run _ (u "phone") cp_phone); auto|].
  apply selected_rows_phone.
  cbn [conn conn_commit set_current nextval_client_phone current committed
       failed]. rewrite Hf. cbn [client client_phone].
  split; [exact Hr|]. exists x. split; [reflexivity|].
  exists (phone_row (client_phone_seq (conn st) + 1) cid (Some x)).
  split; [apply in_or_app; right; now left|]. cbn. auto.
Qed.

Lemma add_client_phone_find_client_witness :
  let st := snd (add_client (Some (u "A")) (Some (u "B")) None PyNone connect) in
  exists st' rows,
    add_client_phone 1 (Some (u "12")) st = (Returned tt, st')
    /\ find_client (u "телефон") (Some (u "12")) st'
       = (Returned (Some rows), st')
    /\ In (new_client 1 (Some (u "A")) (Some (u "B")) None) rows.
Proof.
  exact (add_client_phone_find_client
           (snd (add_client (Some (u "A")) (Some (u "B")) None PyNone connect))
           1 (u "12") (new_client 1 (Some (u "A")) (Some (u "B")) None)
           eq_refl eq_refl eq_refl eq_refl (or_introl eq_refl) eq_refl).
Defined.

(** X14.  A search for [None] finds nothing, whatever the field: the
    comparison with NULL is never true, so the clients without an email are
    not found by searching the email for [None]. *)
Theorem find_client_None (st : state) (field_name ident : pystr) :
  failed (conn st) = false ->
  getitem fields_to_search (lower field_name) = Some ident ->
  find_client field_name None st = (Returned (Some []), st).
Proof.
  intros Hf Hget. unfold find_client. rewrite Hget.
  unfold bind, execute, SELECT_DISTINCT_client. rewrite Hf.
  destruct (column ident) as [col|] eqn:Hcol;
    [|now apply column_of_field in Hget].
  assert (forall l : list joined,
            filter (fun j => sql_eq (col j) None) l = []) as ->.
  { intros l. apply filter_none. intros j _. unfold sql_eq.
    now destruct (col j). }
  now destruct st.
Qed.

Lemma find_client_None_witness :
  let st := snd (add_client (Some (u "A")) (Some (u "B")) None PyNone connect) in
  email (new_client 1 (Some (u "A")) (Some (u "B")) None) = None
  /\ In (new_client 1 (Some (u "A")) (Some (u "B")) None)
        (client (current (conn st)))
  /\ find_client (u "email") None st = (Returned (Some []), st).
Proof.
  split; [reflexivity|]. split; [now left|].
  exact (find_client_None
           (snd (add_client (Some (u "A")) (Some (u "B")) None PyNone connect))
           (u "email") (u "email") eq_refl eq_refl).
Defined.

(** ** add_client, then the listing *)

(** X13.  A client added without phones is listed: whatever the order the
    backend gives the rows in, [print_all_clients] after such an
    [add_client] prints one row per client, for the clients there were and
    the new one; the row of the new client has no phones ([None]), and every
    row joins the phones its client had before the call. *)
Theorem add_client_listed (pl : plan) (st : state)
    (first_name last_name email : sqltext) (phone_list : pyvalue) :
  failed (conn st) = false ->
  fits 100 first_name = true ->
  fits 100 last_name = true ->
  fits 100 email = true ->
  check email_regexp email = true ->
  seq_ahead (conn st) = true ->
  consistent (current (conn st)) = true ->
  is_not_None phone_list && isinstance_Iterable phone_list = false ->
  exists id st' rows,
    add_client first_name last_name email phone_list st
    = (Returned (Some id), st')
    /\ print_all_clients pl st'
       = (Returned tt,
          {| conn := conn st'; stdout := stdout st ++ map Tuple rows |})
    /\ Permutation (map fst rows)
         (client (current (conn st))
          ++ [new_client id first_name last_name email])
    /\ In (new_client id first_name last_name email, None) rows
    /\ (forall c phones,
          In (c, phones) rows ->
          exists ps,
            Permutation ps (phones_of c (current (conn st)))
            /\ phones = string_agg (map phone ps) (u ", ")).
Proof.
  intros Hf Hfn Hln Hem Hck Hseq Hcons Hnone.
  assert (forallb (fits 50) (iter phone_list) = true) as Hfit
    by (destruct phone_list; try discriminate; reflexivity).
  destruct (add_client_state st _ _ _ phone_list Hf Hfn Hln Hem Hck Hseq Hfit)
    as [st' [rows0 [Hrun [Hf' [Hrest [Hcl [Hph [_ [Hrows Hout]]]]]]]]].
  specialize (Hrows Hnone). specialize (Hout Hnone). subst rows0.
  rewrite app_nil_r in Hph.
  apply consistent_iff in Hcons. destruct Hcons as [Hd [_ [Hfk _]]].
  assert (Hids : forall r, In r (client (current (conn st))) ->
            (client_id r <= client_seq (conn st))%Z).
  { unfold seq_ahead in Hseq. apply andb_true_iff in Hseq.
    destruct Hseq as [H _]. rewrite forallb_forall in H.
    intros r Hr. specialize (H r Hr). lia. }
  set (new := new_client (client_seq (conn st) + 1)
                         first_name last_name email) in *.
  assert (current (conn st')
          = {| client := client (current (conn st)) ++ [new];
               client_phone := client_phone (current (conn st)) |}) as Hdb.
  { rewrite Hrest. destruct (committed (conn st')). cbn in Hcl, Hph.
    now subst. }
  assert (forall c, phones_of c (current (conn st'))
                    = phones_of c (current (conn st))) as Hsame
    by (intros c; now rewrite Hdb).
  assert (phones_of new (current (conn st)) = []) as Hnew.
  { unfold phones_of. apply filter_none. intros p Hp. apply Z.eqb_neq.
    unfold references_ok in Hfk. rewrite forallb_forall in Hfk.
    specialize (Hfk p Hp). apply has_client_iff in Hfk.
    apply in_map_iff in Hfk. destruct Hfk as [r [E Hr]].
    specialize (Hids r Hr). cbn [new new_client client_id]. lia. }
  assert (NoDup (client (current (conn st')))) as Hnd.
  { rewrite Hdb. cbn [client]. apply (NoDup_map_inv client_id).
    rewrite map_app. cbn [map]. apply distinct_NoDup.
    apply distinct_snoc; [exact Hd|]. cbn.
    intros Hin. apply in_map_iff in Hin. destruct Hin as [r [E Hr]].
    specialize (Hids r Hr). lia. }
  destruct (SELECT_client_GROUP_BY_rows pl (conn st') Hnd)
    as [rows [Hq [Hperm Hagg]]].
  exists (client_seq (conn st) + 1)%Z, st', rows.
  split; [exact Hrun|]. fold new.
  assert (forall c phones,
            In (c, phones) rows ->
            exists ps,
              Permutation ps (phones_of c (current (conn st)))
              /\ phones = string_agg (map phone ps) (u ", ")) as Hagg'.
  { intros c phones Hin. destruct (Hagg _ _ Hin) as [ps [Hps E]].
    exists ps. split; [now rewrite <- Hsame | exact E]. }
  split; [|split; [|split; [|exact Hagg']]].
  - unfold print_all_clients, bind, execute. rewrite Hf', Hq.
    rewrite for_in_print. now rewrite Hout.
  - rewrite Hperm, Hdb. reflexivity.
  - assert (In new (map fst rows)) as Hin.
    { apply (Permutation_in _ (Permutation_sym Hperm)). rewrite Hdb.
      cbn [client]. apply in_or_app. right. now left. }
    apply in_map_iff in Hin. destruct Hin as [[c agg] [E Hin]].
    cbn [fst] in E. subst c.
    destruct (Hagg' _ _ Hin) as [ps [Hps ->]]. rewrite Hnew in Hps.
    apply Permutation_sym, Permutation_nil in Hps. now subst ps.
Qed.

Lemma add_client_listed_witness :
  let st :=
    snd (add_client (Some (u "A")) (Some (u "B")) None
           (PyList [Some (u "12"); Some (u "34")]) connect) in
  let pl := {| scan_order := [1%nat]; group_order := [1%nat] |} in
  exists id st' rows,
    add_client (Some (u "C")) (Some (u "D")) (Some (u "c@d.ee")) PyNone st
    = (Returned (Some id), st')
    /\ print_all_clients pl st'
       = (Returned tt,
          {| conn := conn st'; stdout := stdout st ++ map Tuple rows |})
    /\ Permutation (map fst rows)
         (client (current (conn st))
          ++ [new_client id (Some (u "C")) (Some (u "D")) (Some (u "c@d.ee"))])
    /\ In (new_client id (Some (u "C")) (Some (u "D")) (Some (u "c@d.ee")),
           None) rows
    /\ (forall c phones,
          In (c, phones) rows ->
          exists ps,
            Permutation ps (phones_of c (current (conn st)))
            /\ phones = string_agg (map phone ps) (u ", ")).
Proof.
  exact (add_client_listed
           {| scan_order := [1%nat]; group_order := [1%nat] |}
           (snd (add_client (Some (u "A")) (Some (u "B")) None
                   (PyList [Some (u "12"); Some (u "34")]) connect))
           (Some (u "C")) (Some (u "D")) (Some (u "c@d.ee")) PyNone
           eq_refl eq_refl eq_refl eq_refl eq_refl eq_refl eq_refl eq_refl).
Defined.

(** ** The listing in any order *)

Lemma insert_at_map {A B} (f : A -> B) (k : nat) (x : A) (l : list A) :
  map f (insert_at k x l) = insert_at k (f x) (map f l).
Proof.
  revert k. induction l as [|y r IH]; intros [|k]; cbn; try reflexivity.
  now rewrite IH.
Qed.

Lemma arrange_map {A B} (f : A -> B) (order : row_order) (l : list A) :
  map f (arrange order l) = arrange order (map f l).
Proof.
  revert order. induction l as [|x r IH]; intros order; cbn; [reflexivity|].
  now rewrite insert_at_map, IH.
Qed.

(** X26.  The query of [print_all_clients] fixes no order: every
    arrangement of the rows of the listing is what the method prints under
    some choice of the backend. *)
Theorem print_all_clients_any_order (st : state)
    (rows : list (client_row * sqltext)) :
  failed (conn st) = false ->
  distinct (map client_id (client (current (conn st)))) = true ->
  Permutation (listing (current (conn st))) rows ->
  exists pl,
    print_all_clients pl st
    = (Returned tt,
       {| conn := conn st; stdout := stdout st ++ map Tuple rows |}).
Proof.
  intros Hf Hpk Hperm. apply distinct_NoDup, NoDup_map_inv in Hpk.
  destruct (arrange_complete _ _ Hperm) as [order Ho].
  exists {| scan_order := []; group_order := order |}.
  unfold print_all_clients, bind, execute, SELECT_client_GROUP_BY.
  rewrite Hf. cbn [scan_order group_order]. rewrite arrange_nil.
  unfold LEFT_JOIN. rewrite nodup_join by exact Hpk.
  rewrite arrange_map.
  assert (map (fun k =>
                 (k, string_agg
                       (map cp_phone
                            (filter (fun j => client_row_eqb (c_ j) k)
                                    (flat_map (join_rows (current (conn st)))
                                              (client (current (conn st))))))
                       (u ", ")))
              (client (current (conn st)))
          = listing (current (conn st))) as ->.
  { unfold listing. apply map_ext_in. intros k Hk.
    rewrite filter_join by assumption.
    unfold string_agg. now rewrite join_rows_phones. }
  rewrite Ho. now rewrite for_in_print.
Qed.

Lemma print_all_clients_any_order_witness :
  let st :=
    snd (add_client (Some (u "C")) (Some (u "D")) None PyNone
      (snd (add_client (Some (u "A")) (Some (u "B")) None
              (PyList [Some (u "12")]) connect))) in
  exists pl,
    print_all_clients pl st
    = (Returned tt,
       {| conn := conn st;
          stdout :=
            stdout st
            ++ map Tuple
                 [(new_client 2 (Some (u "C")) (Some (u "D")) None, None);
                  (new_client 1 (Some (u "A")) (Some (u "B")) None,
                   Some (u "12"))] |}).
Proof.
  exact (print_all_clients_any_order
    (snd (add_client (Some (u "C")) (Some (u "D")) None PyNone
      (snd (add_client (Some (u "A")) (Some (u "B")) None
              (PyList [Some (u "12")]) connect))))
    [(new_client 2 (Some (u "C")) (Some (u "D")) None, None);
     (new_client 1 (Some (u "A")) (Some (u "B")) None, Some (u "12"))]
    eq_refl eq_refl (perm_swap _ _ [])).
Defined.

(** ** add_client: a phone too long for its column *)

Lemma for_in_app {A} (body : A -> M unit) (a b : list A) (st : state) :
  for_in (a ++ b) body st = (for_in a body ;; for_in b body) st.
Proof.
  revert st. induction a as [|x a IH]; intros st; [reflexivity|].
  cbn [app for_in]. unfold bind.
  destruct (body x st) as [[[]|e] st1]; [|reflexivity].
  rewrite IH. reflexivity.
Qed.

(** X15.  A phone too long for its column makes [add_client] raise after
    the client has been committed: the call raises the too-long-value error,
    the new client is durable, none of the phones of the list is (not even
    those inserted before the long one), and the transaction is left
    aborted. *)
Theorem add_client_phone_too_long (st : state)
    (first_name last_name email : sqltext) (phone_list : pyvalue)
    (before : list sqltext) (long : sqltext) (rest : list sqltext) :
  failed (conn st) = false ->
  fits 100 first_name = true ->
  fits 100 last_name = true ->
  fits 100 email = true ->
  check email_regexp email = true ->
  seq_ahead (conn st) = true ->
  isinstance_Iterable phone_list = true ->
  iter phone_list = before ++ long :: rest ->
  forallb (fits 50) before = true ->
  varchar 50 long = Err StringDataRightTruncation ->
  exists st',
    add_client first_name last_name email phone_list st
    = (Raised StringDataRightTruncation, st')
    /\ client (committed (conn st'))
       = client (current (conn st))
         ++ [new_client (client_seq (conn st) + 1) first_name last_name email]
    /\ client_phone (committed (conn st')) = client_phone (current (conn st))
    /\ failed (conn st') = true.
Proof.
  intros Hf Hfn Hln Hem Hck Hseq Hit Hl Hfit Hlong.
  assert (Hfresh := fresh_client _ Hseq).
  unfold seq_ahead in Hseq. apply andb_true_iff in Hseq.
  destruct Hseq as [_ Hph].
  destruct st as [[cm [cl ph] f cs ps lg] out].
  cbn [conn current failed client_seq client_phone_seq log client
       client_phone stdout] in *.
  subst f.
  assert (is_not_None phone_list && isinstance_Iterable phone_list = true)
    as Hcond by (destruct phone_list; try discriminate; reflexivity).
  unfold add_client. unfold bind at 1.
  unfold try_except_CheckViolation, bind, execute, INSERT_INTO_client.
  cbn [conn failed stdout].
  rewrite (varchar_fits _ _ Hfn), (varchar_fits _ _ Hln),
    (varchar_fits _ _ Hem), Hck.
  cbn [negb client_seq current]. rewrite Hfresh.
  unfold commit, ret, set_current, nextval_client, conn_commit.
  cbn [conn stdout committed current failed client_seq client_phone_seq log
       client client_phone].
  rewrite Hcond, Hl, for_in_app. unfold bind.
  assert (Hloop :=
    phone_loop (cs + 1)
      (cl ++ [new_client (cs + 1) first_name last_name email]) ph before
      [] ps (cs + 1)
      (lg ++ [Commit {| client :=
                          cl ++ [new_client (cs + 1) first_name last_name
                                            email];
                        client_phone := ph |}]) out).
  rewrite app_nil_r in Hloop. unfold new_client in Hloop.
  change (fun phone : sqltext => _insert_client_phone (cs + 1) phone)
    with (_insert_client_phone (cs + 1)).
  rewrite Hloop; [| |exact Hph|exact Hfit].
  - cbn [for_in]. unfold bind.
    unfold _insert_client_phone, try_except_CheckViolation, execute,
      INSERT_INTO_client_phone.
    cbn [conn failed stdout current].
    match goal with
    | |- context [has_client ?i ?d] =>
        assert (has_client i d = true) as Hhas
    end.
    { unfold has_client. cbn [client]. rewrite existsb_app. cbn.
      rewrite Z.eqb_refl. now rewrite !orb_true_r. }
    rewrite Hhas, orb_true_r. cbn [negb]. rewrite Hlong.
    eexists. split; [reflexivity|]. cbn. repeat split.
  - rewrite existsb_app. cbn. rewrite Z.eqb_refl. now rewrite orb_true_r.
Qed.

Lemma add_client_phone_too_long_witness :
  exists st',
    add_client (Some (u "A")) (Some (u "B")) None
      (PyList [Some (u "12"); Some (repeat 49%N 51); Some (u "34")]) connect
    = (Raised StringDataRightTruncation, st')
    /\ client (committed (conn st'))
       = [new_client 1 (Some (u "A")) (Some (u "B")) None]
    /\ client_phone (committed (conn st')) = []
    /\ failed (conn st') = true.
Proof.
  exact (add_client_phone_too_long connect (Some (u "A")) (Some (u "B")) None
           (PyList [Some (u "12"); Some (repeat 49%N 51); Some (u "34")])
           [Some (u "12")] (Some (repeat 49%N 51)) [Some (u "34")]
           eq_refl eq_refl eq_refl eq_refl eq_refl eq_refl eq_refl eq_refl
           eq_refl eq_refl).
Defined.

(** ** add_client: a string in place of the list *)

Lemma digit_is_phone (c : N) :
  is_digit c = true -> bad_phone (Some [c]) = false.
Proof.
  intros Hd. unfold bad_phone, check. apply negb_false_iff.
  apply (digit_in_is_digit C_locale) in Hd.
  apply matches_lang. unfold phone_regexp, phone_regexp_in.
  apply (lang_Cat _ _ [] [c]); [apply lang_Opt; now left|].
  apply (lang_Cat _ _ [] [c]); [apply lang_Opt; now left|].
  apply (lang_Cat _ _ [] [c]); [apply lang_Opt; now left|].
  apply (lang_Cat _ _ [c] []).
  { apply lang_digits_1_4. cbn [length forallb]. rewrite Hd.
    split; [lia|reflexivity]. }
  apply (lang_Cat _ _ [] []); [apply lang_Opt; now left|]. constructor.
Qed.

(** X16.  A string given as [phone_list] is taken character by character:
    for a string of digits, [add_client] stores one phone per digit, each
    under its own identifier, and prints nothing. *)
Theorem add_client_string_of_digits (st : state)
    (first_name last_name email : sqltext) (s : pystr) :
  failed (conn st) = false ->
  fits 100 first_name = true ->
  fits 100 last_name = true ->
  fits 100 email = true ->
  check email_regexp email = true ->
  seq_ahead (conn st) = true ->
  forallb is_digit s = true ->
  exists st',
    add_client first_name last_name email (PyStr s) st
    = (Returned (Some (client_seq (conn st) + 1)%Z), st')
    /\ client_phone (committed (conn st'))
       = client_phone (current (conn st))
         ++ map (fun x => phone_row (fst x) (client_seq (conn st) + 1) (snd x))
                (numbered (client_phone_seq (conn st))
                          (map (fun c => Some [c]) s))
    /\ stdout st' = stdout st.
Proof.
  intros Hf Hfn Hln Hem Hck Hseq Hd.
  assert (forallb (fits 50) (iter (PyStr s)) = true) as Hfit.
  { cbn [iter]. apply forallb_forall. intros p Hp.
    apply in_map_iff in Hp. destruct Hp as [c [<- _]]. reflexivity. }
  assert (existsb bad_phone (iter (PyStr s)) = false) as Hgood.
  { cbn [iter]. clear - Hd. induction s as [|c s IH]; [reflexivity|].
    cbn [forallb] in Hd. apply andb_true_iff in Hd. destruct Hd as [Hc Hs].
    cbn [map existsb]. rewrite (digit_is_phone c Hc). now apply IH. }
  rewrite (add_client_accepted st _ _ _ Hf Hfn Hln Hem Hck Hseq _ Hfit).
  cbn [is_not_None isinstance_Iterable andb].
  eexists. split; [reflexivity|]. cbn [conn committed client_phone stdout].
  rewrite loop_rows_spec, Hgood. cbn [app]. split; [reflexivity|].
  unfold count_bad.
  rewrite filter_none; [cbn; now rewrite app_nil_r|].
  intros p Hp. destruct (bad_phone p) eqn:E; [|reflexivity].
  assert (existsb bad_phone (iter (PyStr s)) = true) as H
    by (apply existsb_exists; eauto).
  congruence.
Qed.

Lemma add_client_string_of_digits_witness :
  exists st',
    add_client (Some (u "A")) (Some (u "B")) None (PyStr (u "495")) connect
    = (Returned (Some 1%Z), st')
    /\ client_phone (committed (conn st'))
       = [phone_row 1 1 (Some (u "4")); phone_row 2 1 (Some (u "9"));
          phone_row 3 1 (Some (u "5"))]
    /\ stdout st' = [].
Proof.
  exact (add_client_string_of_digits connect (Some (u "A")) (Some (u "B")) None
           (u "495") eq_refl eq_refl eq_refl eq_refl eq_refl eq_refl eq_refl).
Defined.

(** ** What no statement does *)

Lemma modest_INSERT_INTO_client (fn ln em : sqltext) :
  modest (INSERT_INTO_client fn ln em).
Proof.
  intros c. unfold INSERT_INTO_client.
  destruct (varchar 100 fn); [|cbn; split; [reflexivity|lia]].
  destruct (varchar 100 ln); [|cbn; split; [reflexivity|lia]].
  destruct (varchar 100 em); [|cbn; split; [reflexivity|lia]].
  destruct (negb (check email_regexp s1)); [cbn; split; [reflexivity|lia]|].
  destruct (has_client _ _); cbn; split; (reflexivity || lia).
Qed.

Lemma modest_INSERT_INTO_client_phone (cid : Z) (ph : sqltext) :
  modest (INSERT_INTO_client_phone cid ph).
Proof.
  intros c. unfold INSERT_INTO_client_phone.
  destruct (negb (int4 cid || has_client cid (current c)));
    [cbn; split; [reflexivity|lia]|].
  destruct (varchar 50 ph); [|cbn; split; [reflexivity|lia]].
  destruct (negb (check phone_regexp s)); [cbn; split; [reflexivity|lia]|].
  destruct (has_client_phone _ _); [cbn; split; [reflexivity|lia]|].
  destruct (negb (has_client cid (current c))); cbn; split;
    (reflexivity || lia).
Qed.

Lemma modest_UPDATE_client (id : Z) (fn ln em : sqltext) :
  modest (UPDATE_client id fn ln em).
Proof.
  intros c. unfold UPDATE_client.
  destruct (varchar 100 fn); [|cbn; split; [reflexivity|lia]].
  destruct (varchar 100 ln); [|cbn; split; [reflexivity|lia]].
  destruct (varchar 100 em); [|cbn; split; [reflexivity|lia]].
  destruct (_ && _); cbn; split; (reflexivity || lia).
Qed.

Lemma modest_DELETE_FROM_client_phone_by_id (pid : Z) :
  modest (DELETE_FROM_client_phone_by_id pid).
Proof. intros c. cbn. split; [reflexivity|lia]. Qed.

Lemma modest_DELETE_FROM_client_phone (cid : Z) :
  modest (DELETE_FROM_client_phone cid).
Proof. intros c. cbn. split; [reflexivity|lia]. Qed.

Lemma modest_DELETE_FROM_client (cid : Z) :
  modest (DELETE_FROM_client cid).
Proof.
  intros c. unfold DELETE_FROM_client.
  destruct (_ && _); cbn; split; (reflexivity || lia).
Qed.

Lemma triple_execute_modest {A} (q : statement A) (K : connection -> Prop) :
  (forall c, K c -> K (snd (q c))) ->
  (forall c, K c -> K (set_failed c)) ->
  triple (fun s => K (conn s)) (execute q)
         (fun _ s => K (conn s)) (fun _ s => K (conn s)).
Proof.
  intros Hq Hfail. apply triple_execute.
  - auto.
  - intros st Hst _. specialize (Hq _ Hst).
    destruct (q (conn st)) as [[a|e] c]; cbn [snd conn] in *; auto.
Qed.

(** ** A call that raises *)

Lemma durable_execute {A} (db : database) (q : statement A) :
  modest q ->
  triple (fun s => committed (conn s) = db) (execute q)
         (fun _ s => committed (conn s) = db)
         (fun _ s => committed (conn s) = db).
Proof.
  intros Hq. apply (triple_execute_modest q (fun c => committed c = db)).
  - intros c Hc. now rewrite (proj1 (Hq c)).
  - auto.
Qed.

Lemma durable_commit (db : database) :
  triple (fun s => committed (conn s) = db) commit (fun _ _ => True)
         (fun _ s => committed (conn s) = db).
Proof. apply triple_commit. auto. Qed.

(** X20.  Every method but [add_client] is one transaction: when its call
    raises, the durable database is what it was before the call. *)
Theorem raise_keeps_durable (k : call) (st st' : state) (e : pg_error) :
  commits_once k = true ->
  perform k st = (Some e, st') ->
  committed (conn st') = committed (conn st).
Proof.
  intros Hk Hrun.
  remember (committed (conn st)) as db eqn:Hdb. symmetry in Hdb.
  pose (P := fun s : state => committed (conn s) = db).
  assert (forall A (m : M A),
            triple P m (fun _ _ => True) (fun _ => P) ->
            raised (m st) = (Some e, st') -> committed (conn st') = db)
    as Huse.
  { intros A m Hm Hr. specialize (Hm st Hdb).
    destruct (m st) as [[a|e0] s]; cbn in Hr; [discriminate|].
    injection Hr as _ <-. exact Hm. }
  destruct k as [fn ln em pl|cid p|id fn ln em|pid|cid|f v|o];
    cbn [perform commits_once] in *; try discriminate.
  - revert Hrun. apply Huse. unfold add_client_phone.
    eapply (triple_bind _ _ _ (fun _ => P));
      [|intros []; apply durable_commit].
    unfold _insert_client_phone.
    eapply (triple_try _ _ _ _ _ (fun _ => P)).
    + apply durable_execute, modest_INSERT_INTO_client_phone.
    + eapply (triple_bind _ _ _ (fun _ => P)).
      * apply triple_print. auto.
      * intros []. apply triple_rollback. auto.
    + auto.
  - revert Hrun. apply Huse. unfold update_client.
    eapply (triple_bind _ _ _ (fun _ => P));
      [|intros n; apply durable_commit].
    apply durable_execute, modest_UPDATE_client.
  - revert Hrun. apply Huse. unfold del_client_phone.
    eapply (triple_bind _ _ _ (fun _ => P));
      [|intros []; apply durable_commit].
    apply durable_execute, modest_DELETE_FROM_client_phone_by_id.
  - revert Hrun. apply Huse. unfold del_client.
    eapply (triple_bind _ _ _ (fun _ => P));
      [apply durable_execute, modest_DELETE_FROM_client_phone|].
    intros []. eapply (triple_bind _ _ _ (fun _ => P));
      [|intros []; apply durable_commit].
    apply durable_execute, modest_DELETE_FROM_client.
  - assert (Hc := find_client_conn f v st).
    destruct (find_client f v st) as [[a|e0] s]; cbn in Hrun; [discriminate|].
    injection Hrun as _ <-. cbn in Hc. now rewrite Hc.
  - assert (Hc := print_all_clients_conn o st).
    destruct (print_all_clients o st) as [[a|e0] s]; cbn in Hrun;
      [discriminate|].
    injection Hrun as _ <-. cbn in Hc. now rewrite Hc.
Qed.

Lemma raise_keeps_durable_witness :
  let st := snd (add_client (Some (u "A")) (Some (u "B")) None PyNone connect) in
  let k := Update_client 1 (Some (u "C")) (Some (u "D"))
             (Some (u "not-an-email")) in
  fst (perform k st) = Some CheckViolation
  /\ committed (conn (snd (perform k st))) = committed (conn st).
Proof.
  split; [reflexivity|].
  exact (raise_keeps_durable
           (Update_client 1 (Some (u "C")) (Some (u "D"))
              (Some (u "not-an-email")))
           (snd (add_client (Some (u "A")) (Some (u "B")) None PyNone connect))
           _ CheckViolation eq_refl eq_refl).
Defined.

(** ** The client sequence *)

Section Sequence.

Variable n : Z.

Let K (c : connection) : Prop := (n <= client_seq c)%Z.
Let P (s : state) : Prop := K (conn s).

Lemma seq_execute {A} (q : statement A) :
  modest q -> triple P (execute q) (fun _ => P) (fun _ => P).
Proof.
  intros Hq. apply (triple_execute_modest q K).
  - intros c Hc. unfold K in *. destruct (Hq c) as [_ H]. lia.
  - auto.
Qed.

Lemma seq_commit : triple P commit (fun _ => P) (fun _ => P).
Proof. apply triple_commit. auto. Qed.

Lemma seq_rollback : triple P rollback (fun _ => P) (fun _ => P).
Proof. apply triple_rollback. auto. Qed.

Lemma seq_insert_client_phone (cid : Z) (p : sqltext) :
  triple P (_insert_client_phone cid p) (fun _ => P) (fun _ => P).
Proof.
  unfold _insert_client_phone.
  eapply (triple_try _ _ _ _ _ (fun _ => P)).
  - apply seq_execute, modest_INSERT_INTO_client_phone.
  - eapply (triple_bind _ _ _ (fun _ => P)).
    + apply triple_print. auto.
    + intros []. apply seq_rollback.
  - auto.
Qed.

Lemma seq_phone_step (cid : Z) (pl : pyvalue) :
  triple P
    (if is_not_None pl && isinstance_Iterable pl
     then for_in (iter pl) (fun phone => _insert_client_phone cid phone) ;;
          commit
     else ret tt)
    (fun _ => P) (fun _ => P).
Proof.
  destruct (is_not_None pl && isinstance_Iterable pl).
  - eapply (triple_bind _ _ _ (fun _ => P)).
    + apply triple_for_in. intros x _. apply seq_insert_client_phone.
    + intros []. apply seq_commit.
  - apply triple_ret. auto.
Qed.

Lemma seq_add_client (fn ln em : sqltext) (pl : pyvalue) :
  triple P (add_client fn ln em pl) (fun _ => P) (fun _ => P).
Proof.
  unfold add_client. eapply (triple_bind _ _ _ (fun _ => P)).
  - eapply (triple_try _ _ _ _ _ (fun _ => P)).
    + eapply (triple_bind _ _ _ (fun _ => P)).
      * apply seq_execute, modest_INSERT_INTO_client.
      * intros id. eapply (triple_bind _ _ _ (fun _ => P)).
        -- apply seq_commit.
        -- intros []. apply triple_ret. auto.
    + eapply (triple_bind _ _ _ (fun _ => P)).
      * apply triple_print. auto.
      * intros []. eapply (triple_bind _ _ _ (fun _ => P)).
        -- apply seq_rollback.
        -- intros []. apply triple_ret. auto.
    + auto.
  - intros [id|]; [|apply triple_ret; auto].
    eapply (triple_bind _ _ _ (fun _ => P)).
    + apply seq_phone_step.
    + intros []. apply triple_ret. auto.
Qed.

Lemma seq_after (k : call) (st : state) : P st -> P (after k st).
Proof.
  intros Hst.
  assert (forall A (m : M A),
            triple P m (fun _ => P) (fun _ => P) -> P (snd (raised (m st))))
    as Huse.
  { intros A m Hm. specialize (Hm st Hst).
    now destruct (m st) as [[a|e0] s]. }
  unfold after.
  destruct k as [fn ln em pl|cid p|id fn ln em|pid|cid|f v|o]; cbn [perform].
  - apply Huse, seq_add_client.
  - apply Huse. unfold add_client_phone.
    eapply (triple_bind _ _ _ (fun _ => P)).
    + apply seq_insert_client_phone.
    + intros []. apply seq_commit.
  - apply Huse. unfold update_client.
    eapply (triple_bind _ _ _ (fun _ => P)).
    + apply seq_execute, modest_UPDATE_client.
    + intros m. apply seq_commit.
  - apply Huse. unfold del_client_phone.
    eapply (triple_bind _ _ _ (fun _ => P)).
    + apply seq_execute, modest_DELETE_FROM_client_phone_by_id.
    + intros []. apply seq_commit.
  - apply Huse. unfold del_client.
    eapply (triple_bind _ _ _ (fun _ => P)).
    + apply seq_execute, modest_DELETE_FROM_client_phone.
    + intros []. eapply (triple_bind _ _ _ (fun _ => P)).
      * apply seq_execute, modest_DELETE_FROM_client.
      * intros []. apply seq_commit.
  - assert (Hc := find_client_conn f v st). unfold P.
    destruct (find_client f v st) as [[a|e0] s]; cbn in *; now rewrite Hc.
  - assert (Hc := print_all_clients_conn o st). unfold P.
    destruct (print_all_clients o st) as [[a|e0] s]; cbn in *; now rewrite Hc.
Qed.

Lemma seq_run (ks : list call) (st : state) : P st -> P (run ks st).
Proof.
  revert st. induction ks as [|k ks IH]; intros st H; [exact H|].
  cbn [run fold_left]. apply IH. now apply seq_after.
Qed.

End Sequence.

Lemma INSERT_INTO_client_id (fn ln em : sqltext) (c c' : connection) (id : Z) :
  INSERT_INTO_client fn ln em c = (Ok id, c') ->
  id = (client_seq c + 1)%Z /\ client_seq c' = id.
Proof.
  unfold INSERT_INTO_client.
  destruct (varchar 100 fn); [|discriminate].
  destruct (varchar 100 ln); [|discriminate].
  destruct (varchar 100 em); [|discriminate].
  destruct (negb (check email_regexp s1)); [discriminate|].
  destruct (has_client _ _); [discriminate|].
  intros [= <- <-]. cbn. auto.
Qed.

Lemma add_client_id (fn ln em : sqltext) (pl : pyvalue) (st st' : state)
    (id : Z) :
  add_client fn ln em pl st = (Returned (Some id), st') ->
  id = (client_seq (conn st) + 1)%Z /\ (id <= client_seq (conn st'))%Z.
Proof.
  intros Hrun.
  assert (triple (fun s => s = st) (add_client fn ln em pl)
            (fun r s => match r with
                        | Some id => id = (client_seq (conn st) + 1)%Z
                                     /\ (id <= client_seq (conn s))%Z
                        | None => True
                        end)
            (fun _ _ => True)) as H.
  { unfold add_client.
    eapply (triple_bind _ _ _
              (fun r s => match r with
                          | Some id => id = (client_seq (conn st) + 1)%Z
                                       /\ (id <= client_seq (conn s))%Z
                          | None => True
                          end)).
    - eapply (triple_try _ _ _ _ _ (fun _ _ => True)).
      + eapply (triple_bind _ _ _
                  (fun id s => id = (client_seq (conn st) + 1)%Z
                               /\ (id <= client_seq (conn s))%Z)).
        * apply triple_execute; [auto|]. intros s -> _.
          destruct (INSERT_INTO_client fn ln em (conn st)) as [[a|e] c] eqn:E;
            [|exact I].
          apply INSERT_INTO_client_id in E. cbn [conn]. lia.
        * intros a. eapply (triple_bind _ _ _
              (fun _ s => a = (client_seq (conn st) + 1)%Z
                          /\ (a <= client_seq (conn s))%Z)).
          -- apply triple_commit. auto.
          -- intros []. apply triple_ret. auto.
      + eapply (triple_bind _ _ _ (fun _ _ => True)).
        * apply triple_print. auto.
        * intros []. eapply (triple_bind _ _ _ (fun _ _ => True)).
          -- apply triple_rollback. auto.
          -- intros []. apply triple_ret. auto.
      + auto.
    - intros [a|]; [|apply triple_ret; auto].
      eapply (triple_bind _ _ _
                (fun _ s => a = (client_seq (conn st) + 1)%Z
                            /\ (a <= client_seq (conn s))%Z)).
      + intros s [Ha Hs]. assert (Hk := seq_phone_step a a pl s Hs).
        cbv beta in Hk.
        match type of Hk with
        | let (_, _) := ?m in _ => destruct m as [[u0|e] s']
        end; auto.
      + intros []. apply triple_ret. auto. }
  specialize (H st eq_refl). rewrite Hrun in H. exact H.
Qed.

(** X22.  A client identifier is never handed out twice: whatever calls
    come between two calls of [add_client] that return an identifier, also
    calls that delete clients or raise, the later identifier is the
    greater. *)
Theorem client_id_never_reused (st st1 st2 : state) (ks : list call)
    (fn1 ln1 em1 fn2 ln2 em2 : sqltext) (pl1 pl2 : pyvalue) (id1 id2 : Z) :
  add_client fn1 ln1 em1 pl1 st = (Returned (Some id1), st1) ->
  add_client fn2 ln2 em2 pl2 (run ks st1) = (Returned (Some id2), st2) ->
  (id1 < id2)%Z.
Proof.
  intros H1 H2. apply add_client_id in H1, H2.
  destruct H1 as [_ H1]. destruct H2 as [H2 _].
  assert (H := seq_run id1 ks st1 H1). cbv beta in H. lia.
Qed.

Lemma client_id_never_reused_witness :
  let st1 :=
    snd (add_client (Some (u "A")) (Some (u "B")) None PyNone connect) in
  let ks := [Del_client 1; Add_client_phone 1 (Some (u "bad phone!!"))] in
  fst (add_client (Some (u "A")) (Some (u "B")) None PyNone connect)
  = Returned (Some 1%Z)
  /\ fst (add_client (Some (u "C")) (Some (u "D")) None PyNone (run ks st1))
     = Returned (Some 2%Z)
  /\ (1 < 2)%Z.
Proof.
  split; [reflexivity|]. split; [reflexivity|].
  exact (client_id_never_reused connect
           (snd (add_client (Some (u "A")) (Some (u "B")) None PyNone connect))
           _
           [Del_client 1; Add_client_phone 1 (Some (u "bad phone!!"))]
           (Some (u "A")) (Some (u "B")) None
           (Some (u "C")) (Some (u "D")) None PyNone PyNone 1 2
           eq_refl eq_refl).
Defined.
